(** * The decode-and-sample engine of scanner: [DecoderEvaluator]

    A shallow embedding of [src/scanner/evaluators/video/decoder_evaluator.cpp]
    (the engine and its factory) and of the [SpinLock] of
    [src/lightscan/util/common.h].

    - C++ [i32] / [i64] values are integers of [Z]; a signed overflow is
      undefined behaviour in C++ and is the outcome [Undef] here.  [size_t]
      arithmetic wraps modulo [2^64] and is written out.
    - A failed [assert] aborts the process: the outcome [Abort] (assertions
      are taken as compiled in).
    - Loops of the source whose termination depends on the data or on the
      decoder take a [fuel]; running out of it is the outcome [Timeout].
    - The video decoder behind [decoder_] is an interface of the source
      ([VideoDecoder]); it is a type class here and the engine is stated over
      any instance. *)

From Stdlib Require Import ZArith List Bool Lia.
From Stdlib.Strings Require Import Byte.
From Stdlib.Strings Require String.
Import ListNotations.
Import String.StringSyntax.
Delimit Scope string_scope with string.

Local Open Scope Z_scope.

(** ** Outcomes of running C++ code *)

Inductive result (A : Type) : Type :=
| Ok (a : A)        (* the code ran to the end of the modelled fragment *)
| Abort             (* an [assert] failed *)
| Undef             (* undefined behaviour: signed overflow, out-of-range access *)
| Timeout.          (* the model ran out of fuel *)

Arguments Ok {A} a.
Arguments Abort {A}.
Arguments Undef {A}.
Arguments Timeout {A}.

Definition rbind {A B : Type} (r : result A) (k : A -> result B) : result B :=
  match r with
  | Ok a => k a
  | Abort => Abort
  | Undef => Undef
  | Timeout => Timeout
  end.

Declare Scope result_scope.
Delimit Scope result_scope with result.
Notation "x <-- r ;; k" := (rbind r (fun x => k))
  (at level 61, r at next level, right associativity) : result_scope.

(** ** Machine integers *)

Definition min_i32 : Z := - 2 ^ 31.
Definition max_i32 : Z := 2 ^ 31 - 1.
Definition max_i64 : Z := 2 ^ 63 - 1.

Definition in_i32 (z : Z) : bool := (min_i32 <=? z) && (z <=? max_i32).

(** [a + b] on [i32]: undefined when the sum does not fit. *)
Definition add_i32 (a b : Z) : result Z :=
  if in_i32 (a + b) then Ok (a + b) else Undef.

(** [a * b] on [i32]. *)
Definition mul_i32 (a b : Z) : result Z :=
  if in_i32 (a * b) then Ok (a * b) else Undef.

(** [x++] on [i64]. *)
Definition incr_i64 (x : Z) : result Z :=
  if x <? max_i64 then Ok (x + 1) else Undef.

(** [static_cast<i32>] of a [size_t]: the low 32 bits, read as signed. *)
Definition cast_i32 (z : Z) : Z :=
  let m := z mod 2 ^ 32 in
  if m <? 2 ^ 31 then m else m - 2 ^ 32.

(** [size_t] arithmetic wraps. *)
Definition wrap_size_t (z : Z) : Z := z mod 2 ^ 64.

(** ** The sampling descriptor ([DecodeArgs], a protobuf message) *)

Inductive DeviceType : Type := CPU | GPU.

Inductive Sampling : Type :=
| All
| Strided
| Gather
| SequenceGather
| UnknownSampling (tag : Z).   (* any other value of the enum field *)

Record Interval : Type := {
  interval_start : Z;
  interval_end : Z
}.

Record DecodeArgs : Type := {
  sampling : Sampling;
  interval : Interval;
  stride : Z;
  gather_points : list Z;
  gather_sequences : list Interval;
  warmup_count : Z;
  start_keyframe : Z
}.

Record VideoMetadata : Type := {
  width : Z;
  height : Z
}.

Record EvaluatorConfig : Type := {
  device_ids : list Z
}.

(** ** The sampling loops (lines 89-132 of the source)

    Each one is the [for] loop of its branch; [valid_frames] is the vector
    being filled by [push_back]. *)

Section PlanLoops.

Local Open Scope result_scope.

(** [for (; s < interval.end(); ++s) valid_frames.push_back(s);] *)
Fixpoint push_range (fuel : nat) (s e : Z) (valid_frames : list Z)
  : result (list Z) :=
  match fuel with
  | O => Timeout
  | S fuel' =>
      if s <? e then
        s' <-- add_i32 s 1 ;;
        push_range fuel' s' e (valid_frames ++ [s])
      else Ok valid_frames
  end.

(** [for (; s < e; s += stride) valid_frames.push_back(s);] *)
Fixpoint push_strided (fuel : nat) (s e stride_ : Z) (valid_frames : list Z)
  : result (list Z) :=
  match fuel with
  | O => Timeout
  | S fuel' =>
      if s <? e then
        s' <-- add_i32 s stride_ ;;
        push_strided fuel' s' e stride_ (valid_frames ++ [s])
      else Ok valid_frames
  end.

(** [args.gather_points(s)]: reading outside the repeated field is
    undefined. *)
Definition gather_point (points : list Z) (s : Z) : result Z :=
  if s <? 0 then Undef
  else match nth_error points (Z.to_nat s) with
       | Some p => Ok p
       | None => Undef
       end.

(** [for (; s < args.gather_points_size(); ++s)
      valid_frames.push_back(args.gather_points(s));] *)
Fixpoint push_gather (fuel : nat) (points : list Z) (s : Z)
         (valid_frames : list Z) : result (list Z) :=
  match fuel with
  | O => Timeout
  | S fuel' =>
      if s <? Z.of_nat (length points) then
        p <-- gather_point points s ;;
        s' <-- add_i32 s 1 ;;
        push_gather fuel' points s' (valid_frames ++ [p])
      else Ok valid_frames
  end.
End PlanLoops.

(** ** Reading the packet buffer (lines 142-150)

    The encoded buffer is a [u8*] with its size; it is the list of its bytes
    here, and the size is the list's length. *)

Section Packets.

Local Open Scope result_scope.

(** [buf[i]]; a read outside the buffer is undefined. *)
Definition byte_at (buf : list byte) (i : Z) : result Z :=
  if i <? 0 then Undef
  else match nth_error buf (Z.to_nat i) with
       | Some b => Ok (Z.of_N (Byte.to_N b))
       | None => Undef
       end.

(** [*reinterpret_cast<const i32*>(buf + off)], on a little-endian host. *)
Definition read_i32 (buf : list byte) (off : Z) : result Z :=
  b0 <-- byte_at buf off ;;
  b1 <-- byte_at buf (off + 1) ;;
  b2 <-- byte_at buf (off + 2) ;;
  b3 <-- byte_at buf (off + 3) ;;
  Ok (cast_i32 (b0 + 256 * b1 + 65536 * b2 + 16777216 * b3)).

(** The packet handed to the decoder in one iteration of the decode loop:
    the pointer ([None] is [NULL], otherwise the bytes from the pointer on),
    [encoded_packet_size], and the new [encoded_buffer_offset]. *)
Definition next_packet (encoded_buffer : list byte) (encoded_buffer_offset : Z)
  : result (option (list byte) * Z * Z) :=
  let encoded_buffer_size := Z.of_nat (length encoded_buffer) in
  if encoded_buffer_offset <? encoded_buffer_size then
    encoded_packet_size <-- read_i32 encoded_buffer encoded_buffer_offset ;;
    let off1 := wrap_size_t (encoded_buffer_offset + 4) in
    let encoded_packet := skipn (Z.to_nat off1) encoded_buffer in
    let off2 := wrap_size_t (off1 + encoded_packet_size) in
    Ok (Some encoded_packet, encoded_packet_size, off2)
  else Ok (None, 0, encoded_buffer_offset).

End Packets.

(** ** The decoder interface ([VideoDecoder], consumed through [decoder_])

    [feed] answers whether new frames are available, [get_frame] writes a
    frame into the buffer it is given and answers whether more frames are
    pending, [discard_frame] drops one and answers the same. *)

Class VideoDecoder (VideoDecoderType D : Type) : Type := {
  make_from_config :
    DeviceType -> Z -> VideoDecoderType -> DeviceType -> option D;
  decoder_configure : VideoMetadata -> D -> D;
  feed : option (list byte) -> Z -> bool -> D -> bool * D;
  get_frame : Z -> D -> list byte * bool * D;
  discard_frame : D -> bool * D;
  decoded_frames_buffered : D -> Z;
  wait_until_frames_copied : D -> D
}.

(** What one [evaluate] call does that is visible from outside the loop
    variables: the calls on the decoder and the assignments to the two state
    flags, in program order.  [EvGetFrame] and [EvDiscardFrame] carry the
    value of [current_frame] at the call. *)
Inductive event : Type :=
| EvFeed (encoded_packet_size : Z) (discontinuity : bool)
| EvGetFrame (current_frame : Z)
| EvDiscardFrame (current_frame : Z)
| EvDrainFrame
| EvSetDiscontinuity (b : bool)
| EvSetNeedsWarmup (b : bool).

Section Engine.

Context {VideoDecoderType D : Type} `{VideoDecoder VideoDecoderType D}.

(** Compiled with [HAVE_CUDA] or not. *)
Variable HAVE_CUDA : bool.

(** [deserialize_decode_args], declared in
    [scanner/evaluators/serialize.h]: the decoding of the protobuf message,
    taken as given. *)
Variable deserialize_decode_args : list byte -> DecodeArgs.

(** The members of [DecoderEvaluator].  [metadata_] and [frame_size_] are
    not initialised by the constructor: [None] until [configure]. *)
Record DecoderEvaluator : Type := {
  device_type_ : DeviceType;
  device_id_ : Z;
  decoder_type_ : VideoDecoderType;
  needs_warmup_ : bool;
  discontinuity_ : bool;
  metadata_ : option VideoMetadata;
  frame_size_ : option Z;
  decoder_ : D
}.

Definition with_needs_warmup (b : bool) (e : DecoderEvaluator) : DecoderEvaluator :=
  {| device_type_ := device_type_ e; device_id_ := device_id_ e;
     decoder_type_ := decoder_type_ e;
     needs_warmup_ := b; discontinuity_ := discontinuity_ e;
     metadata_ := metadata_ e; frame_size_ := frame_size_ e;
     decoder_ := decoder_ e |}.

Definition with_discontinuity (b : bool) (e : DecoderEvaluator) : DecoderEvaluator :=
  {| device_type_ := device_type_ e; device_id_ := device_id_ e;
     decoder_type_ := decoder_type_ e;
     needs_warmup_ := needs_warmup_ e; discontinuity_ := b;
     metadata_ := metadata_ e; frame_size_ := frame_size_ e;
     decoder_ := decoder_ e |}.

Definition with_decoder (d : D) (e : DecoderEvaluator) : DecoderEvaluator :=
  {| device_type_ := device_type_ e; device_id_ := device_id_ e;
     decoder_type_ := decoder_type_ e;
     needs_warmup_ := needs_warmup_ e; discontinuity_ := discontinuity_ e;
     metadata_ := metadata_ e; frame_size_ := frame_size_ e;
     decoder_ := d |}.

(** *** Constructor, [configure], [reset] *)

(** [DecoderEvaluator::DecoderEvaluator] (lines 24-35). *)
Definition new_DecoderEvaluator (config : EvaluatorConfig)
  (device_type : DeviceType) (decoder_type : VideoDecoderType)
  : result DecoderEvaluator :=
  match device_ids config with
  | [] => Undef                              (* config.device_ids[0] *)
  | device_id :: _ =>
      match make_from_config device_type device_id decoder_type device_type with
      | None => Abort                        (* assert(decoder_.get()) *)
      | Some d =>
          Ok {| device_type_ := device_type; device_id_ := device_id;
                decoder_type_ := decoder_type;
                needs_warmup_ := false; discontinuity_ := false;
                metadata_ := None; frame_size_ := None;
                decoder_ := d |}
      end
  end.

(** [DecoderEvaluator::configure] (lines 37-41). *)
Definition configure (metadata : VideoMetadata) (e : DecoderEvaluator)
  : result DecoderEvaluator :=
  (wh <-- mul_i32 (width metadata) (height metadata) ;;
   fs <-- mul_i32 wh 3 ;;
   Ok {| device_type_ := device_type_ e; device_id_ := device_id_ e;
         decoder_type_ := decoder_type_ e;
         needs_warmup_ := needs_warmup_ e; discontinuity_ := discontinuity_ e;
         metadata_ := Some metadata;
         frame_size_ := Some (wrap_size_t fs);
         decoder_ := decoder_configure metadata (decoder_ e) |})%result.

(** [DecoderEvaluator::reset] (lines 43-46). *)
Definition reset (e : DecoderEvaluator) : DecoderEvaluator :=
  with_discontinuity true (with_needs_warmup true e).

(** *** The state of one [evaluate] call

    [self] is [*this]; [output_buffers] and [output_sizes] are the two
    reference parameters; the two counters are the locals reported to the
    profiler at the end; [trace] is the log of events. *)
Record Machine : Type := {
  self : DecoderEvaluator;
  output_buffers : list (list (list byte));
  output_sizes : list (list Z);
  total_frames_decoded : Z;
  total_frames_used : Z;
  trace : list event
}.

Definition M (A : Type) : Type := Machine -> result (A * Machine).

Definition ret {A : Type} (a : A) : M A := fun m => Ok (a, m).

Definition bind {A B : Type} (c : M A) (k : A -> M B) : M B :=
  fun m =>
    match c m with
    | Ok (a, m') => k a m'
    | Abort => Abort
    | Undef => Undef
    | Timeout => Timeout
    end.

Definition lift {A : Type} (r : result A) : M A :=
  fun m => rbind r (fun a => Ok (a, m)).

Definition get_self : M DecoderEvaluator := fun m => Ok (self m, m).

Definition set_self (e : DecoderEvaluator) : M unit :=
  fun m =>
    Ok (tt, {| self := e;
               output_buffers := output_buffers m;
               output_sizes := output_sizes m;
               total_frames_decoded := total_frames_decoded m;
               total_frames_used := total_frames_used m;
               trace := trace m |}).

Definition emit (ev : event) : M unit :=
  fun m =>
    Ok (tt, {| self := self m;
               output_buffers := output_buffers m;
               output_sizes := output_sizes m;
               total_frames_decoded := total_frames_decoded m;
               total_frames_used := total_frames_used m;
               trace := trace m ++ [ev] |}).

Notation "x <- c ;; k" := (bind c (fun x => k))
  (at level 61, c at next level, right associativity).
Notation "c ;;; k" := (bind c (fun _ => k))
  (at level 61, right associativity).

(** [discontinuity_ = b;] *)
Definition write_discontinuity (b : bool) : M unit :=
  e <- get_self ;;
  set_self (with_discontinuity b e) ;;;
  emit (EvSetDiscontinuity b).

(** [needs_warmup_ = b;] *)
Definition write_needs_warmup (b : bool) : M unit :=
  e <- get_self ;;
  set_self (with_needs_warmup b e) ;;;
  emit (EvSetNeedsWarmup b).

(** [total_frames_decoded++;] *)
Definition incr_decoded : M unit :=
  fun m =>
    rbind (incr_i64 (total_frames_decoded m)) (fun n =>
    Ok (tt, {| self := self m;
               output_buffers := output_buffers m;
               output_sizes := output_sizes m;
               total_frames_decoded := n;
               total_frames_used := total_frames_used m;
               trace := trace m |})).

(** [total_frames_used++;] *)
Definition incr_used : M unit :=
  fun m =>
    rbind (incr_i64 (total_frames_used m)) (fun n =>
    Ok (tt, {| self := self m;
               output_buffers := output_buffers m;
               output_sizes := output_sizes m;
               total_frames_decoded := total_frames_decoded m;
               total_frames_used := n;
               trace := trace m |})).

(** [v[0].push_back(x)]; [v[0]] of an empty vector is undefined. *)
Definition push_back0 {A : Type} (v : list (list A)) (x : A)
  : result (list (list A)) :=
  match v with
  | [] => Undef
  | col0 :: rest => Ok ((col0 ++ [x]) :: rest)
  end.

(** [output_buffers[0].push_back(decoded_buffer);
     output_sizes[0].push_back(frame_size_);] *)
Definition push_output (decoded_buffer : list byte) (size : Z) : M unit :=
  fun m =>
    rbind (push_back0 (output_buffers m) decoded_buffer) (fun ob =>
    rbind (push_back0 (output_sizes m) size) (fun os =>
    Ok (tt, {| self := self m;
               output_buffers := ob;
               output_sizes := os;
               total_frames_decoded := total_frames_decoded m;
               total_frames_used := total_frames_used m;
               trace := trace m |}))).

(** [decoder_->feed(encoded_packet, encoded_packet_size, discontinuity_)] *)
Definition call_feed (encoded_packet : option (list byte))
  (encoded_packet_size : Z) : M bool :=
  e <- get_self ;;
  let '(new_frames, d) :=
    feed encoded_packet encoded_packet_size (discontinuity_ e) (decoder_ e) in
  set_self (with_decoder d e) ;;;
  emit (EvFeed encoded_packet_size (discontinuity_ e)) ;;;
  ret new_frames.

(** Lines 157-163: a fresh buffer of [frame_size_] bytes is filled by
    [get_frame] and appended to the output; the answer is [more_frames]. *)
Definition keep_frame (current_frame : Z) : M bool :=
  e <- get_self ;;
  size <- lift (match frame_size_ e with Some n => Ok n | None => Undef end) ;;
  let '(decoded_buffer, more_frames, d) := get_frame size (decoder_ e) in
  set_self (with_decoder d e) ;;;
  emit (EvGetFrame current_frame) ;;;
  push_output decoded_buffer size ;;;
  incr_used ;;;
  ret more_frames.

(** Line 165: [more_frames = decoder_->discard_frame();] *)
Definition drop_frame (current_frame : Z) : M bool :=
  e <- get_self ;;
  let '(more_frames, d) := discard_frame (decoder_ e) in
  set_self (with_decoder d e) ;;;
  emit (EvDiscardFrame current_frame) ;;;
  ret more_frames.

(** *** The sampling plan (lines 89-132) *)

(** [valid_frames[valid_index]] *)
Definition valid_frame_at (valid_frames : list Z) (valid_index : Z) : result Z :=
  if valid_index <? 0 then Undef
  else match nth_error valid_frames (Z.to_nat valid_index) with
       | Some v => Ok v
       | None => Undef
       end.

Definition sampling_plan (fuel : nat) (args : DecodeArgs) : M (list Z) :=
  e <- get_self ;;
  match sampling args with
  | All =>
      let interval := interval args in
      s <- lift (if negb (needs_warmup_ e)
                 then add_i32 (interval_start interval) (warmup_count args)
                 else Ok (interval_start interval)) ;;
      lift (push_range fuel s (interval_end interval) [])
  | Strided =>
      let interval := interval args in
      s <- lift (if negb (needs_warmup_ e)
                 then (w <-- mul_i32 (warmup_count args) (stride args) ;;
                       add_i32 (interval_start interval) w)%result
                 else Ok (interval_start interval)) ;;
      lift (push_strided fuel s (interval_end interval) (stride args) [])
  | Gather =>
      s <- lift (if negb (needs_warmup_ e)
                 then add_i32 0 (warmup_count args)
                 else Ok 0) ;;
      valid_frames <- lift (push_gather fuel (gather_points args) s []) ;;
      write_discontinuity true ;;;
      ret valid_frames
  | SequenceGather =>
      match gather_sequences args with
      | [interval] =>
          s <- lift (if negb (needs_warmup_ e)
                     then add_i32 (interval_start interval) (warmup_count args)
                     else Ok (interval_start interval)) ;;
          valid_frames <- lift (push_range fuel s (interval_end interval) []) ;;
          write_discontinuity true ;;;
          ret valid_frames
      | _ => lift Abort          (* assert(args.gather_sequences_size() == 1) *)
      end
  | UnknownSampling _ => lift Abort   (* assert(false) *)
  end.

(** *** The decode loop (lines 139-174) *)

(** The inner loop, lines 155-169:
    [while (more_frames && valid_index < total_output_frames)].  It answers
    the values of [current_frame] and [valid_index] at its exit. *)
Fixpoint frames_loop (fuel : nat) (valid_frames : list Z)
  (total_output_frames : Z) (more_frames : bool)
  (current_frame valid_index : Z) : M (Z * Z) :=
  match fuel with
  | O => lift Timeout
  | S fuel' =>
      if more_frames && (valid_index <? total_output_frames) then
        v <- lift (valid_frame_at valid_frames valid_index) ;;
        if current_frame =? v then
          more <- keep_frame current_frame ;;
          valid_index' <- lift (add_i32 valid_index 1) ;;
          current_frame' <- lift (add_i32 current_frame 1) ;;
          incr_decoded ;;;
          frames_loop fuel' valid_frames total_output_frames more
                      current_frame' valid_index'
        else
          more <- drop_frame current_frame ;;
          current_frame' <- lift (add_i32 current_frame 1) ;;
          incr_decoded ;;;
          frames_loop fuel' valid_frames total_output_frames more
                      current_frame' valid_index
      else ret (current_frame, valid_index)
  end.

(** The outer loop, lines 139-174:
    [while (valid_index < total_output_frames)]. *)
Fixpoint decode_loop (fuel : nat) (encoded_buffer : list byte)
  (valid_frames : list Z) (total_output_frames : Z)
  (encoded_buffer_offset current_frame valid_index : Z) : M unit :=
  match fuel with
  | O => lift Timeout
  | S fuel' =>
      if valid_index <? total_output_frames then
        pkt <- lift (next_packet encoded_buffer encoded_buffer_offset) ;;
        let '(encoded_packet, encoded_packet_size, offset') := pkt in
        new_frames <- call_feed encoded_packet encoded_packet_size ;;
        pos <- (if new_frames
                then frames_loop fuel' valid_frames total_output_frames true
                                 current_frame valid_index
                else ret (current_frame, valid_index)) ;;
        write_discontinuity (encoded_packet_size =? 0) ;;;
        decode_loop fuel' encoded_buffer valid_frames total_output_frames
                    offset' (fst pos) (snd pos)
      else ret tt
  end.

(** [decoder_->discard_frame()] in the condition of the loop of line 179. *)
Definition drain_frame : M bool :=
  e <- get_self ;;
  let '(had_frame, d) := discard_frame (decoder_ e) in
  set_self (with_decoder d e) ;;;
  emit EvDrainFrame ;;;
  ret had_frame.

(** Lines 179-181: [while (decoder_->discard_frame()) total_frames_decoded++;] *)
Fixpoint drain_loop (fuel : nat) : M unit :=
  match fuel with
  | O => lift Timeout
  | S fuel' =>
      had_frame <- drain_frame ;;
      if had_frame then incr_decoded ;;; drain_loop fuel' else ret tt
  end.

(** Lines 176-182. *)
Definition drain (fuel : nat) : M unit :=
  e <- get_self ;;
  let d := wait_until_frames_copied (decoder_ e) in
  set_self (with_decoder d e) ;;;
  if 0 <? decoded_frames_buffered d then drain_loop fuel else ret tt.

(** *** [evaluate] (lines 48-197) *)

(** [v[c][i]] on a vector of vectors. *)
Definition at2 {A : Type} (v : list (list A)) (c i : nat) : result A :=
  match nth_error v c with
  | None => Undef
  | Some col => match nth_error col i with
                | None => Undef
                | Some x => Ok x
                end
  end.

(** Lines 65-87: the descriptor and the packet buffer of input [i], staged
    through host memory on a GPU.  Without [HAVE_CUDA] the GPU branch is
    empty and both are left uninitialised. *)
Definition stage_inputs (e : DecoderEvaluator)
  (decode_args_buffer in_encoded_buffer : list byte)
  : result (DecodeArgs * list byte) :=
  match device_type_ e with
  | GPU =>
      if HAVE_CUDA
      then Ok (deserialize_decode_args decode_args_buffer, in_encoded_buffer)
      else Undef
  | CPU => Ok (deserialize_decode_args decode_args_buffer, in_encoded_buffer)
  end.

(** Lines 89-189 of the loop body, from the deserialized descriptor on: the
    plan, the decode loop, the drain, and [needs_warmup_ = false]. *)
Definition process_item (fuel : nat) (args : DecodeArgs)
  (encoded_buffer : list byte) : M unit :=
  valid_frames <- sampling_plan fuel args ;;
  let total_output_frames := cast_i32 (Z.of_nat (length valid_frames)) in
  decode_loop fuel encoded_buffer valid_frames total_output_frames
              0 (start_keyframe args) 0 ;;;
  drain fuel ;;;
  write_needs_warmup false.

(** The body of the loop over the inputs (lines 59-189), for input [i].
    The entries of [input_sizes] are the lengths of the buffers of
    [input_buffers]. *)
Definition evaluate_item (fuel : nat) (input_buffers : list (list (list byte)))
  (i : nat) : M unit :=
  decode_args_buffer <- lift (at2 input_buffers 1 i) ;;
  in_encoded_buffer <- lift (at2 input_buffers 0 i) ;;
  e <- get_self ;;
  staged <- lift (stage_inputs e decode_args_buffer in_encoded_buffer) ;;
  process_item fuel (fst staged) (snd staged).

(** [for (size_t i = 0; i < num_inputs; ++i)] *)
Fixpoint for_inputs (body : nat -> M unit) (i : nat) (count : nat) : M unit :=
  match count with
  | O => ret tt
  | S count' => body i ;;; for_inputs body (S i) count'
  end.

Definition num_inputs (input_buffers : list (list (list byte))) : nat :=
  match input_buffers with
  | [] => 0%nat
  | col0 :: _ => length col0
  end.

(** The machine at the entry of [evaluate]: both counters are 0. *)
Definition enter (e : DecoderEvaluator)
  (output_buffers0 : list (list (list byte)))
  (output_sizes0 : list (list Z)) : Machine :=
  {| self := e;
     output_buffers := output_buffers0;
     output_sizes := output_sizes0;
     total_frames_decoded := 0;
     total_frames_used := 0;
     trace := [] |}.

(** [DecoderEvaluator::evaluate]: the engine, the inputs and the two output
    vectors go in; the final [Machine] holds the engine, the outputs and the
    two counters handed to the profiler. *)
Definition evaluate (fuel : nat) (e : DecoderEvaluator)
  (input_buffers : list (list (list byte)))
  (output_buffers0 : list (list (list byte)))
  (output_sizes0 : list (list Z)) : result Machine :=
  match for_inputs (evaluate_item fuel input_buffers) 0 (num_inputs input_buffers)
          (enter e output_buffers0 output_sizes0)
  with
  | Ok (_, m) => Ok m
  | Abort => Abort
  | Undef => Undef
  | Timeout => Timeout
  end.

(** *** The calls of the pipeline on one engine

    [configure], [reset] and [evaluate] are the members the pipeline calls
    on an engine between its construction and its destruction. *)
Inductive api_call : Type :=
| CallConfigure (metadata : VideoMetadata)
| CallReset
| CallEvaluate (fuel : nat) (input_buffers : list (list (list byte)))
               (output_buffers0 : list (list (list byte)))
               (output_sizes0 : list (list Z)).

Definition is_reset (c : api_call) : bool :=
  match c with CallReset => true | _ => false end.

Definition do_call (c : api_call) (e : DecoderEvaluator)
  : result DecoderEvaluator :=
  match c with
  | CallConfigure metadata => configure metadata e
  | CallReset => Ok (reset e)
  | CallEvaluate fuel ib ob os =>
      rbind (evaluate fuel e ib ob os) (fun m => Ok (self m))
  end.

Fixpoint do_calls (cs : list api_call) (e : DecoderEvaluator)
  : result DecoderEvaluator :=
  match cs with
  | [] => Ok e
  | c :: cs' => rbind (do_call c e) (do_calls cs')
  end.

End Engine.

Arguments DecoderEvaluator : clear implicits.
Arguments Machine : clear implicits.

(** ** Decoders and descriptors to run the engine on

    The decoders below are not code of the repository: they are two
    behaviours the interface allows (frames that come out at once, frames
    that come out at the flush), on which the engine is run in the examples. *)

Definition null {A : Type} (l : list A) : bool :=
  match l with [] => true | _ :: _ => false end.

(** A decoder in which every non-empty packet is one frame (its first
    [size] bytes), available as soon as it is fed.  The state is the queue of
    decoded frames. *)
Definition QueueDecoder : Type := list (list byte).

#[export] Instance queue_decoder : VideoDecoder unit QueueDecoder := {|
  make_from_config := fun _ _ _ _ => Some [];
  decoder_configure := fun _ q => q;
  feed := fun packet size _ q =>
    let q' := match packet with
              | Some p => if 0 <? size then q ++ [firstn (Z.to_nat size) p] else q
              | None => q
              end in
    (negb (null q'), q');
  get_frame := fun _ q =>
    match q with
    | f :: q' => (f, negb (null q'), q')
    | [] => ([], false, [])
    end;
  discard_frame := fun q =>
    match q with
    | _ :: q' => (negb (null q'), q')
    | [] => (false, [])
    end;
  decoded_frames_buffered := fun q => Z.of_nat (length q);
  wait_until_frames_copied := fun q => q
|}.

(** A decoder that holds every frame back until it is flushed by an empty
    packet.  The state is the frames held back and the frames released. *)
Record HoldingDecoder : Type := {
  held : list (list byte);
  released : list (list byte)
}.

#[export] Instance holding_decoder : VideoDecoder unit HoldingDecoder := {|
  make_from_config := fun _ _ _ _ => Some {| held := []; released := [] |};
  decoder_configure := fun _ d => d;
  feed := fun packet size _ d =>
    let d' :=
      if size =? 0
      then {| held := []; released := released d ++ held d |}
      else match packet with
           | Some p => {| held := held d ++ [firstn (Z.to_nat size) p];
                          released := released d |}
           | None => d
           end in
    (negb (null (released d')), d');
  get_frame := fun _ d =>
    match released d with
    | f :: r => (f, negb (null r), {| held := held d; released := r |})
    | [] => ([], false, d)
    end;
  discard_frame := fun d =>
    match released d with
    | _ :: r => (negb (null r), {| held := held d; released := r |})
    | [] => (false, d)
    end;
  decoded_frames_buffered := fun d => Z.of_nat (length (released d));
  wait_until_frames_copied := fun d => d
|}.

(** Descriptors. *)
Definition mk_all (s e w k : Z) : DecodeArgs :=
  {| sampling := All;
     interval := {| interval_start := s; interval_end := e |};
     stride := 0; gather_points := []; gather_sequences := [];
     warmup_count := w; start_keyframe := k |}.

Definition mk_strided (s e st w k : Z) : DecodeArgs :=
  {| sampling := Strided;
     interval := {| interval_start := s; interval_end := e |};
     stride := st; gather_points := []; gather_sequences := [];
     warmup_count := w; start_keyframe := k |}.

Definition mk_gather (points : list Z) (w k : Z) : DecodeArgs :=
  {| sampling := Gather;
     interval := {| interval_start := 0; interval_end := 0 |};
     stride := 0; gather_points := points; gather_sequences := [];
     warmup_count := w; start_keyframe := k |}.

Definition mk_sequence_gather (seqs : list (Z * Z)) (w k : Z) : DecodeArgs :=
  {| sampling := SequenceGather;
     interval := {| interval_start := 0; interval_end := 0 |};
     stride := 0; gather_points := [];
     gather_sequences :=
       map (fun p => {| interval_start := fst p; interval_end := snd p |}) seqs;
     warmup_count := w; start_keyframe := k |}.

(** A deserializer for the runs below: the first byte of the argument buffer
    selects a descriptor of a table. *)
Definition table_deserialize (table : list DecodeArgs) (buf : list byte)
  : DecodeArgs :=
  match buf with
  | b :: _ => nth (N.to_nat (Byte.to_N b)) table (mk_all 0 0 0 0)
  | [] => mk_all 0 0 0 0
  end.

(** One packet of the wire format: a 4-byte little-endian length and the
    payload (for payloads shorter than 256 bytes). *)
Definition packet1 (payload : list byte) : list byte :=
  match Byte.of_N (N.of_nat (length payload)) with
  | Some n => n :: x00 :: x00 :: x00 :: payload
  | None => []
  end.

(** An engine built by the constructor, configured for 1x1 frames. *)
Definition fresh_engine {D : Type} `{VideoDecoder unit D}
  : result (DecoderEvaluator unit D) :=
  (e <-- new_DecoderEvaluator {| device_ids := [0] |} CPU tt ;;
   configure {| width := 1; height := 1 |} e)%result.

(** The same after [reset]. *)
Definition reset_engine {D : Type} `{VideoDecoder unit D}
  : result (DecoderEvaluator unit D) :=
  (e <-- fresh_engine ;; Ok (reset e))%result.

(** [evaluate] on the result of a constructor call. *)
Definition evaluate_on {D : Type} `{VideoDecoder unit D}
  (fuel : nat) (table : list DecodeArgs) (r : result (DecoderEvaluator unit D))
  (input_buffers : list (list (list byte))) : result (Machine unit D) :=
  (e <-- r ;;
   evaluate false (table_deserialize table) fuel e input_buffers [[]] [[]])%result.

(** A configured engine around the decoder state [d], with the two flags
    as given, and the machine at the entry of [evaluate] on it, with one
    empty output channel. *)
Definition engine_of {D : Type} (d : D) (needs_warmup discontinuity : bool)
  : DecoderEvaluator unit D :=
  {| device_type_ := CPU; device_id_ := 0; decoder_type_ := tt;
     needs_warmup_ := needs_warmup; discontinuity_ := discontinuity;
     metadata_ := Some {| width := 1; height := 1 |};
     frame_size_ := Some 3;
     decoder_ := d |}.

Definition machine_of {D : Type} (d : D) (needs_warmup discontinuity : bool)
  : Machine unit D :=
  enter (engine_of d needs_warmup discontinuity) [[]] [[]].

(** What the constructor answers for a [QueueDecoder] on device 0. *)
Definition constructed_engine : DecoderEvaluator unit QueueDecoder :=
  {| device_type_ := CPU; device_id_ := 0; decoder_type_ := tt;
     needs_warmup_ := false; discontinuity_ := false;
     metadata_ := None; frame_size_ := None;
     decoder_ := [] |}.

Definition three_packets : list byte :=
  packet1 [x0a; x0a; x0a] ++ packet1 [x0b; x0b; x0b] ++ packet1 [x0c; x0c; x0c].

Definition summary {VDT D : Type} (r : result (Machine VDT D))
  : result (list (list (list byte)) * Z * Z * bool * bool) :=
  (m <-- r ;;
   Ok (output_buffers m, total_frames_decoded m, total_frames_used m,
       needs_warmup_ (self m), discontinuity_ (self m)))%result.

(** ** Reading plans and traces *)

(** [n] terms of the arithmetic sequence from [s] with step [step]. *)
Fixpoint arith_seq (s step : Z) (n : nat) : list Z :=
  match n with
  | O => []
  | S n' => s :: arith_seq (s + step) step n'
  end.

(** The indices of [[s, e)], in increasing order. *)
Definition index_range (s e : Z) : list Z := arith_seq s 1 (Z.to_nat (e - s)).

Fixpoint strictly_increasing (l : list Z) : bool :=
  match l with
  | x :: (y :: _) as t => (x <? y) && strictly_increasing t
  | _ => true
  end.

(** The modes whose branch of the plan assigns [discontinuity_ = true]. *)
Definition forces_discontinuity (s : Sampling) : bool :=
  match s with
  | Gather | SequenceGather => true
  | _ => false
  end.

Definition with_sampling (s : Sampling) (args : DecodeArgs) : DecodeArgs :=
  {| sampling := s; interval := interval args;
     stride := stride args; gather_points := gather_points args;
     gather_sequences := gather_sequences args;
     warmup_count := warmup_count args;
     start_keyframe := start_keyframe args |}.

Definition with_warmup_count (w : Z) (args : DecodeArgs) : DecodeArgs :=
  {| sampling := sampling args; interval := interval args;
     stride := stride args; gather_points := gather_points args;
     gather_sequences := gather_sequences args;
     warmup_count := w; start_keyframe := start_keyframe args |}.

(** The values of [current_frame] at the frames that were kept, in order. *)
Definition kept_frames (evs : list event) : list Z :=
  flat_map (fun ev => match ev with EvGetFrame cf => [cf] | _ => [] end) evs.

(** The sizes of the packets fed to the decoder, in order. *)
Definition feed_sizes (evs : list event) : list Z :=
  flat_map (fun ev => match ev with EvFeed n _ => [n] | _ => [] end) evs.

(** The flag each [feed] was given. *)
Definition feed_flags (evs : list event) : list bool :=
  flat_map (fun ev => match ev with EvFeed _ b => [b] | _ => [] end) evs.

(** The values assigned to [discontinuity_], in order. *)
Definition discontinuity_writes (evs : list event) : list bool :=
  flat_map (fun ev => match ev with EvSetDiscontinuity b => [b] | _ => [] end) evs.

(** The values assigned to [needs_warmup_], in order. *)
Definition needs_warmup_writes (evs : list event) : list bool :=
  flat_map (fun ev => match ev with EvSetNeedsWarmup b => [b] | _ => [] end) evs.

(** The size of the first column of a vector of vectors. *)
Definition column0_size {A : Type} (v : list (list A)) : nat :=
  match v with
  | [] => 0%nat
  | col0 :: _ => length col0
  end.

(** A run that has no outcome but [Timeout], whatever the fuel. *)
Definition never_returns {A : Type} (run : nat -> result A) : Prop :=
  forall fuel, run fuel = Timeout.

Section Effects.

Context {VideoDecoderType D : Type}.

(** The number of leading indices of a plan that are skipped. *)
Definition warmup_skip (m : Machine VideoDecoderType D) (args : DecodeArgs) : Z :=
  if needs_warmup_ (self m) then 0 else warmup_count args.

(** [effect m m' evs dd]: from [m] to [m'] the events [evs] were logged,
    [total_frames_decoded] grew by [dd], one output buffer and size were
    appended and [total_frames_used] was incremented per kept frame, and the
    two flags hold the last value assigned to them. *)
Definition effect (m m' : Machine VideoDecoderType D) (evs : list event) (dd : Z) : Prop :=
  trace m' = trace m ++ evs
  /\ total_frames_used m' =
       total_frames_used m + Z.of_nat (length (kept_frames evs))
  /\ total_frames_decoded m' = total_frames_decoded m + dd
  /\ column0_size (output_buffers m') =
       (column0_size (output_buffers m) + length (kept_frames evs))%nat
  /\ column0_size (output_sizes m') =
       (column0_size (output_sizes m) + length (kept_frames evs))%nat
  /\ needs_warmup_ (self m') =
       last (needs_warmup_writes evs) (needs_warmup_ (self m))
  /\ discontinuity_ (self m') =
       last (discontinuity_writes evs) (discontinuity_ (self m)).

(** Events of the loops that touch neither flag and feed nothing. *)
Definition quiet (evs : list event) : Prop :=
  needs_warmup_writes evs = [] /\ discontinuity_writes evs = []
  /\ feed_sizes evs = [] /\ feed_flags evs = [].

End Effects.

(** A run whose outcome, once it has one, no longer depends on the fuel. *)
Definition fuel_stable {A : Type} (run : nat -> result A) : Prop :=
  forall n n', (n <= n')%nat -> run n <> Timeout -> run n' = run n.

(** ** The wire format of the packet buffer

    The reading of lines 144-150 turned round: the bytes a buffer must hold
    for the decode loop to read a given list of packets. *)

(** The byte of value [z mod 256]. *)
Definition byte_of (z : Z) : byte :=
  match Byte.of_N (Z.to_N (z mod 256)) with
  | Some b => b
  | None => x00
  end.

(** The four bytes of an [i32], little-endian, two's complement. *)
Definition le32 (n : Z) : list byte :=
  let u := n mod 2 ^ 32 in
  [byte_of u; byte_of (u / 256); byte_of (u / 65536); byte_of (u / 16777216)].

(** One record: the length of the payload, then the payload. *)
Definition packet_record (payload : list byte) : list byte :=
  le32 (Z.of_nat (length payload)) ++ payload.

(** A buffer of records. *)
Definition encode_packets (packets : list (list byte)) : list byte :=
  concat (map packet_record packets).

(** The frames the decoder was asked for, kept or discarded, by the value of
    [current_frame] at the call, in order. *)
Definition seen_frames (evs : list event) : list Z :=
  flat_map (fun ev => match ev with
                      | EvGetFrame cf | EvDiscardFrame cf => [cf]
                      | _ => []
                      end) evs.

(** The number of [discard_frame] calls of the drain. *)
Definition drain_calls (evs : list event) : nat :=
  length (flat_map (fun ev => match ev with EvDrainFrame => [tt] | _ => [] end) evs).

(** ** Reading the outputs *)

(** [appended0 v v' new]: [v'] is [v] with [new] appended to its channel 0;
    the other channels are the same. *)
Inductive appended0 {A : Type}
  : list (list A) -> list (list A) -> list A -> Prop :=
| appended0_none v : appended0 v v []
| appended0_some col0 rest new :
    appended0 (col0 :: rest) ((col0 ++ new) :: rest) new.

Section Growth.

Context {VideoDecoderType D : Type}.

(** The members set by the constructor and by [configure]. *)
Definition same_configuration (e e' : DecoderEvaluator VideoDecoderType D) : Prop :=
  device_type_ e' = device_type_ e /\ device_id_ e' = device_id_ e
  /\ decoder_type_ e' = decoder_type_ e
  /\ metadata_ e' = metadata_ e /\ frame_size_ e' = frame_size_ e.

(** [grown m m' frames]: from [m] to [m'] the buffers [frames] were appended
    to channel 0 of the output, with one size per buffer, each the
    [frame_size_] of the engine, and the configuration is the same. *)
Definition grown (m m' : Machine VideoDecoderType D) (frames : list (list byte)) : Prop :=
  same_configuration (self m) (self m')
  /\ appended0 (output_buffers m) (output_buffers m') frames
  /\ match frame_size_ (self m) with
     | Some fs =>
         appended0 (output_sizes m) (output_sizes m')
                   (repeat fs (length frames))
     | None => frames = [] /\ output_sizes m' = output_sizes m
     end.

End Growth.

(** The descriptors on which the asserts of lines 120 and 131 fail. *)
Definition contract_violation (args : DecodeArgs) : bool :=
  match sampling args with
  | UnknownSampling _ => true
  | SequenceGather => negb (length (gather_sequences args) =? 1)%nat
  | _ => false
  end.

(** ** The factory ([DecoderEvaluatorFactory], lines 199-219) *)

Record EvaluatorCapabilities : Type := {
  device_type : DeviceType;
  max_devices : Z;
  warmup_size : Z;
  can_overlap : bool
}.

Module DecoderEvaluatorFactory.

Section Factory.

Context {VideoDecoderType D : Type} `{VideoDecoder VideoDecoderType D}.

(** The members of the factory. *)
Record t : Type := {
  device_type_ : DeviceType;
  decoder_type_ : VideoDecoderType
}.

(** [DecoderEvaluatorFactory::DecoderEvaluatorFactory] (lines 199-201). *)
Definition make (device_type : DeviceType) (decoder_type : VideoDecoderType) : t :=
  {| device_type_ := device_type; decoder_type_ := decoder_type |}.

(** [get_capabilities] (lines 203-210). *)
Definition get_capabilities (f : t) : EvaluatorCapabilities :=
  {| device_type := device_type_ f;
     max_devices := 1;
     warmup_size := 0;
     can_overlap := true |}.

(** [get_output_names] (lines 212-214). *)
Definition get_output_names (f : t) : list String.string :=
  ["frame"%string]%list.

(** [new_evaluator] (lines 216-219). *)
Definition new_evaluator (f : t) (config : EvaluatorConfig)
  : result (DecoderEvaluator VideoDecoderType D) :=
  new_DecoderEvaluator config (device_type_ f) (decoder_type_ f).

End Factory.

End DecoderEvaluatorFactory.

(** ** [SpinLock] ([src/lightscan/util/common.h], lines 40-49)

    The lock is one [std::atomic_flag].  All operations on one atomic object
    are totally ordered, and a read-modify-write reads the last value in
    that order, so the flag is a boolean changed by atomic steps. *)

Module SpinLock.

Record t : Type := { locked : bool }.

(** [std::atomic_flag locked = ATOMIC_FLAG_INIT]: clear. *)
Definition init : t := {| locked := false |}.

(** [locked.test_and_set(std::memory_order_acquire)]: the flag is set and its
    previous value is answered, in one step. *)
Definition test_and_set (l : t) : bool * t := (locked l, {| locked := true |}).

(** [locked.clear(std::memory_order_release)] *)
Definition clear (l : t) : t := {| locked := false |}.

(** [lock()] while no other thread runs:
    [while (locked.test_and_set(...)) { ; }] *)
Fixpoint lock (fuel : nat) (l : t) : result t :=
  match fuel with
  | O => Timeout
  | S fuel' =>
      let '(was_set, l') := test_and_set l in
      if was_set then lock fuel' l' else Ok l'
  end.

(** [unlock()] *)
Definition unlock (l : t) : t := clear l.

(** Threads on one lock.  A thread is outside of the lock's members, in the
    loop of [lock()], or between its return from [lock()] and its call of
    [unlock()]. *)
Inductive pc : Type := Outside | Spinning | Holding.

Record system : Type := {
  flag : t;
  threads : nat -> pc
}.

Definition upd (i : nat) (p : pc) (ts : nat -> pc) : nat -> pc :=
  fun j => if Nat.eqb j i then p else ts j.

Definition start : system := {| flag := init; threads := fun _ => Outside |}.

(** One atomic step of thread [i]: it enters [lock()], runs one
    [test_and_set] of the loop, leaving the loop when the answer is false,
    or runs [unlock()]. *)
Inductive step : system -> system -> Prop :=
| step_call_lock s i :
    threads s i = Outside ->
    step s {| flag := flag s; threads := upd i Spinning (threads s) |}
| step_test_and_set s i :
    threads s i = Spinning ->
    step s {| flag := snd (test_and_set (flag s));
              threads := upd i (if fst (test_and_set (flag s))
                                then Spinning else Holding) (threads s) |}
| step_unlock s i :
    threads s i = Holding ->
    step s {| flag := unlock (flag s); threads := upd i Outside (threads s) |}.

(** The states the system can be in. *)
Inductive reachable : system -> Prop :=
| reachable_start : reachable start
| reachable_step s s' : reachable s -> step s s' -> reachable s'.

(** Runs from one state to another. *)
Inductive steps : system -> system -> Prop :=
| steps_refl s : steps s s
| steps_cons s s1 s2 : step s s1 -> steps s1 s2 -> steps s s2.

End SpinLock.

(** ** A decoder contract: one frame per packet

    The behaviour of a decoder without reordering delay: every packet fed,
    the flush packet included, makes one frame available, the frame is gone
    once it is fetched or dropped, and nothing stays buffered. *)

Section Contract.

Context {VideoDecoderType D : Type} `{VideoDecoder VideoDecoderType D}.

Definition frame_per_feed : Prop :=
  (forall p n b (d : D), fst (feed p n b d) = true)
  /\ (forall size (d : D), snd (fst (get_frame size d)) = false)
  /\ (forall d : D, fst (discard_frame d) = false)
  /\ (forall d : D, decoded_frames_buffered (wait_until_frames_copied d) <= 0).

(** What [evaluate] needs of the engine and of the output vectors to store
    a frame: a frame size, and a channel 0 in both vectors. *)
Definition ready (m : Machine VideoDecoderType D) : Prop :=
  frame_size_ (self m) <> None
  /\ output_buffers m <> [] /\ output_sizes m <> [].

End Contract.

(** A decoder of that kind, for the runs below: it answers a frame of zeros
    to every packet. *)
Inductive EchoDecoder : Type := Echo.

Definition echo_decoder : VideoDecoder unit EchoDecoder := {|
  make_from_config := fun _ _ _ _ => Some Echo;
  decoder_configure := fun _ d => d;
  feed := fun _ _ _ d => (true, d);
  get_frame := fun size d => (repeat x00 (Z.to_nat size), false, d);
  discard_frame := fun d => (false, d);
  decoded_frames_buffered := fun _ => 0;
  wait_until_frames_copied := fun d => d
|}.


(** ** Facts about the sampling loops *)

Lemma rbind_Ok_inv {A B : Type} (r : result A) (k : A -> result B) (b : B) :
  rbind r k = Ok b -> exists a, r = Ok a /\ k a = Ok b.
Proof.
  destruct r; simpl; intros E; try discriminate. eauto.
Qed.

Lemma add_i32_Ok_inv a b c : add_i32 a b = Ok c -> c = a + b /\ in_i32 (a + b) = true.
Proof.
  unfold add_i32. destruct (in_i32 (a + b)); intros E; inversion E; auto.
Qed.

Lemma mul_i32_Ok_inv a b c : mul_i32 a b = Ok c -> c = a * b /\ in_i32 (a * b) = true.
Proof.
  unfold mul_i32. destruct (in_i32 (a * b)); intros E; inversion E; auto.
Qed.

Lemma in_i32_iff z : in_i32 z = true <-> min_i32 <= z <= max_i32.
Proof.
  unfold in_i32. rewrite andb_true_iff, !Z.leb_le. tauto.
Qed.

Lemma arith_seq_length s step n : length (arith_seq s step n) = n.
Proof.
  revert s. induction n; simpl; intros; auto.
Qed.

Lemma arith_seq_nth s step n k :
  (k < n)%nat -> nth_error (arith_seq s step n) k = Some (s + Z.of_nat k * step).
Proof.
  revert s k. induction n; intros s k Hk; [lia|].
  destruct k; cbn [arith_seq nth_error].
  - f_equal. lia.
  - rewrite IHn by lia. f_equal. lia.
Qed.

Lemma arith_seq_In s step n x :
  In x (arith_seq s step n) <-> exists k, (k < n)%nat /\ x = s + Z.of_nat k * step.
Proof.
  revert s. induction n; cbn [arith_seq In]; intros s.
  - split; [tauto | intros (k & Hk & _); lia].
  - rewrite IHn. split.
    + intros [E | (k & Hk & E)].
      * exists 0%nat. split; [lia | subst; lia].
      * exists (S k). split; [lia | subst; lia].
    + intros (k & Hk & E). destruct k.
      * left. subst. lia.
      * right. exists k. split; [lia | subst; lia].
Qed.

Lemma arith_seq_increasing s step n :
  0 < step -> strictly_increasing (arith_seq s step n) = true.
Proof.
  intros Hs. revert s. induction n; intros s; [reflexivity|].
  destruct n; [reflexivity|].
  change (((s <? s + step) && strictly_increasing (arith_seq (s + step) step (S n))) = true).
  rewrite andb_true_iff. split.
  - apply Z.ltb_lt. lia.
  - apply (IHn (s + step)).
Qed.

Lemma index_range_In s e x : In x (index_range s e) <-> s <= x < e.
Proof.
  unfold index_range. rewrite arith_seq_In. split.
  - intros (k & Hk & E). lia.
  - intros Hx. exists (Z.to_nat (x - s)). split; lia.
Qed.

(** What the strided loop has appended when it exits. *)
Lemma push_strided_Ok fuel : forall s e step vf r,
  push_strided fuel s e step vf = Ok r ->
  exists n, r = vf ++ arith_seq s step n
            /\ (forall k, (k < n)%nat -> s + Z.of_nat k * step < e)
            /\ e <= s + Z.of_nat n * step.
Proof.
  induction fuel as [|fuel IH]; simpl; intros s e step vf r E; [discriminate|].
  destruct (s <? e) eqn:Hlt.
  - apply rbind_Ok_inv in E. destruct E as (s' & Ha & E).
    apply add_i32_Ok_inv in Ha. destruct Ha as [-> _].
    apply IH in E. destruct E as (n & -> & Hin & Hout).
    exists (S n). cbn [arith_seq]. rewrite <- app_assoc. cbn [app].
    split; [reflexivity|].
    split.
    + intros k Hk. destruct k.
      * apply Z.ltb_lt in Hlt. lia.
      * specialize (Hin k ltac:(lia)). lia.
    + lia.
  - inversion E; subst. exists 0%nat. simpl. rewrite app_nil_r.
    apply Z.ltb_ge in Hlt. split; [reflexivity|]. split; [intros; lia | lia].
Qed.

(** The strided loop exits when the step is positive and no [s += stride]
    overflows. *)
Lemma push_strided_total fuel : forall s e step vf,
  0 < step -> min_i32 <= s -> e + step - 1 <= max_i32 ->
  (Z.to_nat (e - s) < fuel)%nat ->
  exists r, push_strided fuel s e step vf = Ok r.
Proof.
  induction fuel as [|fuel IH]; intros s e step vf Hs Hmin Hmax Hf; [lia|].
  simpl. destruct (s <? e) eqn:Hlt; [|eauto].
  apply Z.ltb_lt in Hlt. unfold add_i32.
  replace (in_i32 (s + step)) with true by (symmetry; apply in_i32_iff; lia).
  simpl. apply IH; lia.
Qed.

Lemma push_range_strided fuel : forall s e vf,
  push_range fuel s e vf = push_strided fuel s e 1 vf.
Proof.
  induction fuel as [|fuel IH]; simpl; intros; [reflexivity|].
  destruct (s <? e); [|reflexivity].
  destruct (add_i32 s 1); simpl; auto.
Qed.

(** What the loop of [All] and [SequenceGather] has appended at its exit. *)
Lemma push_range_Ok fuel s e vf r :
  push_range fuel s e vf = Ok r -> r = vf ++ index_range s e.
Proof.
  rewrite push_range_strided. intros E.
  apply push_strided_Ok in E. destruct E as (n & -> & Hin & Hout).
  f_equal. unfold index_range. f_equal.
  destruct n; [lia|]. specialize (Hin n ltac:(lia)). lia.
Qed.

Lemma push_range_total fuel s e vf :
  min_i32 <= s -> e <= max_i32 -> (Z.to_nat (e - s) < fuel)%nat ->
  push_range fuel s e vf = Ok (vf ++ index_range s e).
Proof.
  intros Hmin Hmax Hf.
  destruct (push_strided_total fuel s e 1 vf) as (r & E); try lia.
  rewrite <- push_range_strided in E. rewrite E.
  f_equal. eapply push_range_Ok; eauto.
Qed.

Lemma nth_error_skipn_cons {A : Type} (l : list A) : forall n x,
  nth_error l n = Some x -> skipn n l = x :: skipn (S n) l.
Proof.
  induction l as [|a l IH]; intros n x E; destruct n; simpl in *; try discriminate.
  - inversion E; reflexivity.
  - apply IH; assumption.
Qed.

(** What the gather loop has appended at its exit. *)
Lemma push_gather_Ok fuel : forall points s vf r,
  push_gather fuel points s vf = Ok r ->
  r = vf ++ skipn (Z.to_nat s) points.
Proof.
  induction fuel as [|fuel IH]; simpl; intros points s vf r E; [discriminate|].
  destruct (s <? Z.of_nat (length points)) eqn:Hlt.
  - apply rbind_Ok_inv in E. destruct E as (p & Hp & E).
    apply rbind_Ok_inv in E. destruct E as (s' & Ha & E).
    apply add_i32_Ok_inv in Ha. destruct Ha as [-> _].
    unfold gather_point in Hp.
    destruct (s <? 0) eqn:Hneg; [discriminate|].
    destruct (nth_error points (Z.to_nat s)) eqn:Hn; [|discriminate].
    inversion Hp; subst. apply Z.ltb_ge in Hneg.
    apply IH in E. subst r.
    replace (Z.to_nat (s + 1)) with (S (Z.to_nat s)) by lia.
    rewrite (nth_error_skipn_cons _ _ _ Hn), <- app_assoc. reflexivity.
  - inversion E; subst. apply Z.ltb_ge in Hlt.
    rewrite skipn_all2 by lia. rewrite app_nil_r. reflexivity.
Qed.

Lemma push_gather_total fuel : forall points s vf,
  0 <= s -> Z.of_nat (length points) <= max_i32 ->
  (length points - Z.to_nat s < fuel)%nat ->
  push_gather fuel points s vf = Ok (vf ++ skipn (Z.to_nat s) points).
Proof.
  induction fuel as [|fuel IH]; intros points s vf Hs Hmax Hf; [lia|].
  simpl. destruct (s <? Z.of_nat (length points)) eqn:Hlt.
  - apply Z.ltb_lt in Hlt. unfold gather_point.
    replace (s <? 0) with false by (symmetry; apply Z.ltb_ge; lia).
    destruct (nth_error points (Z.to_nat s)) eqn:Hn.
    + simpl. unfold add_i32.
      replace (in_i32 (s + 1)) with true
        by (symmetry; apply in_i32_iff; unfold min_i32, max_i32 in *; lia).
      simpl. rewrite IH by lia.
      replace (Z.to_nat (s + 1)) with (S (Z.to_nat s)) by lia.
      rewrite (nth_error_skipn_cons _ _ _ Hn), <- app_assoc. reflexivity.
    + apply nth_error_None in Hn. lia.
  - apply Z.ltb_ge in Hlt. rewrite skipn_all2 by lia.
    rewrite app_nil_r. reflexivity.
Qed.

(** The sampling loops are stable in the fuel. *)
Lemma push_strided_stable s e step vf :
  fuel_stable (fun fuel => push_strided fuel s e step vf).
Proof.
  intros n. revert s vf.
  induction n as [|n IH]; intros s vf n' Hle Hnt; [contradiction Hnt; reflexivity|].
  destruct n' as [|n']; [lia|].
  cbn [push_strided] in *.
  destruct (s <? e); [|reflexivity].
  destruct (add_i32 s step); simpl in *; try reflexivity.
  apply IH; [lia | assumption].
Qed.

Lemma push_range_stable s e vf :
  fuel_stable (fun fuel => push_range fuel s e vf).
Proof.
  intros n n' Hle. rewrite !push_range_strided.
  apply (push_strided_stable s e 1 vf); assumption.
Qed.

Lemma push_gather_stable points s vf :
  fuel_stable (fun fuel => push_gather fuel points s vf).
Proof.
  intros n. revert s vf.
  induction n as [|n IH]; intros s vf n' Hle Hnt; [contradiction Hnt; reflexivity|].
  destruct n' as [|n']; [lia|].
  cbn [push_gather] in *.
  destruct (s <? Z.of_nat (length points)); [|reflexivity].
  destruct (gather_point points s); simpl in *; try reflexivity.
  destruct (add_i32 s 1); simpl in *; try reflexivity.
  apply IH; [lia | assumption].
Qed.

(** ** Facts about the engine *)

Section EngineFacts.

Context {VideoDecoderType D : Type} `{VideoDecoder VideoDecoderType D}.

Variable HAVE_CUDA : bool.
Variable deserialize_decode_args : list byte -> DecodeArgs.

Local Abbreviation machine := (Machine VideoDecoderType D).

Lemma last_app_default {A : Type} (l1 l2 : list A) (d : A) :
  last (l1 ++ l2) d = last l2 (last l1 d).
Proof.
  induction l2 as [|x l2 _] using rev_ind.
  - rewrite app_nil_r. reflexivity.
  - rewrite app_assoc, !last_last. reflexivity.
Qed.

Lemma effect_refl (m : machine) : effect m m [] 0.
Proof.
  unfold effect. simpl. rewrite app_nil_r, !Nat.add_0_r. repeat split; lia.
Qed.

Lemma effect_trans (m m1 m2 : machine) evs1 evs2 d1 d2 :
  effect m m1 evs1 d1 -> effect m1 m2 evs2 d2 ->
  effect m m2 (evs1 ++ evs2) (d1 + d2).
Proof.
  unfold effect, kept_frames, needs_warmup_writes, discontinuity_writes.
  intros (T1 & U1 & D1 & B1 & S1 & W1 & C1) (T2 & U2 & D2 & B2 & S2 & W2 & C2).
  rewrite !flat_map_app, !length_app, !last_app_default.
  rewrite T2, T1, U2, U1, D2, D1, B2, B1, S2, S1, W2, W1, C2, C1, app_assoc.
  repeat split; lia.
Qed.

Lemma quiet_nil : quiet [].
Proof. repeat split. Qed.

Lemma quiet_app evs1 evs2 : quiet evs1 -> quiet evs2 -> quiet (evs1 ++ evs2).
Proof.
  unfold quiet, needs_warmup_writes, discontinuity_writes, feed_sizes, feed_flags.
  intros (A1 & B1 & C1 & D1) (A2 & B2 & C2 & D2).
  rewrite !flat_map_app, A1, B1, C1, D1, A2, B2, C2, D2. repeat split.
Qed.

(** *** Inversion of the monad *)

Lemma bind_Ok_inv {A B : Type} (c : M A) (k : A -> M B) (m : machine) b m' :
  bind c k m = Ok (b, m') ->
  exists a m1, c m = Ok (a, m1) /\ k a m1 = Ok (b, m').
Proof.
  unfold bind. destruct (c m) as [[a m1]| | |]; intros E; try discriminate.
  eauto.
Qed.

Lemma lift_Ok_inv {A : Type} (r : result A) (m : machine) a m' :
  lift r m = Ok (a, m') -> r = Ok a /\ m' = m.
Proof.
  unfold lift. destruct r; simpl; intros E; inversion E; auto.
Qed.

Lemma ret_Ok_inv {A : Type} (x : A) (m : machine) a m' :
  ret x m = Ok (a, m') -> a = x /\ m' = m.
Proof.
  unfold ret. intros E; inversion E; auto.
Qed.

(** *** The primitive steps *)

Lemma write_discontinuity_effect b (m : machine) u m' :
  write_discontinuity b m = Ok (u, m') -> effect m m' [EvSetDiscontinuity b] 0.
Proof.
  unfold write_discontinuity, bind, get_self, set_self, emit. intros E.
  inversion E; subst. unfold effect. simpl. repeat split; lia.
Qed.

Lemma write_needs_warmup_effect b (m : machine) u m' :
  write_needs_warmup b m = Ok (u, m') -> effect m m' [EvSetNeedsWarmup b] 0.
Proof.
  unfold write_needs_warmup, bind, get_self, set_self, emit. intros E.
  inversion E; subst. unfold effect. simpl. repeat split; lia.
Qed.

Lemma incr_decoded_effect (m : machine) u m' :
  incr_decoded m = Ok (u, m') -> effect m m' [] 1.
Proof.
  unfold incr_decoded, incr_i64. intros E.
  destruct (total_frames_decoded m <? max_i64); simpl in E; inversion E; subst.
  unfold effect. simpl. rewrite app_nil_r. repeat split; lia.
Qed.

Lemma call_feed_effect p n (m : machine) b m' :
  call_feed p n m = Ok (b, m') ->
  effect m m' [EvFeed n (discontinuity_ (self m))] 0
  /\ (b, decoder_ (self m')) = feed p n (discontinuity_ (self m)) (decoder_ (self m)).
Proof.
  unfold call_feed, bind, get_self. 
  destruct (feed p n (discontinuity_ (self m)) (decoder_ (self m))) as [nf d].
  unfold set_self, emit, ret. intros E.
  inversion E; subst. unfold effect. simpl. repeat split; lia.
Qed.

Lemma push_back0_size {A : Type} (v : list (list A)) x v' :
  push_back0 v x = Ok v' -> column0_size v' = S (column0_size v).
Proof.
  destruct v; simpl; intros E; inversion E; subst. simpl.
  rewrite length_app. simpl. lia.
Qed.

Lemma keep_frame_effect cf (m : machine) b m' :
  keep_frame cf m = Ok (b, m') -> effect m m' [EvGetFrame cf] 0.
Proof.
  unfold keep_frame. intros E.
  apply bind_Ok_inv in E. destruct E as (e & m1 & E1 & E).
  unfold get_self in E1. inversion E1; subst; clear E1.
  apply bind_Ok_inv in E. destruct E as (size & m2 & E2 & E).
  apply lift_Ok_inv in E2. destruct E2 as [_ ->].
  destruct (get_frame size (decoder_ (self m1))) as [[buf more] d].
  unfold bind, set_self, emit, push_output, incr_used, ret in E. simpl in E.
  destruct (push_back0 (output_buffers m1) buf) as [ob| | |] eqn:Eb;
    simpl in E; try discriminate.
  destruct (push_back0 (output_sizes m1) size) as [os| | |] eqn:Es;
    simpl in E; try discriminate.
  unfold incr_i64 in E. simpl in E.
  destruct (total_frames_used m1 <? max_i64); simpl in E; inversion E; subst.
  apply push_back0_size in Eb, Es.
  unfold effect. simpl. rewrite Eb, Es. repeat split; lia.
Qed.

Lemma drop_frame_effect cf (m : machine) b m' :
  drop_frame cf m = Ok (b, m') -> effect m m' [EvDiscardFrame cf] 0.
Proof.
  unfold drop_frame, bind, get_self.
  destruct (discard_frame (decoder_ (self m))) as [more d].
  unfold set_self, emit, ret. intros E.
  inversion E; subst. unfold effect. simpl.
  rewrite !Nat.add_0_r. repeat split; lia.
Qed.

(** *** The loops *)

Lemma firstn_S_nth {A : Type} (l : list A) : forall n x,
  nth_error l n = Some x -> firstn (S n) l = firstn n l ++ [x].
Proof.
  induction l as [|a l IH]; intros n x E; destruct n; simpl in *; try discriminate.
  - inversion E; reflexivity.
  - f_equal. apply IH; assumption.
Qed.

Lemma valid_frame_at_Ok vf vi v :
  valid_frame_at vf vi = Ok v ->
  0 <= vi /\ nth_error vf (Z.to_nat vi) = Some v.
Proof.
  unfold valid_frame_at. destruct (vi <? 0) eqn:Hneg; [discriminate|].
  apply Z.ltb_ge in Hneg.
  destruct (nth_error vf (Z.to_nat vi)); intros E; inversion E; auto.
Qed.

(** The inner loop keeps the frames of the plan from [valid_index] on, in
    order, and counts every frame it keeps as decoded. *)
Lemma frames_loop_Ok fuel : forall vf total more cf vi (m : machine) cf' vi' m',
  frames_loop fuel vf total more cf vi m = Ok ((cf', vi'), m') ->
  0 <= vi ->
  exists evs dd,
    effect m m' evs dd /\ quiet evs
    /\ Z.of_nat (length (kept_frames evs)) <= dd
    /\ vi <= vi' /\ (vi <= total -> vi' <= total)
    /\ firstn (Z.to_nat vi) vf ++ kept_frames evs = firstn (Z.to_nat vi') vf.
Proof.
  induction fuel as [|fuel IH]; intros vf total more cf vi m cf' vi' m' E Hvi;
    [discriminate|].
  cbn [frames_loop] in E.
  destruct (more && (vi <? total)) eqn:C.
  - apply andb_true_iff in C. destruct C as [_ C]. apply Z.ltb_lt in C.
    apply bind_Ok_inv in E. destruct E as (v & m1 & Ev & E).
    apply lift_Ok_inv in Ev. destruct Ev as [Ev ->].
    apply valid_frame_at_Ok in Ev. destruct Ev as [_ Ev].
    destruct (cf =? v) eqn:Hcf.
    + apply Z.eqb_eq in Hcf. subst v.
      apply bind_Ok_inv in E. destruct E as (more1 & m2 & Ek & E).
      apply keep_frame_effect in Ek.
      apply bind_Ok_inv in E. destruct E as (vi1 & m3 & Ea & E).
      apply lift_Ok_inv in Ea. destruct Ea as [Ea ->].
      apply add_i32_Ok_inv in Ea. destruct Ea as [-> _].
      apply bind_Ok_inv in E. destruct E as (cf1 & m3 & Ea & E).
      apply lift_Ok_inv in Ea. destruct Ea as [Ea ->].
      apply bind_Ok_inv in E. destruct E as (u & m4 & Ei & E).
      apply incr_decoded_effect in Ei.
      apply IH in E; [|lia].
      destruct E as (evs & dd & He & Hq & Hk & Hle & Htot & Hpre).
      exists (([EvGetFrame cf] ++ []) ++ evs), (0 + 1 + dd).
      split; [eauto using effect_trans|].
      split; [apply quiet_app; [repeat split | assumption]|].
      cbn [app kept_frames flat_map length]. fold (kept_frames evs).
      split; [lia|]. split; [lia|]. split; [lia|].
      rewrite <- Hpre.
      replace (Z.to_nat (vi + 1)) with (S (Z.to_nat vi)) by lia.
      rewrite (firstn_S_nth _ _ _ Ev), <- app_assoc. reflexivity.
    + apply bind_Ok_inv in E. destruct E as (more1 & m2 & Ek & E).
      apply drop_frame_effect in Ek.
      apply bind_Ok_inv in E. destruct E as (cf1 & m3 & Ea & E).
      apply lift_Ok_inv in Ea. destruct Ea as [Ea ->].
      apply bind_Ok_inv in E. destruct E as (u & m4 & Ei & E).
      apply incr_decoded_effect in Ei.
      apply IH in E; [|lia].
      destruct E as (evs & dd & He & Hq & Hk & Hle & Htot & Hpre).
      exists (([EvDiscardFrame cf] ++ []) ++ evs), (0 + 1 + dd).
      split; [eauto using effect_trans|].
      split; [apply quiet_app; [repeat split | assumption]|].
      cbn [app kept_frames flat_map length]. fold (kept_frames evs).
      repeat split; try lia. assumption.
  - apply ret_Ok_inv in E. destruct E as [E ->]. inversion E; subst.
    exists [], 0. split; [apply effect_refl|]. split; [apply quiet_nil|].
    simpl. rewrite app_nil_r. repeat split; lia.
Qed.

Lemma kept_frames_app evs1 evs2 :
  kept_frames (evs1 ++ evs2) = kept_frames evs1 ++ kept_frames evs2.
Proof. apply flat_map_app. Qed.

Lemma feed_sizes_app evs1 evs2 :
  feed_sizes (evs1 ++ evs2) = feed_sizes evs1 ++ feed_sizes evs2.
Proof. apply flat_map_app. Qed.

Lemma feed_flags_app evs1 evs2 :
  feed_flags (evs1 ++ evs2) = feed_flags evs1 ++ feed_flags evs2.
Proof. apply flat_map_app. Qed.

Lemma discontinuity_writes_app evs1 evs2 :
  discontinuity_writes (evs1 ++ evs2)
  = discontinuity_writes evs1 ++ discontinuity_writes evs2.
Proof. apply flat_map_app. Qed.

Lemma needs_warmup_writes_app evs1 evs2 :
  needs_warmup_writes (evs1 ++ evs2)
  = needs_warmup_writes evs1 ++ needs_warmup_writes evs2.
Proof. apply flat_map_app. Qed.

(** The outer loop: [discontinuity_] is assigned once per packet fed, to
    whether that packet was empty; each [feed] is given the value assigned
    after the previous one (the value at entry for the first); and at the
    exit the plan has been kept from [valid_index] to its end, in order. *)
Lemma decode_loop_Ok fuel : forall enc vf total off cf vi (m : machine) u m',
  decode_loop fuel enc vf total off cf vi m = Ok (u, m') ->
  0 <= vi ->
  exists evs dd,
    effect m m' evs dd
    /\ needs_warmup_writes evs = []
    /\ discontinuity_writes evs = map (fun n => n =? 0) (feed_sizes evs)
    /\ feed_flags evs =
         firstn (length (feed_sizes evs))
                (discontinuity_ (self m) :: discontinuity_writes evs)
    /\ Z.of_nat (length (kept_frames evs)) <= dd
    /\ (vi < total ->
         firstn (Z.to_nat vi) vf ++ kept_frames evs = firstn (Z.to_nat total) vf)
    /\ (total <= vi -> evs = []).
Proof.
  induction fuel as [|fuel IH]; intros enc vf total off cf vi m u m' E Hvi;
    [discriminate|].
  cbn [decode_loop] in E.
  destruct (vi <? total) eqn:C.
  - apply Z.ltb_lt in C.
    apply bind_Ok_inv in E. destruct E as (pkt & m1 & Ep & E).
    apply lift_Ok_inv in Ep. destruct Ep as [_ ->].
    destruct pkt as [[p n] off'].
    apply bind_Ok_inv in E. destruct E as (nf & m2 & Ef & E).
    apply call_feed_effect in Ef. destruct Ef as [Ef _].
    apply bind_Ok_inv in E. destruct E as (pos & m3 & El & E).
    assert (exists evs1 dd1,
               effect m2 m3 evs1 dd1 /\ quiet evs1
               /\ Z.of_nat (length (kept_frames evs1)) <= dd1
               /\ vi <= snd pos <= total
               /\ firstn (Z.to_nat vi) vf ++ kept_frames evs1
                  = firstn (Z.to_nat (snd pos)) vf) as Hin.
    { destruct nf.
      - destruct pos as [cf1 vi1].
        apply frames_loop_Ok in El; [|assumption].
        destruct El as (evs1 & dd1 & He & Hq & Hk & Hle & Htot & Hpre).
        exists evs1, dd1. cbn [snd].
        split; [exact He|]. split; [exact Hq|]. split; [lia|].
        split; [lia|]. exact Hpre.
      - apply ret_Ok_inv in El. destruct El as [-> ->].
        exists [], 0. cbn [snd kept_frames flat_map length]. rewrite app_nil_r.
        split; [apply effect_refl|]. split; [apply quiet_nil|].
        split; [lia|]. split; [lia|]. reflexivity. }
    destruct Hin as (evs1 & dd1 & He1 & Hq1 & Hk1 & Hpos & Hpre1).
    destruct Hq1 as (Qw & Qd & Qs & Qf).
    apply bind_Ok_inv in E. destruct E as (u1 & m4 & Ew & E).
    apply write_discontinuity_effect in Ew.
    assert (discontinuity_ (self m4) = (n =? 0)) as Hd4
      by (destruct Ew as (_ & _ & _ & _ & _ & _ & Hd); exact Hd).
    apply IH in E; [|lia].
    destruct E as (evs2 & dd2 & He2 & Hw2 & Hd2 & Hf2 & Hk2 & Hlt2 & Hge2).
    exists ((([EvFeed n (discontinuity_ (self m))] ++ evs1)
             ++ [EvSetDiscontinuity (n =? 0)]) ++ evs2),
           (0 + dd1 + 0 + dd2).
    split; [eauto using effect_trans|].
    rewrite !needs_warmup_writes_app, !discontinuity_writes_app,
            !feed_sizes_app, !feed_flags_app, !kept_frames_app.
    rewrite Qw, Qd, Qs, Qf, Hw2, Hd2, Hf2, Hd4, Hd2. simpl.
    split; [reflexivity|]. split; [reflexivity|]. split; [reflexivity|].
    rewrite app_nil_r.
    split; [rewrite length_app; lia|].
    split; [|intros; lia].
    intros _. destruct (Z.lt_ge_cases (snd pos) total) as [Hlt | Hge].
    + rewrite app_assoc, Hpre1. apply Hlt2; assumption.
    + rewrite (Hge2 Hge). simpl. rewrite app_nil_r, Hpre1.
      replace (snd pos) with total by lia. reflexivity.
  - apply Z.ltb_ge in C.
    apply ret_Ok_inv in E. destruct E as [_ ->].
    exists [], 0. split; [apply effect_refl|]. simpl.
    repeat split; auto; lia.
Qed.

Lemma drain_frame_effect (m : machine) b m' :
  drain_frame m = Ok (b, m') -> effect m m' [EvDrainFrame] 0.
Proof.
  unfold drain_frame, bind, get_self.
  destruct (discard_frame (decoder_ (self m))) as [had d].
  unfold set_self, emit, ret. intros E.
  inversion E; subst. unfold effect. simpl.
  rewrite !Nat.add_0_r. repeat split; lia.
Qed.

Lemma drain_loop_Ok fuel : forall (m : machine) u m',
  drain_loop fuel m = Ok (u, m') ->
  exists evs dd,
    effect m m' evs dd /\ quiet evs /\ kept_frames evs = [] /\ 0 <= dd.
Proof.
  induction fuel as [|fuel IH]; intros m u m' E; [discriminate|].
  cbn [drain_loop] in E.
  apply bind_Ok_inv in E. destruct E as (had & m1 & Ed & E).
  apply drain_frame_effect in Ed.
  destruct had.
  - apply bind_Ok_inv in E. destruct E as (u1 & m2 & Ei & E).
    apply incr_decoded_effect in Ei.
    apply IH in E. destruct E as (evs & dd & He & Hq & Hk & Hdd).
    exists (([EvDrainFrame] ++ []) ++ evs), (0 + 1 + dd).
    split; [eauto using effect_trans|].
    split; [apply quiet_app; [repeat split | assumption]|].
    rewrite kept_frames_app, Hk. split; [reflexivity | lia].
  - apply ret_Ok_inv in E. destruct E as [_ ->].
    exists [EvDrainFrame], 0.
    split; [assumption|]. split; [repeat split|]. split; [reflexivity | lia].
Qed.

Lemma drain_Ok fuel (m : machine) u m' :
  drain fuel m = Ok (u, m') ->
  exists evs dd,
    effect m m' evs dd /\ quiet evs /\ kept_frames evs = [] /\ 0 <= dd.
Proof.
  unfold drain. intros E.
  apply bind_Ok_inv in E. destruct E as (e & m1 & Eg & E).
  unfold get_self in Eg. inversion Eg; subst; clear Eg.
  apply bind_Ok_inv in E. destruct E as (u1 & m2 & Es & E).
  assert (effect m1 m2 [] 0) as He1.
  { unfold set_self in Es. inversion Es; subst.
    unfold effect. simpl. rewrite app_nil_r, !Nat.add_0_r. repeat split; lia. }
  destruct (0 <? decoded_frames_buffered (wait_until_frames_copied (decoder_ (self m1)))).
  - apply drain_loop_Ok in E. destruct E as (evs & dd & He & Hq & Hk & Hdd).
    exists ([] ++ evs), (0 + dd). split; [eauto using effect_trans|].
    simpl. repeat split; try apply Hq; auto; lia.
  - apply ret_Ok_inv in E. destruct E as [_ ->].
    exists [], 0. split; [assumption|]. split; [apply quiet_nil|].
    split; [reflexivity | lia].
Qed.

(** *** The sampling plan *)

Lemma warmup_start_Ok (nw : bool) a w s :
  (if negb nw then add_i32 a w else Ok a) = Ok s ->
  s = a + (if nw then 0 else w).
Proof.
  destruct nw; simpl; intros E.
  - inversion E. lia.
  - apply add_i32_Ok_inv in E. tauto.
Qed.

(** What the plan of a descriptor is when its computation ends, mode by
    mode, and what the computation does to the engine. *)
Lemma sampling_plan_Ok fuel args (m : machine) vf m' :
  sampling_plan fuel args m = Ok (vf, m') ->
  effect m m'
    (if forces_discontinuity (sampling args)
     then [EvSetDiscontinuity true] else []) 0
  /\ (forces_discontinuity (sampling args) = false -> m' = m)
  /\ match sampling args with
     | All =>
         vf = index_range (interval_start (interval args) + warmup_skip m args)
                          (interval_end (interval args))
     | Strided =>
         exists n,
           vf = arith_seq (interval_start (interval args)
                           + warmup_skip m args * stride args)
                          (stride args) n
           /\ (forall k, (k < n)%nat ->
                 interval_start (interval args)
                 + warmup_skip m args * stride args
                 + Z.of_nat k * stride args < interval_end (interval args))
           /\ interval_end (interval args)
              <= interval_start (interval args)
                 + warmup_skip m args * stride args
                 + Z.of_nat n * stride args
     | Gather =>
         vf = skipn (Z.to_nat (warmup_skip m args)) (gather_points args)
     | SequenceGather =>
         exists iv,
           gather_sequences args = [iv]
           /\ vf = index_range (interval_start iv + warmup_skip m args)
                               (interval_end iv)
     | UnknownSampling _ => False
     end.
Proof.
  unfold sampling_plan, warmup_skip. intros E.
  apply bind_Ok_inv in E. destruct E as (e & m1 & Eg & E).
  unfold get_self in Eg. inversion Eg; subst; clear Eg.
  destruct (sampling args) eqn:Hs; simpl.
  - apply bind_Ok_inv in E. destruct E as (s & m2 & Ea & E).
    apply lift_Ok_inv in Ea. destruct Ea as [Ea ->].
    apply lift_Ok_inv in E. destruct E as [E ->].
    apply warmup_start_Ok in Ea. subst s.
    apply push_range_Ok in E. simpl in E.
    split; [apply effect_refl|]. split; [reflexivity | assumption].
  - apply bind_Ok_inv in E. destruct E as (s & m2 & Ea & E).
    apply lift_Ok_inv in Ea. destruct Ea as [Ea ->].
    apply lift_Ok_inv in E. destruct E as [E ->].
    assert (s = interval_start (interval args)
                + (if needs_warmup_ (self m1) then 0 else warmup_count args)
                  * stride args) as ->.
    { destruct (needs_warmup_ (self m1)); simpl in Ea.
      - inversion Ea. lia.
      - apply rbind_Ok_inv in Ea. destruct Ea as (w & Ew & Ea).
        apply mul_i32_Ok_inv in Ew. destruct Ew as [-> _].
        apply add_i32_Ok_inv in Ea. tauto. }
    apply push_strided_Ok in E. destruct E as (n & -> & Hin & Hout).
    split; [apply effect_refl|]. split; [reflexivity|].
    exists n. simpl. auto.
  - apply bind_Ok_inv in E. destruct E as (s & m2 & Ea & E).
    apply lift_Ok_inv in Ea. destruct Ea as [Ea ->].
    apply bind_Ok_inv in E. destruct E as (r & m2 & Ep & E).
    apply lift_Ok_inv in Ep. destruct Ep as [Ep ->].
    apply bind_Ok_inv in E. destruct E as (u & m2 & Ew & E).
    apply ret_Ok_inv in E. destruct E as [-> ->].
    apply write_discontinuity_effect in Ew.
    apply warmup_start_Ok in Ea. subst s.
    apply push_gather_Ok in Ep. simpl in Ep.
    split; [assumption|]. split; [discriminate | assumption].
  - destruct (gather_sequences args) as [|iv [|iv' rest]] eqn:Hg.
    + apply lift_Ok_inv in E. destruct E as [E _]. discriminate.
    + apply bind_Ok_inv in E. destruct E as (s & m2 & Ea & E).
      apply lift_Ok_inv in Ea. destruct Ea as [Ea ->].
      apply bind_Ok_inv in E. destruct E as (r & m2 & Ep & E).
      apply lift_Ok_inv in Ep. destruct Ep as [Ep ->].
      apply bind_Ok_inv in E. destruct E as (u & m2 & Ew & E).
      apply ret_Ok_inv in E. destruct E as [-> ->].
      apply write_discontinuity_effect in Ew.
      apply warmup_start_Ok in Ea. subst s.
      apply push_range_Ok in Ep. simpl in Ep.
      split; [assumption|]. split; [discriminate|].
      exists iv. auto.
    + apply lift_Ok_inv in E. destruct E as [E _]. discriminate.
  - apply lift_Ok_inv in E. destruct E as [E _]. discriminate.
Qed.

(** *** One input, and the whole call *)

Lemma cast_i32_small z : 0 <= z <= max_i32 -> cast_i32 z = z.
Proof.
  unfold cast_i32, max_i32. intros Hz.
  rewrite Z.mod_small by lia.
  replace (z <? 2 ^ 31) with true by (symmetry; apply Z.ltb_lt; lia).
  reflexivity.
Qed.

(** Everything the processing of one input does, when it ends. *)
Lemma process_item_Ok fuel args enc (m : machine) u m' :
  process_item fuel args enc m = Ok (u, m') ->
  exists vf m1 evs dd,
    sampling_plan fuel args m = Ok (vf, m1)
    /\ effect m m' evs dd
    /\ needs_warmup_writes evs = [false]
    /\ discontinuity_writes evs =
         (if forces_discontinuity (sampling args) then [true] else [])
         ++ map (fun n => n =? 0) (feed_sizes evs)
    /\ feed_flags evs =
         firstn (length (feed_sizes evs))
                ((discontinuity_ (self m) || forces_discontinuity (sampling args))
                 :: map (fun n => n =? 0) (feed_sizes evs))
    /\ Z.of_nat (length (kept_frames evs)) <= dd
    /\ kept_frames evs =
         firstn (Z.to_nat (cast_i32 (Z.of_nat (length vf)))) vf.
Proof.
  unfold process_item. intros E.
  apply bind_Ok_inv in E. destruct E as (vf & m1 & Ep & E).
  apply bind_Ok_inv in E. destruct E as (u1 & m2 & El & E).
  apply bind_Ok_inv in E. destruct E as (u2 & m3 & Ed & E).
  exists vf, m1.
  pose proof (sampling_plan_Ok _ _ _ _ _ Ep) as (He0 & Hsame & _).
  apply decode_loop_Ok in El; [|lia].
  destruct El as (evs1 & dd1 & He1 & Hw1 & Hd1 & Hf1 & Hk1 & Hlt1 & Hge1).
  apply drain_Ok in Ed. destruct Ed as (evs2 & dd2 & He2 & Hq2 & Hk2 & Hdd2).
  destruct Hq2 as (Qw & Qd & Qs & Qf).
  apply write_needs_warmup_effect in E.
  assert (discontinuity_ (self m1)
          = discontinuity_ (self m) || forces_discontinuity (sampling args)) as Hd0.
  { destruct He0 as (_ & _ & _ & _ & _ & _ & Hd). rewrite Hd.
    destruct (forces_discontinuity (sampling args)); simpl.
    - rewrite orb_true_r. reflexivity.
    - rewrite orb_false_r. reflexivity. }
  eexists _, _. split; [exact Ep|].
  split; [exact (effect_trans _ _ _ _ _ _ _
                   (effect_trans _ _ _ _ _ _ _
                      (effect_trans _ _ _ _ _ _ _ He0 He1) He2) E)|].
  rewrite !needs_warmup_writes_app, !discontinuity_writes_app,
          !feed_sizes_app, !feed_flags_app, !kept_frames_app.
  rewrite Hw1, Qw, Qd, Qs, Qf, Hk2, Hf1, Hd1, Hd0.
  destruct (forces_discontinuity (sampling args));
    cbn [needs_warmup_writes discontinuity_writes feed_sizes feed_flags
         kept_frames flat_map app length];
    rewrite ?app_nil_r.
  all: split; [reflexivity|]; split; [reflexivity|]; split; [reflexivity|].
  all: split; [lia|].
  all: destruct (Z.lt_ge_cases 0 (cast_i32 (Z.of_nat (length vf)))) as [Hpos|Hneg];
    [ rewrite <- (Hlt1 Hpos); reflexivity
    | rewrite (Hge1 Hneg); replace (Z.to_nat (cast_i32 (Z.of_nat (length vf))))
                             with 0%nat by lia; reflexivity ].
Qed.

Lemma evaluate_item_Ok fuel ib i (m : machine) u m' :
  evaluate_item HAVE_CUDA deserialize_decode_args fuel ib i m = Ok (u, m') ->
  exists args enc, process_item fuel args enc m = Ok (u, m').
Proof.
  unfold evaluate_item. intros E.
  apply bind_Ok_inv in E. destruct E as (ab & m1 & Ea & E).
  apply lift_Ok_inv in Ea. destruct Ea as [_ ->].
  apply bind_Ok_inv in E. destruct E as (eb & m1 & Ea & E).
  apply lift_Ok_inv in Ea. destruct Ea as [_ ->].
  apply bind_Ok_inv in E. destruct E as (e & m1 & Ea & E).
  unfold get_self in Ea. inversion Ea; subst; clear Ea.
  apply bind_Ok_inv in E. destruct E as (st & m2 & Ea & E).
  apply lift_Ok_inv in Ea. destruct Ea as [_ ->].
  eauto.
Qed.

(** The loop over the inputs: every input processed appends as many buffers
    as it counts used frames and decodes at least as many, and any input
    processed leaves [needs_warmup_] false. *)
Lemma for_inputs_Ok fuel ib count : forall i (m : machine) u m',
  for_inputs (evaluate_item HAVE_CUDA deserialize_decode_args fuel ib) i count m
  = Ok (u, m') ->
  exists evs dd,
    effect m m' evs dd
    /\ Z.of_nat (length (kept_frames evs)) <= dd
    /\ (count = 0%nat -> m' = m)
    /\ (count <> 0%nat -> needs_warmup_ (self m') = false)
    /\ Forall (fun b => b = false) (needs_warmup_writes evs).
Proof.
  induction count as [|count IH]; intros i m u m' E.
  - apply ret_Ok_inv in E. destruct E as [_ ->].
    exists [], 0. split; [apply effect_refl|]. simpl.
    split; [lia|]. split; [reflexivity|]. split; [congruence | constructor].
  - cbn [for_inputs] in E.
    apply bind_Ok_inv in E. destruct E as (u1 & m1 & Ei & E).
    apply evaluate_item_Ok in Ei. destruct Ei as (args & enc & Ei).
    apply process_item_Ok in Ei.
    destruct Ei as (vf & m0 & evs1 & dd1 & _ & He1 & Hw1 & _ & _ & Hk1 & _).
    apply IH in E. destruct E as (evs2 & dd2 & He2 & Hk2 & Hz & Hnz & Hall).
    exists (evs1 ++ evs2), (dd1 + dd2).
    split; [eauto using effect_trans|].
    rewrite kept_frames_app, length_app, needs_warmup_writes_app, Hw1.
    split; [lia|]. split; [discriminate|]. split.
    + intros _. destruct count.
      * rewrite (Hz eq_refl).
        destruct He1 as (_ & _ & _ & _ & _ & Hw & _). rewrite Hw, Hw1.
        reflexivity.
      * apply Hnz. discriminate.
    + constructor; [reflexivity | assumption].
Qed.

Lemma evaluate_Ok fuel e ib ob os (m' : machine) :
  evaluate HAVE_CUDA deserialize_decode_args fuel e ib ob os = Ok m' ->
  exists evs dd,
    effect (enter e ob os) m' evs dd
    /\ Z.of_nat (length (kept_frames evs)) <= dd
    /\ (num_inputs ib = 0%nat -> m' = enter e ob os)
    /\ (num_inputs ib <> 0%nat -> needs_warmup_ (self m') = false)
    /\ Forall (fun b => b = false) (needs_warmup_writes evs).
Proof.
  unfold evaluate. intros E.
  destruct (for_inputs _ 0 (num_inputs ib) (enter e ob os))
    as [[u m1]| | |] eqn:Ef; try discriminate.
  inversion E; subst. eapply for_inputs_Ok; eauto.
Qed.

Lemma last_all_false (l : list bool) :
  Forall (fun b => b = false) l -> last l false = false.
Proof.
  induction 1 as [|b l Hb _ IH]; [reflexivity|].
  subst b. destruct l; [reflexivity | exact IH].
Qed.

(** [evaluate] never sets [needs_warmup_]. *)
Lemma evaluate_stays_warm fuel e ib ob os (m' : machine) :
  evaluate HAVE_CUDA deserialize_decode_args fuel e ib ob os = Ok m' ->
  needs_warmup_ e = false -> needs_warmup_ (self m') = false.
Proof.
  intros E Hw. apply evaluate_Ok in E.
  destruct E as (evs & dd & He & _ & _ & _ & Hall).
  destruct He as (_ & _ & _ & _ & _ & Hnw & _).
  rewrite Hnw. simpl. rewrite Hw. apply last_all_false. assumption.
Qed.

Lemma configure_flags md (e e' : DecoderEvaluator VideoDecoderType D) :
  configure md e = Ok e' ->
  needs_warmup_ e' = needs_warmup_ e /\ discontinuity_ e' = discontinuity_ e.
Proof.
  unfold configure. intros E.
  apply rbind_Ok_inv in E. destruct E as (wh & _ & E).
  apply rbind_Ok_inv in E. destruct E as (fs & _ & E).
  inversion E; subst. simpl. auto.
Qed.

Lemma do_call_stays_warm c (e e' : DecoderEvaluator VideoDecoderType D) :
  do_call HAVE_CUDA deserialize_decode_args c e = Ok e' ->
  is_reset c = false ->
  needs_warmup_ e = false -> needs_warmup_ e' = false.
Proof.
  destruct c as [md| |fuel ib ob os]; simpl; intros E Hr Hw; try discriminate.
  - apply configure_flags in E. destruct E as [-> _]. assumption.
  - apply rbind_Ok_inv in E. destruct E as (m' & E & Em).
    inversion Em; subst. eapply evaluate_stays_warm; eauto.
Qed.

Lemma do_calls_stay_warm cs : forall (e e' : DecoderEvaluator VideoDecoderType D),
  do_calls HAVE_CUDA deserialize_decode_args cs e = Ok e' ->
  forallb (fun c => negb (is_reset c)) cs = true ->
  needs_warmup_ e = false -> needs_warmup_ e' = false.
Proof.
  induction cs as [|c cs IH]; simpl; intros e e' E Hr Hw.
  - inversion E; subst. assumption.
  - apply andb_true_iff in Hr. destruct Hr as [Hc Hr].
    apply negb_true_iff in Hc.
    apply rbind_Ok_inv in E. destruct E as (e1 & E1 & E).
    eapply IH; eauto using do_call_stays_warm.
Qed.

(** *** The claims on the flags *)

(** C10: a call of [evaluate] with an empty input set ([input_buffers] empty,
    or its first channel empty) returns, whatever the fuel; it appends
    nothing to the output buffers and sizes, counts no frame and leaves the
    engine, [needs_warmup_] and [discontinuity_] included, as it was: it is
    not the invocation that clears [needs_warmup_]. *)
Theorem evaluate_empty_input fuel (e : DecoderEvaluator VideoDecoderType D)
  ib ob os :
  ib = [] \/ (exists rest, ib = [] :: rest) ->
  exists m',
    evaluate HAVE_CUDA deserialize_decode_args fuel e ib ob os = Ok m'
    /\ output_buffers m' = ob /\ output_sizes m' = os
    /\ self m' = e
    /\ needs_warmup_ (self m') = needs_warmup_ e
    /\ discontinuity_ (self m') = discontinuity_ e
    /\ total_frames_used m' = 0 /\ total_frames_decoded m' = 0
    /\ trace m' = [].
Proof.
  intros Hib. exists (enter e ob os).
  assert (num_inputs ib = 0%nat) as Hn
    by (destruct Hib as [-> | (rest & ->)]; reflexivity).
  unfold evaluate. rewrite Hn. simpl. repeat split.
Qed.

Lemma process_item_warms fuel args enc (m : machine) u m' :
  process_item fuel args enc m = Ok (u, m') -> needs_warmup_ (self m') = false.
Proof.
  intros E. apply process_item_Ok in E.
  destruct E as (vf & m1 & evs & dd & _ & He & Hw & _).
  destruct He as (_ & _ & _ & _ & _ & Hnw & _). rewrite Hnw, Hw. reflexivity.
Qed.

Lemma only_reset_cools c (e1 e2 : DecoderEvaluator VideoDecoderType D) :
  do_call HAVE_CUDA deserialize_decode_args c e1 = Ok e2 ->
  needs_warmup_ e1 = false -> needs_warmup_ e2 = true ->
  c = CallReset.
Proof.
  intros Ec H1 H2. destruct (is_reset c) eqn:Hr.
  - destruct c; try discriminate. reflexivity.
  - pose proof (do_call_stays_warm _ _ _ Ec Hr H1). congruence.
Qed.

(** C7: after one successful invocation (the processing of one input by
    [evaluate]) [needs_warmup_] is false, and so it is at the end of every
    [evaluate] call that processed an input; it then stays false across any
    further calls of [evaluate] and [configure]; a call that turns it from
    false to true is [reset], which sets both [needs_warmup_] and
    [discontinuity_] to true. *)
Theorem warmup_idempotence fuel args enc (m : machine) u m' :
  process_item fuel args enc m = Ok (u, m') ->
  needs_warmup_ (self m') = false
  /\ (forall fuel' e ib ob os mc,
        evaluate HAVE_CUDA deserialize_decode_args fuel' e ib ob os = Ok mc ->
        (num_inputs ib <> 0%nat -> needs_warmup_ (self mc) = false)
        /\ (needs_warmup_ e = false -> needs_warmup_ (self mc) = false))
  /\ (forall cs e',
        forallb (fun c => negb (is_reset c)) cs = true ->
        do_calls HAVE_CUDA deserialize_decode_args cs (self m') = Ok e' ->
        needs_warmup_ e' = false)
  /\ (forall c e1 e2,
        do_call HAVE_CUDA deserialize_decode_args c e1 = Ok e2 ->
        needs_warmup_ e1 = false -> needs_warmup_ e2 = true ->
        c = CallReset)
  /\ (forall e1 : DecoderEvaluator VideoDecoderType D,
        needs_warmup_ (reset e1) = true /\ discontinuity_ (reset e1) = true).
Proof.
  intros E. pose proof (process_item_warms _ _ _ _ _ _ E) as Hw.
  split; [assumption|]. split; [|split; [|split]].
  - intros fuel' e ib ob os mc Ec. split.
    + apply evaluate_Ok in Ec.
      destruct Ec as (evs & dd & _ & _ & _ & Hnz & _). exact Hnz.
    + intros He. eapply evaluate_stays_warm; eauto.
  - intros cs e' Hr Ec. eapply do_calls_stay_warm; eauto.
  - intros c e1 e2. apply only_reset_cools.
  - intros e1. split; reflexivity.
Qed.

(** *** The claims on the sampling plan *)

Lemma sampling_plan_All_total fuel args (m : machine) :
  sampling args = All ->
  in_i32 (interval_start (interval args) + warmup_skip m args) = true ->
  interval_end (interval args) <= max_i32 ->
  (Z.to_nat (interval_end (interval args)
             - (interval_start (interval args) + warmup_skip m args)) < fuel)%nat ->
  sampling_plan fuel args m
  = Ok (index_range (interval_start (interval args) + warmup_skip m args)
                    (interval_end (interval args)), m).
Proof.
  unfold sampling_plan, warmup_skip, bind, get_self, lift. intros Hs Hin Hmax Hf.
  rewrite Hs. apply in_i32_iff in Hin.
  destruct (needs_warmup_ (self m)); simpl.
  - rewrite Z.add_0_r in *. rewrite push_range_total by lia. reflexivity.
  - unfold add_i32.
    replace (in_i32 _) with true by (symmetry; apply in_i32_iff; lia).
    simpl. rewrite push_range_total by lia. reflexivity.
Qed.

Lemma index_range_increasing s e : strictly_increasing (index_range s e) = true.
Proof. apply arith_seq_increasing. lia. Qed.

(** C2: for an [All] descriptor the plan, once computed, is exactly the
    indices of [[start + skip, end)] in increasing order, where [skip] is 0
    when [needs_warmup_] is true and [warmup_count] when it is false, and
    the engine (its [discontinuity_] flag included) is left as it was.  The
    plan is computed, with enough fuel, whenever [start + skip] and [end]
    fit in an [i32]. *)
Theorem all_mode_range fuel args (m : machine) :
  sampling args = All ->
  let s0 := interval_start (interval args)
            + (if needs_warmup_ (self m) then 0 else warmup_count args) in
  let e := interval_end (interval args) in
  (forall vf m',
     sampling_plan fuel args m = Ok (vf, m') ->
     vf = index_range s0 e /\ m' = m)
  /\ (in_i32 s0 = true -> e <= max_i32 -> (Z.to_nat (e - s0) < fuel)%nat ->
      sampling_plan fuel args m = Ok (index_range s0 e, m))
  /\ (forall x, In x (index_range s0 e) <-> s0 <= x < e)
  /\ strictly_increasing (index_range s0 e) = true.
Proof.
  intros Hs s0 e. split; [|split; [|split]].
  - intros vf m' E. apply sampling_plan_Ok in E.
    destruct E as (_ & Hsame & Hvf). rewrite Hs in Hsame, Hvf.
    split; [exact Hvf | apply Hsame; reflexivity].
  - intros Hin Hmax Hf. apply sampling_plan_All_total; assumption.
  - intros x. apply index_range_In.
  - apply index_range_increasing.
Qed.

Lemma sampling_plan_Strided_total fuel args (m : machine) :
  sampling args = Strided ->
  0 < stride args ->
  (needs_warmup_ (self m) = false ->
   in_i32 (warmup_count args * stride args) = true) ->
  in_i32 (interval_start (interval args)
          + warmup_skip m args * stride args) = true ->
  interval_end (interval args) + stride args - 1 <= max_i32 ->
  (Z.to_nat (interval_end (interval args)
             - (interval_start (interval args)
                + warmup_skip m args * stride args)) < fuel)%nat ->
  exists vf, sampling_plan fuel args m = Ok (vf, m).
Proof.
  unfold sampling_plan, warmup_skip, bind, get_self, lift.
  intros Hs Hst Hw Hin Hmax Hf.
  rewrite Hs. apply in_i32_iff in Hin.
  destruct (needs_warmup_ (self m)); simpl.
  - rewrite Z.mul_0_l, Z.add_0_r in *.
    destruct (push_strided_total fuel (interval_start (interval args))
                (interval_end (interval args)) (stride args) [])
      as (r & ->); try lia.
    simpl. eauto.
  - unfold mul_i32. rewrite (Hw eq_refl). simpl. unfold add_i32.
    replace (in_i32 _) with true by (symmetry; apply in_i32_iff; lia).
    simpl.
    destruct (push_strided_total fuel
                (interval_start (interval args)
                 + warmup_count args * stride args)
                (interval_end (interval args)) (stride args) [])
      as (r & ->); try lia.
    simpl. eauto.
Qed.

(** C3: for a [Strided] descriptor the plan, once computed, is the
    arithmetic sequence that starts at [start] when [needs_warmup_] is true
    and at [start + warmup_count * stride] when it is false, steps by
    [stride], has every element below [end] and stops at the first term that
    is not; the engine is left as it was.  The plan is computed, with enough
    fuel, when [stride] is positive and no [i32] operation overflows. *)
Theorem strided_spacing fuel args (m : machine) :
  sampling args = Strided ->
  let s0 := interval_start (interval args)
            + (if needs_warmup_ (self m) then 0 else warmup_count args)
              * stride args in
  let e := interval_end (interval args) in
  (forall vf m',
     sampling_plan fuel args m = Ok (vf, m') ->
     vf = arith_seq s0 (stride args) (length vf)
     /\ Forall (fun x => x < e) vf
     /\ e <= s0 + Z.of_nat (length vf) * stride args
     /\ m' = m)
  /\ (0 < stride args ->
      (needs_warmup_ (self m) = false ->
       in_i32 (warmup_count args * stride args) = true) ->
      in_i32 s0 = true -> e + stride args - 1 <= max_i32 ->
      (Z.to_nat (e - s0) < fuel)%nat ->
      exists vf, sampling_plan fuel args m = Ok (vf, m)).
Proof.
  intros Hs s0 e. split.
  - intros vf m' E. apply sampling_plan_Ok in E.
    destruct E as (_ & Hsame & Hvf). rewrite Hs in Hsame, Hvf.
    destruct Hvf as (n & Hvf & Hin & Hout).
    assert (length vf = n) as Hlen by (rewrite Hvf; apply arith_seq_length).
    rewrite Hlen. split; [exact Hvf|]. split; [|split].
    + apply Forall_forall. intros x Hx. rewrite Hvf in Hx.
      apply arith_seq_In in Hx. destruct Hx as (k & Hk & ->).
      apply Hin; assumption.
    + exact Hout.
    + apply Hsame; reflexivity.
  - intros Hst Hw Hin Hmax Hf.
    apply sampling_plan_Strided_total; assumption.
Qed.

(** C4: computing the plan of a [Gather] or [SequenceGather] descriptor
    leaves [discontinuity_] true whatever it was, and the first packet fed
    while the input is processed is fed with the flag true; computing the
    plan of an [All] or [Strided] descriptor leaves the engine, and so the
    flag, unchanged. *)
Theorem gather_forces_discontinuity fuel args (m : machine) vf m' :
  sampling_plan fuel args m = Ok (vf, m') ->
  (sampling args = Gather \/ sampling args = SequenceGather ->
   discontinuity_ (self m') = true
   /\ forall enc u m2,
        process_item fuel args enc m = Ok (u, m2) ->
        exists evs, trace m2 = trace m ++ evs
                    /\ (feed_flags evs = []
                        \/ exists rest, feed_flags evs = true :: rest))
  /\ (sampling args = All \/ sampling args = Strided ->
      m' = m /\ discontinuity_ (self m') = discontinuity_ (self m)).
Proof.
  intros E. apply sampling_plan_Ok in E. destruct E as (He & Hsame & _).
  split.
  - intros Hg.
    assert (forces_discontinuity (sampling args) = true) as Hf
      by (destruct Hg as [-> | ->]; reflexivity).
    rewrite Hf in He. split.
    + destruct He as (_ & _ & _ & _ & _ & _ & Hd). exact Hd.
    + intros enc u m2 Ep. apply process_item_Ok in Ep.
      destruct Ep as (vf' & m1 & evs & dd & _ & Hev & _ & _ & Hff & _).
      exists evs. split; [apply Hev|].
      rewrite Hf, orb_true_r in Hff. rewrite Hff.
      destruct (length (feed_sizes evs)); simpl; eauto.
  - intros Ha.
    assert (m' = m) as -> by (apply Hsame; destruct Ha as [-> | ->]; reflexivity).
    auto.
Qed.

(** *** The claims on the decode loop *)


(** The frames kept while one input is processed are the plan, in order,
    when the plan has at most [max_i32] frames. *)
Lemma process_item_keeps_plan fuel args enc (m : machine) u m' vf m1 :
  process_item fuel args enc m = Ok (u, m') ->
  sampling_plan fuel args m = Ok (vf, m1) ->
  Z.of_nat (length vf) <= max_i32 ->
  exists evs dd,
    effect m m' evs dd /\ kept_frames evs = vf
    /\ Z.of_nat (length vf) <= dd.
Proof.
  intros E Ep Hlen. apply process_item_Ok in E.
  destruct E as (vf' & m1' & evs & dd & Ep' & He & _ & _ & _ & Hk & Hkept).
  rewrite Ep in Ep'. inversion Ep'; subst vf' m1'.
  rewrite cast_i32_small, Nat2Z.id, firstn_all in Hkept by lia.
  exists evs, dd. rewrite Hkept in Hk. auto.
Qed.


(** C9, amended: while one input is processed, [needs_warmup_] is assigned
    exactly once, to false; [discontinuity_] is assigned true by the plan of
    a [Gather] or [SequenceGather] descriptor and then once after every
    packet fed, to whether that packet was empty, so as many times as
    packets were fed; every [feed] is given the value of the latest
    assignment.  At the end each flag holds the last value assigned to it. *)
Theorem flag_updates fuel args enc (m : machine) u m' :
  process_item fuel args enc m = Ok (u, m') ->
  exists evs,
    trace m' = trace m ++ evs
    /\ needs_warmup_writes evs = [false]
    /\ needs_warmup_ (self m') = false
    /\ discontinuity_writes evs =
         (if forces_discontinuity (sampling args) then [true] else [])
         ++ map (fun n => n =? 0) (feed_sizes evs)
    /\ feed_flags evs =
         firstn (length (feed_sizes evs))
                ((discontinuity_ (self m) || forces_discontinuity (sampling args))
                 :: map (fun n => n =? 0) (feed_sizes evs))
    /\ discontinuity_ (self m') =
         last (discontinuity_writes evs) (discontinuity_ (self m)).
Proof.
  intros E. apply process_item_Ok in E.
  destruct E as (vf & m1 & evs & dd & _ & He & Hw & Hd & Hf & _).
  destruct He as (Ht & _ & _ & _ & _ & Hnw & Hdisc).
  exists evs. rewrite Hw in Hnw. auto 10.
Qed.

(** C1, amended: the constructor leaves [needs_warmup_] (and
    [discontinuity_]) false; [needs_warmup_] is true after [reset] and stays
    true through [configure] and through [evaluate] calls without input,
    until an input has been processed; no call but [reset] turns it true.
    While it is true the plan does not read [warmup_count], and the plan of
    an [All] descriptor is [[start, end)]; while it is false, as on the
    first call of an engine that was never reset, that plan is
    [[start + warmup_count, end)]. *)
Theorem warmup_flag_lifecycle cfg dt vdt (e : DecoderEvaluator VideoDecoderType D) :
  new_DecoderEvaluator cfg dt vdt = Ok e ->
  needs_warmup_ e = false /\ discontinuity_ e = false
  /\ needs_warmup_ (reset e) = true
  /\ (forall md e', configure md (reset e) = Ok e' -> needs_warmup_ e' = true)
  /\ (forall fuel ib ob os m',
        num_inputs ib = 0%nat ->
        evaluate HAVE_CUDA deserialize_decode_args fuel (reset e) ib ob os = Ok m' ->
        needs_warmup_ (self m') = true)
  /\ (forall fuel args (m : machine) w,
        needs_warmup_ (self m) = true ->
        sampling_plan fuel (with_warmup_count w args) m
        = sampling_plan fuel args m)
  /\ (forall fuel args (m : machine) vf m',
        needs_warmup_ (self m) = true -> sampling args = All ->
        sampling_plan fuel args m = Ok (vf, m') ->
        vf = index_range (interval_start (interval args))
                         (interval_end (interval args)))
  /\ (forall fuel args (m : machine) vf m',
        needs_warmup_ (self m) = false -> sampling args = All ->
        sampling_plan fuel args m = Ok (vf, m') ->
        vf = index_range (interval_start (interval args) + warmup_count args)
                         (interval_end (interval args)))
  /\ (forall fuel args enc (m : machine) u m',
        process_item fuel args enc m = Ok (u, m') ->
        needs_warmup_ (self m') = false)
  /\ (forall c e1 e2,
        do_call HAVE_CUDA deserialize_decode_args c e1 = Ok e2 ->
        needs_warmup_ e1 = false -> needs_warmup_ e2 = true ->
        c = CallReset).
Proof.
  intros E.
  assert (needs_warmup_ e = false /\ discontinuity_ e = false) as [Hw Hd].
  { unfold new_DecoderEvaluator in E.
    destruct (device_ids cfg); [discriminate|].
    destruct (make_from_config dt z vdt dt); [|discriminate].
    inversion E; subst. simpl. auto. }
  split; [exact Hw|]. split; [exact Hd|]. split; [reflexivity|].
  split; [|split; [|split; [|split; [|split; [|split]]]]].
  - intros md e' Ec. apply configure_flags in Ec. destruct Ec as [-> _].
    reflexivity.
  - intros fuel ib ob os m' Hn Ee. apply evaluate_Ok in Ee.
    destruct Ee as (_ & _ & _ & _ & Hz & _). rewrite (Hz Hn). reflexivity.
  - intros fuel args m w Hnw.
    unfold sampling_plan, bind, get_self. rewrite Hnw.
    destruct args as [s iv st gp gs wc sk]. simpl. reflexivity.
  - intros fuel args m vf m' Hnw Hs Ep. apply sampling_plan_Ok in Ep.
    destruct Ep as (_ & _ & Hvf). rewrite Hs in Hvf.
    unfold warmup_skip in Hvf. rewrite Hnw, Z.add_0_r in Hvf. exact Hvf.
  - intros fuel args m vf m' Hnw Hs Ep. apply sampling_plan_Ok in Ep.
    destruct Ep as (_ & _ & Hvf). rewrite Hs in Hvf.
    unfold warmup_skip in Hvf. rewrite Hnw in Hvf. exact Hvf.
  - intros fuel args enc m u m'. apply process_item_warms.
  - intros c e1 e2. apply only_reset_cools.
Qed.

(** *** The fuel

    Once a run has an outcome, more fuel gives the same outcome. *)

Lemma bind_stable {A B : Type} (c c' : M A) (k k' : A -> M B) (m : machine) :
  (c m <> Timeout -> c' m = c m) ->
  (forall a m1, c m = Ok (a, m1) -> k a m1 <> Timeout -> k' a m1 = k a m1) ->
  bind c k m <> Timeout -> bind c' k' m = bind c k m.
Proof.
  unfold bind. intros Hc Hk Hnt.
  destruct (c m) as [[a m1]| | |] eqn:E.
  - rewrite Hc by discriminate. apply Hk; [reflexivity | assumption].
  - rewrite Hc by discriminate. reflexivity.
  - rewrite Hc by discriminate. reflexivity.
  - contradiction Hnt. reflexivity.
Qed.

Lemma lift_stable {A : Type} (r r' : result A) (m : machine) :
  (r <> Timeout -> r' = r) -> lift r m <> Timeout -> lift r' m = lift r m.
Proof.
  unfold lift. intros Hr Hnt.
  destruct r; simpl in *; try (rewrite Hr by discriminate; reflexivity).
  contradiction Hnt. reflexivity.
Qed.

Ltac stable_step :=
  apply bind_stable; [intros _; reflexivity | intros ? ? _ ? | assumption].

Lemma frames_loop_stable vf total more cf vi (m : machine) :
  fuel_stable (fun fuel => frames_loop fuel vf total more cf vi m).
Proof.
  intros n. revert more cf vi m.
  induction n as [|n IH]; intros more cf vi m n' Hle Hnt;
    [contradiction Hnt; reflexivity|].
  destruct n' as [|n']; [lia|].
  cbn [frames_loop] in *.
  destruct (more && (vi <? total)); [|reflexivity].
  stable_step.
  destruct (cf =? a).
  - do 4 stable_step. apply IH; [lia | assumption].
  - do 3 stable_step. apply IH; [lia | assumption].
Qed.

Lemma decode_loop_stable enc vf total off cf vi (m : machine) :
  fuel_stable (fun fuel => decode_loop fuel enc vf total off cf vi m).
Proof.
  intros n. revert off cf vi m.
  induction n as [|n IH]; intros off cf vi m n' Hle Hnt;
    [contradiction Hnt; reflexivity|].
  destruct n' as [|n']; [lia|].
  cbn [decode_loop] in *.
  destruct (vi <? total); [|reflexivity].
  stable_step. destruct a as [[p sz] off'].
  stable_step.
  apply bind_stable; [|intros pos m3 _ Hnt3|assumption].
  - intros Hnt3. destruct a; [|reflexivity].
    apply (frames_loop_stable vf total true cf vi); [lia | assumption].
  - stable_step. apply IH; [lia | assumption].
Qed.

Lemma drain_loop_stable (m : machine) :
  fuel_stable (fun fuel => drain_loop fuel m).
Proof.
  intros n. revert m.
  induction n as [|n IH]; intros m n' Hle Hnt;
    [contradiction Hnt; reflexivity|].
  destruct n' as [|n']; [lia|].
  cbn [drain_loop] in *.
  stable_step. destruct a; [|reflexivity].
  stable_step. apply IH; [lia | assumption].
Qed.

Lemma drain_stable (m : machine) : fuel_stable (fun fuel => drain fuel m).
Proof.
  intros n n' Hle Hnt. unfold drain in *.
  do 2 stable_step.
  destruct (0 <? decoded_frames_buffered (wait_until_frames_copied (decoder_ a)));
    [|reflexivity].
  apply drain_loop_stable; assumption.
Qed.

Lemma sampling_plan_stable args (m : machine) :
  fuel_stable (fun fuel => sampling_plan fuel args m).
Proof.
  intros n n' Hle Hnt. unfold sampling_plan in *.
  stable_step.
  destruct (sampling args).
  - stable_step. apply lift_stable; [|assumption].
    apply (push_range_stable _ _ _ n n' Hle).
  - stable_step. apply lift_stable; [|assumption].
    apply (push_strided_stable _ _ _ _ n n' Hle).
  - stable_step.
    apply bind_stable; [|intros; reflexivity|assumption].
    intros Hnt'. apply lift_stable; [|assumption].
    apply (push_gather_stable _ _ _ n n' Hle).
  - destruct (gather_sequences args) as [|iv [|iv' rest]]; try reflexivity.
    stable_step.
    apply bind_stable; [|intros; reflexivity|assumption].
    intros Hnt'. apply lift_stable; [|assumption].
    apply (push_range_stable _ _ _ n n' Hle).
  - reflexivity.
Qed.

Lemma process_item_stable args enc (m : machine) :
  fuel_stable (fun fuel => process_item fuel args enc m).
Proof.
  intros n n' Hle Hnt. unfold process_item in *.
  apply bind_stable; [|intros vf m1 _ Hnt1|assumption].
  - apply sampling_plan_stable; assumption.
  - apply bind_stable; [|intros u m2 _ Hnt2|assumption].
    + apply decode_loop_stable; assumption.
    + apply bind_stable; [|intros; reflexivity|assumption].
      apply drain_stable; assumption.
Qed.

Lemma evaluate_item_stable ib i (m : machine) :
  fuel_stable (fun fuel =>
    evaluate_item HAVE_CUDA deserialize_decode_args fuel ib i m).
Proof.
  intros n n' Hle Hnt. unfold evaluate_item in *.
  do 4 stable_step. apply process_item_stable; assumption.
Qed.

Lemma for_inputs_stable ib count : forall i (m : machine),
  fuel_stable (fun fuel =>
    for_inputs (evaluate_item HAVE_CUDA deserialize_decode_args fuel ib)
               i count m).
Proof.
  induction count as [|count IH]; intros i m n n' Hle Hnt; [reflexivity|].
  cbn [for_inputs] in *.
  apply bind_stable; [|intros u m1 _ Hnt1|assumption].
  - apply evaluate_item_stable; assumption.
  - apply (IH (S i) m1 n n' Hle Hnt1).
Qed.

(** The outcome of [evaluate], once there is one, is the same for any
    larger fuel: the fuel only bounds how long the model is run. *)
Lemma evaluate_stable e ib ob os :
  fuel_stable (fun fuel =>
    evaluate HAVE_CUDA deserialize_decode_args fuel e ib ob os).
Proof.
  intros n n' Hle Hnt. unfold evaluate in *.
  rewrite (for_inputs_stable ib (num_inputs ib) 0%nat (enter e ob os) n n' Hle);
    [reflexivity|].
  intros E. rewrite E in Hnt. contradiction Hnt. reflexivity.
Qed.

(** *** Starvation *)

(** A decoder out of frames and out of packets: the loop keeps flushing. *)
Lemma decode_loop_starved (starved : D -> Prop) :
  (forall d b, starved d ->
     fst (feed None 0 b d) = false /\ starved (snd (feed None 0 b d))) ->
  forall fuel enc vf total off cf vi (m : machine),
    starved (decoder_ (self m)) ->
    Z.of_nat (length enc) <= off -> vi < total ->
    decode_loop fuel enc vf total off cf vi m = Timeout.
Proof.
  intros Hst. induction fuel as [|fuel IH];
    intros enc vf total off cf vi m Hm Hoff Hvi; [reflexivity|].
  cbn [decode_loop].
  replace (vi <? total) with true by (symmetry; apply Z.ltb_lt; assumption).
  unfold next_packet.
  replace (off <? Z.of_nat (length enc)) with false
    by (symmetry; apply Z.ltb_ge; assumption).
  unfold bind at 1. unfold lift at 1. cbn [rbind].
  unfold bind at 1. unfold call_feed at 1. unfold bind at 1, get_self at 1.
  specialize (Hst (decoder_ (self m)) (discontinuity_ (self m)) Hm).
  destruct (feed None 0 (discontinuity_ (self m)) (decoder_ (self m)))
    as [nf d]. simpl in Hst. destruct Hst as [-> Hd].
  cbv beta iota zeta delta
    [bind set_self emit ret write_discontinuity get_self fst snd].
  apply IH; simpl; assumption.
Qed.

(** One turn of the outer loop. *)
Lemma decode_loop_S fuel enc vf total off cf vi (m : machine) :
  decode_loop (S fuel) enc vf total off cf vi m
  = (if vi <? total then
       bind (lift (next_packet enc off)) (fun pkt =>
         let '(encoded_packet, encoded_packet_size, offset') := pkt in
         bind (call_feed encoded_packet encoded_packet_size) (fun new_frames =>
           bind (if new_frames
                 then frames_loop fuel vf total true cf vi
                 else ret (cf, vi)) (fun pos =>
             bind (write_discontinuity (encoded_packet_size =? 0)) (fun _ =>
               decode_loop fuel enc vf total offset' (fst pos) (snd pos)))))
     else ret tt) m.
Proof. reflexivity. Qed.

(** An input whose decode loop does not end is not processed to its end,
    and neither is the call. *)
Lemma process_item_hangs fuel args enc (m : machine) vf m1 :
  sampling_plan fuel args m = Ok (vf, m1) ->
  decode_loop fuel enc vf (cast_i32 (Z.of_nat (length vf)))
              0 (start_keyframe args) 0 m1 = Timeout ->
  process_item fuel args enc m = Timeout.
Proof.
  intros Ep El. unfold process_item, bind. rewrite Ep, El. reflexivity.
Qed.

Lemma evaluate_item_hangs fuel ib i (m : machine) ab enc st :
  at2 ib 1 i = Ok ab -> at2 ib 0 i = Ok enc ->
  stage_inputs HAVE_CUDA deserialize_decode_args (self m) ab enc = Ok st ->
  process_item fuel (fst st) (snd st) m = Timeout ->
  evaluate_item HAVE_CUDA deserialize_decode_args fuel ib i m = Timeout.
Proof.
  intros Ea Eb Es Ep. unfold evaluate_item, bind, lift, get_self.
  rewrite Ea, Eb. simpl. rewrite Es. simpl. exact Ep.
Qed.

Lemma evaluate_hangs fuel e ib ob os :
  num_inputs ib <> 0%nat ->
  evaluate_item HAVE_CUDA deserialize_decode_args fuel ib 0 (enter e ob os)
  = Timeout ->
  evaluate HAVE_CUDA deserialize_decode_args fuel e ib ob os = Timeout.
Proof.
  intros Hn Ei. unfold evaluate.
  destruct (num_inputs ib) as [|n]; [contradiction|].
  cbn [for_inputs]. unfold bind. rewrite Ei. reflexivity.
Qed.

(** C8, amended: the code has no starvation check and raises nothing.  In
    the decode loop, whenever [valid_index] is below [total_output_frames]
    (the size of the plan cast to [i32]), the packet buffer is exhausted and
    the decoder has no frame to give (every flush answers that there is
    none), the loop never ends, whatever the fuel; so an invocation on an
    empty packet buffer and such a decoder never returns when its plan has
    between 1 and [max_i32] frames.  For a plan of at most [max_i32] frames,
    a processing that ends has appended exactly as many output buffers as
    the plan has frames: a shorter result is never returned.  For a larger
    plan whose size cast to [i32] is not positive the loop is not entered,
    and a processing that ends has appended no buffer. *)
Theorem starvation_hangs (starved : D -> Prop) :
  ((forall d b, starved d ->
      fst (feed None 0 b d) = false /\ starved (snd (feed None 0 b d))) ->
   (forall enc vf total off cf vi (m : machine),
      starved (decoder_ (self m)) ->
      Z.of_nat (length enc) <= off -> vi < total ->
      never_returns (fun fuel => decode_loop fuel enc vf total off cf vi m))
   /\ (forall fuel args (m0 : machine) vf' m1,
         sampling_plan fuel args m0 = Ok (vf', m1) ->
         starved (decoder_ (self m1)) ->
         0 < Z.of_nat (length vf') <= max_i32 ->
         never_returns (fun fuel' => process_item fuel' args [] m0)))
  /\ (forall fuel args enc' (m0 : machine) u m' vf' m1,
        process_item fuel args enc' m0 = Ok (u, m') ->
        sampling_plan fuel args m0 = Ok (vf', m1) ->
        Z.of_nat (length vf') <= max_i32 ->
        column0_size (output_buffers m')
        = (column0_size (output_buffers m0) + length vf')%nat)
  /\ (forall fuel args enc' (m0 : machine) u m' vf' m1,
        process_item fuel args enc' m0 = Ok (u, m') ->
        sampling_plan fuel args m0 = Ok (vf', m1) ->
        cast_i32 (Z.of_nat (length vf')) <= 0 ->
        column0_size (output_buffers m') = column0_size (output_buffers m0)).
Proof.
  split; [|split].
  - intros Hst. split.
    + intros enc vf total off cf vi m Hm Hoff Hvi fuel.
      eapply decode_loop_starved; eauto.
    + intros fuel args m0 vf' m1 Ep Hs1 Hlen fuel'.
      pose proof (sampling_plan_stable args m0) as Hstable.
      destruct (sampling_plan fuel' args m0) as [[vf2 m2]| | |] eqn:Ep'.
      4:{ unfold process_item, bind. rewrite Ep'. reflexivity. }
      all: assert (sampling_plan fuel' args m0 = Ok (vf', m1)) as Eq
          by (destruct (Nat.le_ge_cases fuel fuel') as [Hle|Hle];
              [ rewrite (Hstable fuel fuel' Hle) by (rewrite Ep; discriminate);
                exact Ep
              | rewrite <- Ep; symmetry;
                apply (Hstable fuel' fuel Hle); rewrite Ep'; discriminate ]).
      all: rewrite Eq in Ep'; try discriminate.
      apply (process_item_hangs _ _ _ _ _ _ Eq).
      apply (decode_loop_starved starved Hst); [exact Hs1 | simpl; lia |].
      rewrite cast_i32_small by lia. lia.
  - intros fuel args enc' m0 u m' vf' m1 E Ep Hlen.
    destruct (process_item_keeps_plan _ _ _ _ _ _ _ _ E Ep Hlen)
      as (evs & dd & He & Hk & _).
    destruct He as (_ & _ & _ & Hb & _). rewrite Hk in Hb. exact Hb.
  - intros fuel args enc' m0 u m' vf' m1 E Ep Hc.
    apply process_item_Ok in E.
    destruct E as (vf2 & m2 & evs & dd & Ep' & He & _ & _ & _ & _ & Hk).
    rewrite Ep in Ep'. inversion Ep'; subst vf2 m2.
    replace (Z.to_nat (cast_i32 (Z.of_nat (length vf')))) with 0%nat in Hk by lia.
    destruct He as (_ & _ & _ & Hb & _). rewrite Hk in Hb. simpl in Hb. lia.
Qed.

End EngineFacts.

(** ** Runs of the engine *)

(** One turn of the decode loop is run with the rest of the loop kept
    abstract. *)
Ltac decode_turn :=
  rewrite decode_loop_S;
  match goal with
  | |- context [@decode_loop ?V ?D ?H ?f ?enc ?vf ?total] =>
      let K := fresh "K" in
      let HK := fresh "HK" in
      generalize (eq_refl (@decode_loop V D H f enc vf total));
      generalize (@decode_loop V D H f enc vf total) at 1 3;
      intros K HK; vm_compute; subst K
  end.

(** The scenario of the specification: three packets, frames 0, 1 and 2,
    [All] over [[0, 3)], cold start. *)
Example end_to_end_scenario :
  summary (evaluate_on (D := QueueDecoder) 10 [mk_all 0 3 0 0] reset_engine
                       [[three_packets]; [[x00]]])
  = Ok ([[[x0a; x0a; x0a]; [x0b; x0b; x0b]; [x0c; x0c; x0c]]],
        3, 3, false, false).
Proof. vm_compute. reflexivity. Qed.

(** The two contract violations of the plan: a [SequenceGather] with two
    intervals, and an unknown sampling tag. *)
Example plan_contract_violations :
  sampling_plan 5 (mk_sequence_gather [(0, 2); (5, 7)] 0 0)
                (machine_of ([] : QueueDecoder) true true) = Abort
  /\ sampling_plan 5 (with_sampling (UnknownSampling 7) (mk_all 0 3 0 0))
                   (machine_of ([] : QueueDecoder) true true) = Abort.
Proof. split; reflexivity. Qed.

(** A [SequenceGather] with its one interval is planned like [All]. *)
Example sequence_gather_plan :
  (r <-- sampling_plan 5 (mk_sequence_gather [(3, 6)] 1 0)
                       (machine_of ([] : QueueDecoder) false false) ;;
   Ok (fst r, discontinuity_ (self (snd r))))%result
  = Ok ([4; 5], true).
Proof. vm_compute. reflexivity. Qed.

(** C1 fails on the code: the constructor leaves [needs_warmup_] false, and
    the first call on a constructed engine skips the warmup region (of
    [All] over [[0, 3)] with [warmup_count = 1] it keeps frames 1 and 2, not
    frame 0). *)
Lemma constructed_engine_is_warm :
  new_DecoderEvaluator (D := QueueDecoder) {| device_ids := [0] |} CPU tt
  = Ok constructed_engine
  /\ needs_warmup_ constructed_engine = false
  /\ (m <-- evaluate_on (D := QueueDecoder) 10 [mk_all 0 3 1 0] fresh_engine
                        [[three_packets]; [[x00]]] ;;
      Ok (kept_frames (trace m)))%result = Ok [1; 2].
Proof. repeat split; vm_compute; reflexivity. Qed.

Lemma warmup_flag_lifecycle_witness :
  needs_warmup_ constructed_engine = false
  /\ discontinuity_ constructed_engine = false
  /\ needs_warmup_ (reset constructed_engine) = true.
Proof.
  pose proof (warmup_flag_lifecycle false (table_deserialize [])
                {| device_ids := [0] |} CPU tt constructed_engine eq_refl)
    as (H1 & H2 & H3 & _).
  auto.
Defined.

(** The example of the specification for [All]:
    [{start = 0, end = 10, warmup_count = 2}]. *)
Lemma all_mode_range_witness :
  sampling_plan 11 (mk_all 0 10 2 0) (machine_of ([] : QueueDecoder) true false)
  = Ok ([0; 1; 2; 3; 4; 5; 6; 7; 8; 9], machine_of [] true false)
  /\ sampling_plan 11 (mk_all 0 10 2 0) (machine_of ([] : QueueDecoder) false false)
     = Ok ([2; 3; 4; 5; 6; 7; 8; 9], machine_of [] false false).
Proof.
  split.
  - pose proof (all_mode_range 11 (mk_all 0 10 2 0)
                  (machine_of ([] : QueueDecoder) true false) eq_refl)
      as (_ & Htot & _).
    apply Htot; [reflexivity | vm_compute; discriminate | simpl; lia].
  - pose proof (all_mode_range 11 (mk_all 0 10 2 0)
                  (machine_of ([] : QueueDecoder) false false) eq_refl)
      as (_ & Htot & _).
    apply Htot; [reflexivity | vm_compute; discriminate | simpl; lia].
Defined.

(** The example of the specification for [Strided]:
    [{start = 0, end = 20, stride = 4, warmup_count = 1}], warm. *)
Lemma strided_spacing_witness :
  sampling_plan 21 (mk_strided 0 20 4 1 0)
                (machine_of ([] : QueueDecoder) false false)
  = Ok ([4; 8; 12; 16], machine_of [] false false).
Proof.
  pose proof (strided_spacing 21 (mk_strided 0 20 4 1 0)
                (machine_of ([] : QueueDecoder) false false) eq_refl)
    as (_ & Htot).
  destruct Htot as (vf & E);
    [reflexivity | reflexivity | reflexivity | vm_compute; discriminate
     | simpl; lia |].
  rewrite E. vm_compute in E. inversion E. reflexivity.
Defined.

Lemma gather_forces_discontinuity_witness :
  match sampling_plan 5 (mk_gather [7; 9] 0 0)
                      (machine_of ([] : QueueDecoder) false false) with
  | Ok (vf, m') => vf = [7; 9] /\ discontinuity_ (self m') = true
  | _ => False
  end.
Proof.
  destruct (sampling_plan 5 (mk_gather [7; 9] 0 0)
              (machine_of ([] : QueueDecoder) false false))
    as [[vf m']| | |] eqn:E; try (vm_compute in E; discriminate).
  split.
  - vm_compute in E. inversion E. reflexivity.
  - apply (gather_forces_discontinuity _ _ _ _ _ E). left. reflexivity.
Defined.



Lemma warmup_idempotence_witness :
  match process_item 10 (mk_all 0 3 0 0) three_packets
                     (machine_of ([] : QueueDecoder) true true) with
  | Ok (_, m') =>
      needs_warmup_ (self m') = false
      /\ needs_warmup_ (reset (self m')) = true
  | _ => False
  end.
Proof.
  destruct (process_item 10 (mk_all 0 3 0 0) three_packets
              (machine_of ([] : QueueDecoder) true true))
    as [[u m']| | |] eqn:E; try (vm_compute in E; discriminate).
  destruct (warmup_idempotence false (table_deserialize []) _ _ _ _ _ _ E)
    as (Hw & _ & _ & _ & Hr).
  split; [exact Hw | apply Hr].
Defined.

(** After the three frames of the stream the queue decoder has nothing
    left, and the loop waits for frame 3. *)
Lemma three_frames_then_starved fuel :
  decode_loop (S (S (S (S (S (S (S (S (S (S fuel))))))))))
              three_packets [0; 1; 2; 3; 4; 5] 6 0 0 0
              (machine_of ([] : QueueDecoder) true true)
  = Timeout.
Proof.
  do 3 decode_turn.
  apply (decode_loop_starved (fun q => q = [])); try reflexivity.
  intros d b ->. split; reflexivity.
Qed.

(** C8 fails on the code: the plan asks for frames 0 to 5, the stream holds
    frames 0, 1 and 2; the call raises nothing and never returns. *)
Lemma starvation_never_returns :
  never_returns (fun fuel =>
    evaluate_on (D := QueueDecoder) fuel [mk_all 0 6 0 0] reset_engine
                [[three_packets]; [[x00]]]).
Proof.
  intros fuel.
  do 10 (destruct fuel as [|fuel]; [vm_compute; reflexivity|]).
  unfold evaluate_on.
  change (reset_engine (D := QueueDecoder))
    with (Ok (engine_of ([] : QueueDecoder) true true)).
  cbn [rbind].
  apply evaluate_hangs; [discriminate|].
  eapply evaluate_item_hangs; [reflexivity | reflexivity | reflexivity |].
  eapply process_item_hangs.
  - apply sampling_plan_All_total;
      [reflexivity | reflexivity | vm_compute; discriminate | simpl; lia].
  - exact (three_frames_then_starved fuel).
Qed.

Lemma starvation_hangs_witness :
  never_returns (fun fuel =>
    decode_loop fuel [] [0] 1 0 0 0 (machine_of ([] : QueueDecoder) true true)).
Proof.
  assert (forall (d : QueueDecoder) (b : bool),
            d = [] ->
            fst (feed None 0 b d) = false /\ snd (feed None 0 b d) = [])
    as Hst by (intros d b ->; split; reflexivity).
  refine (proj1 (proj1 (@starvation_hangs unit QueueDecoder queue_decoder
                          (fun q : QueueDecoder => q = [])) Hst)
            [] [0] 1 0 0 0 (machine_of [] true true) eq_refl _ _).
  - simpl. lia.
  - lia.
Defined.

(** C9 fails on the code: in one invocation on a decoder that releases its
    frames at the flush, [discontinuity_] is assigned four times, and it is
    true, then false, then true again. *)
Lemma discontinuity_assigned_per_packet :
  (m <-- evaluate_on (D := HoldingDecoder) 10 [mk_all 0 3 0 0] reset_engine
                     [[three_packets]; [[x00]]] ;;
   Ok (discontinuity_writes (trace m), feed_flags (trace m),
       discontinuity_ (self m)))%result
  = Ok ([false; false; false; true], [true; false; false; false], true).
Proof. vm_compute. reflexivity. Qed.

Lemma flag_updates_witness :
  match process_item 10 (mk_all 0 3 0 0) three_packets
          (machine_of {| held := []; released := [] |} true true) with
  | Ok (_, m') =>
      needs_warmup_writes (trace m') = [false]
      /\ needs_warmup_ (self m') = false
      /\ length (discontinuity_writes (trace m')) = length (feed_sizes (trace m'))
  | _ => False
  end.
Proof.
  destruct (process_item 10 (mk_all 0 3 0 0) three_packets
              (machine_of {| held := []; released := [] |} true true))
    as [[u m']| | |] eqn:E; try (vm_compute in E; discriminate).
  destruct (flag_updates _ _ _ _ _ _ E) as (evs & Ht & Hw & Hnw & Hd & _).
  simpl in Ht, Hd. rewrite Ht, Hd, length_map. auto.
Defined.

Lemma evaluate_empty_input_witness :
  exists m',
    evaluate false (table_deserialize []) 0
             (engine_of ([] : QueueDecoder) true true) [[]; []] [[]] [[]]
    = Ok m'
    /\ output_buffers m' = [[]] /\ needs_warmup_ (self m') = true.
Proof.
  destruct (evaluate_empty_input false (table_deserialize []) 0
              (engine_of ([] : QueueDecoder) true true) [[]; []] [[]] [[]])
    as (m' & E & Hb & _ & _ & Hw & _).
  - right. exists [[]]. reflexivity.
  - exists m'. auto.
Defined.

(** ** The wire format *)

Lemma byte_of_value z : Z.of_N (Byte.to_N (byte_of z)) = z mod 256.
Proof.
  unfold byte_of.
  assert (0 <= z mod 256 < 256) as Hr by (apply Z.mod_pos_bound; lia).
  destruct (Byte.of_N (Z.to_N (z mod 256))) as [b|] eqn:E.
  - apply Byte.to_of_N in E. rewrite E. lia.
  - apply Byte.of_N_None_iff in E. lia.
Qed.

Lemma byte_at_app_r pre l i :
  0 <= i -> byte_at (pre ++ l) (Z.of_nat (length pre) + i) = byte_at l i.
Proof.
  intros Hi. unfold byte_at.
  replace (Z.of_nat (length pre) + i <? 0) with false
    by (symmetry; apply Z.ltb_ge; lia).
  replace (i <? 0) with false by (symmetry; apply Z.ltb_ge; lia).
  rewrite nth_error_app2 by lia.
  replace (Z.to_nat (Z.of_nat (length pre) + i) - length pre)%nat
    with (Z.to_nat i) by lia.
  reflexivity.
Qed.

Lemma cast_i32_mod n : in_i32 n = true -> cast_i32 (n mod 2 ^ 32) = n.
Proof.
  intros Hn. apply in_i32_iff in Hn. unfold min_i32, max_i32 in Hn.
  unfold cast_i32. rewrite Z.mod_mod by lia.
  destruct (Z.ltb_spec (n mod 2 ^ 32) (2 ^ 31)) as [Hlt | Hge].
  - destruct (Z.lt_ge_cases n 0) as [Hneg | Hpos].
    + rewrite <- (Z.mod_add n 1 (2 ^ 32)) in Hlt by lia.
      rewrite Z.mod_small in Hlt by lia. lia.
    + apply Z.mod_small. lia.
  - destruct (Z.lt_ge_cases n 0) as [Hneg | Hpos].
    + rewrite <- (Z.mod_add n 1 (2 ^ 32)) by lia.
      rewrite Z.mod_small by lia. lia.
    + rewrite Z.mod_small in Hge by lia. lia.
Qed.

Lemma byte_at_four a b c d post :
  byte_at (a :: b :: c :: d :: post) 0 = Ok (Z.of_N (Byte.to_N a))
  /\ byte_at (a :: b :: c :: d :: post) 1 = Ok (Z.of_N (Byte.to_N b))
  /\ byte_at (a :: b :: c :: d :: post) 2 = Ok (Z.of_N (Byte.to_N c))
  /\ byte_at (a :: b :: c :: d :: post) 3 = Ok (Z.of_N (Byte.to_N d)).
Proof. repeat split; reflexivity. Qed.

Lemma four_bytes_value u :
  0 <= u < 2 ^ 32 ->
  u mod 256 + 256 * ((u / 256) mod 256) + 65536 * ((u / 65536) mod 256)
  + 16777216 * ((u / 16777216) mod 256) = u.
Proof.
  intros Hu. change (2 ^ 32) with 4294967296 in Hu.
  replace (u / 65536) with (u / 256 / 256) by (rewrite Z.div_div by lia; reflexivity).
  replace (u / 16777216) with (u / 256 / 256 / 256)
    by (rewrite !Z.div_div by lia; reflexivity).
  pose proof (Z.div_mod u 256 ltac:(lia)).
  pose proof (Z.div_mod (u / 256) 256 ltac:(lia)).
  pose proof (Z.div_mod (u / 256 / 256) 256 ltac:(lia)).
  assert (u / 256 / 256 / 256 < 256)
    by (rewrite !Z.div_div by lia; apply Z.div_lt_upper_bound; lia).
  assert (0 <= u / 256 / 256 / 256) by (repeat apply Z.div_pos; lia).
  rewrite (Z.mod_small (u / 256 / 256 / 256)) by lia.
  lia.
Qed.

(** Reading back an [i32] written little-endian, anywhere in a buffer. *)
Lemma read_i32_le32 pre n post :
  in_i32 n = true ->
  read_i32 (pre ++ le32 n ++ post) (Z.of_nat (length pre)) = Ok n.
Proof.
  intros Hn. unfold read_i32.
  rewrite <- (Z.add_0_r (Z.of_nat (length pre))) at 1.
  rewrite !byte_at_app_r by lia.
  unfold le32. cbn [app].
  destruct (byte_at_four (byte_of (n mod 2 ^ 32)) (byte_of (n mod 2 ^ 32 / 256))
              (byte_of (n mod 2 ^ 32 / 65536)) (byte_of (n mod 2 ^ 32 / 16777216))
              post) as (-> & -> & -> & ->).
  cbn [rbind]. rewrite !byte_of_value.
  rewrite four_bytes_value by (apply Z.mod_pos_bound; lia).
  rewrite cast_i32_mod by assumption. reflexivity.
Qed.

Lemma le32_length n : length (le32 n) = 4%nat.
Proof. reflexivity. Qed.

Lemma packet_record_length p : length (packet_record p) = (4 + length p)%nat.
Proof. unfold packet_record. rewrite length_app, le32_length. reflexivity. Qed.

Lemma wrap_size_t_small z : 0 <= z < 2 ^ 64 -> wrap_size_t z = z.
Proof. intros Hz. unfold wrap_size_t. apply Z.mod_small. assumption. Qed.

Lemma skipn_length_app {A : Type} (a c : list A) :
  skipn (length a) (a ++ c) = c.
Proof. induction a; simpl; auto. Qed.

(** The record at the offset is read, and the offset moves to the next. *)
Lemma next_packet_at_record pre payload post :
  Z.of_nat (length payload) <= max_i32 ->
  Z.of_nat (length (pre ++ packet_record payload ++ post)) < 2 ^ 64 ->
  next_packet (pre ++ packet_record payload ++ post) (Z.of_nat (length pre))
  = Ok (Some (payload ++ post), Z.of_nat (length payload),
        Z.of_nat (length (pre ++ packet_record payload))).
Proof.
  intros Hp Hlen. unfold next_packet.
  rewrite !length_app, packet_record_length in *.
  replace (Z.of_nat (length pre)
           <? Z.of_nat (length pre + (4 + length payload + length post)))
    with true by (symmetry; apply Z.ltb_lt; lia).
  unfold packet_record at 1. rewrite <- app_assoc.
  rewrite read_i32_le32
    by (apply in_i32_iff; unfold min_i32, max_i32 in *; lia).
  cbn [rbind].
  rewrite (wrap_size_t_small (Z.of_nat (length pre) + 4)) by lia.
  rewrite wrap_size_t_small by lia.
  do 2 f_equal; [f_equal|lia].
  f_equal.
  replace (Z.to_nat (Z.of_nat (length pre) + 4))
    with (length (pre ++ le32 (Z.of_nat (length payload))))
    by (rewrite length_app, le32_length; lia).
  unfold packet_record. rewrite <- app_assoc, (app_assoc pre).
  apply skipn_length_app.
Qed.

(** X1: an [i32] written as four little-endian bytes, at any place of a
    buffer, is read back by the cast of line 145, negative values
    included. *)
Theorem read_i32_roundtrip pre n post :
  in_i32 n = true ->
  read_i32 (pre ++ le32 n ++ post) (Z.of_nat (length pre)) = Ok n.
Proof. apply read_i32_le32. Qed.

Lemma read_i32_roundtrip_witness :
  read_i32 ([x07] ++ le32 (-2) ++ [x09]) 1 = Ok (-2).
Proof. apply (read_i32_roundtrip [x07] (-2) [x09]). reflexivity. Defined.

(** X2: on a buffer of records (a 4-byte length, then the payload), the
    read at the start of a record yields a pointer to its payload, its
    length, and the offset of the next record; at or past the end of the
    buffer the read yields the empty flush packet ([NULL], size 0) and
    leaves the offset where it is. *)
Theorem next_packet_walks_records pre payload post :
  Z.of_nat (length payload) <= max_i32 ->
  Z.of_nat (length (pre ++ packet_record payload ++ post)) < 2 ^ 64 ->
  next_packet (pre ++ packet_record payload ++ post) (Z.of_nat (length pre))
  = Ok (Some (payload ++ post), Z.of_nat (length payload),
        Z.of_nat (length (pre ++ packet_record payload)))
  /\ forall off,
       Z.of_nat (length (pre ++ packet_record payload ++ post)) <= off ->
       next_packet (pre ++ packet_record payload ++ post) off
       = Ok (None, 0, off).
Proof.
  intros Hp Hlen. split; [apply next_packet_at_record; assumption|].
  intros off Hoff. unfold next_packet.
  replace (off <? _) with false by (symmetry; apply Z.ltb_ge; assumption).
  reflexivity.
Qed.

Lemma next_packet_walks_records_witness :
  next_packet three_packets 7 = Ok (Some ([x0b; x0b; x0b] ++ packet_record [x0c; x0c; x0c]), 3, 14)
  /\ next_packet three_packets 21 = Ok (None, 0, 21).
Proof.
  destruct (next_packet_walks_records (packet_record [x0a; x0a; x0a])
              [x0b; x0b; x0b] (packet_record [x0c; x0c; x0c]))
    as [H1 H2]; [vm_compute; discriminate | vm_compute; reflexivity |].
  split; [exact H1 | apply (H2 21); vm_compute; discriminate].
Defined.

(** X3: the read of a packet header is out of bounds, hence undefined,
    exactly when between one and three bytes are left at the offset: the
    loop checks that the offset is inside the buffer, not that the four
    bytes of the header are.  The length read is not checked against the
    bytes that are left either: any header that is inside the buffer is
    accepted. *)
Theorem truncated_header_undefined buf off :
  0 <= off ->
  (next_packet buf off = Undef
   <-> off < Z.of_nat (length buf) < off + 4)
  /\ (off + 4 <= Z.of_nat (length buf) ->
      exists p n off', next_packet buf off = Ok (Some p, n, off')).
Proof.
  intros Hoff.
  assert (forall i, 0 <= i ->
            (byte_at buf i = Undef <-> Z.of_nat (length buf) <= i)
            /\ (i < Z.of_nat (length buf) -> exists b, byte_at buf i = Ok b))
    as Hb.
  { intros i Hi. unfold byte_at.
    replace (i <? 0) with false by (symmetry; apply Z.ltb_ge; lia).
    destruct (nth_error buf (Z.to_nat i)) eqn:E.
    - assert (Z.to_nat i < length buf)%nat
        by (apply nth_error_Some; congruence).
      split; [split; [discriminate | lia] | eauto].
    - apply nth_error_None in E. split; [split; [lia | reflexivity] | lia]. }
  assert (forall i, byte_at buf i = Undef \/ exists b, byte_at buf i = Ok b)
    as Hc.
  { intros i. unfold byte_at. destruct (i <? 0); [auto|].
    destruct (nth_error buf (Z.to_nat i)); eauto. }
  assert (off + 4 <= Z.of_nat (length buf) ->
          exists n, read_i32 buf off = Ok n) as Hread.
  { intros Hin. unfold read_i32.
    destruct (proj2 (Hb off ltac:(lia)) ltac:(lia)) as (b0 & ->).
    destruct (proj2 (Hb (off + 1) ltac:(lia)) ltac:(lia)) as (b1 & ->).
    destruct (proj2 (Hb (off + 2) ltac:(lia)) ltac:(lia)) as (b2 & ->).
    destruct (proj2 (Hb (off + 3) ltac:(lia)) ltac:(lia)) as (b3 & ->).
    simpl. eauto. }
  split.
  - unfold next_packet.
    destruct (Z.ltb_spec off (Z.of_nat (length buf))) as [Hlt | Hge].
    + destruct (Z.lt_ge_cases (Z.of_nat (length buf)) (off + 4)) as [Hs | Hl].
      * split; [lia|]. intros _. unfold read_i32.
        assert (byte_at buf (off + 3) = Undef) as E3
          by (apply (Hb (off + 3)); lia).
        rewrite E3.
        destruct (Hc off) as [-> | (b0 & ->)]; [reflexivity|].
        destruct (Hc (off + 1)) as [-> | (b1 & ->)]; [reflexivity|].
        destruct (Hc (off + 2)) as [-> | (b2 & ->)]; reflexivity.
      * destruct (Hread Hl) as (n & ->). simpl. split; [discriminate | lia].
    + split; [discriminate | lia].
  - intros Hin. unfold next_packet.
    replace (off <? Z.of_nat (length buf)) with true
      by (symmetry; apply Z.ltb_lt; lia).
    destruct (Hread Hin) as (n & ->). simpl. eauto.
Qed.

Lemma truncated_header_undefined_witness :
  next_packet [x03; x00] 0 = Undef.
Proof.
  apply (proj1 (truncated_header_undefined [x03; x00] 0 ltac:(lia))).
  simpl. lia.
Defined.

(** ** The anatomy of the loops *)

Section Anatomy.

Context {VideoDecoderType D : Type} `{VideoDecoder VideoDecoderType D}.

Variable HAVE_CUDA : bool.
Variable deserialize_decode_args : list byte -> DecodeArgs.

Local Abbreviation machine := (Machine VideoDecoderType D).

(** One turn of the inner loop. *)
Lemma frames_loop_turn fuel vf total more cf vi (m : machine) r m' :
  frames_loop (S fuel) vf total more cf vi m = Ok (r, m') ->
  more && (vi <? total) = true ->
  exists v more1 m2 m3 vi1,
    valid_frame_at vf vi = Ok v
    /\ (if cf =? v
        then keep_frame cf m = Ok (more1, m2) /\ vi1 = vi + 1
        else drop_frame cf m = Ok (more1, m2) /\ vi1 = vi)
    /\ incr_decoded m2 = Ok (tt, m3)
    /\ frames_loop fuel vf total more1 (cf + 1) vi1 m3 = Ok (r, m').
Proof.
  intros E C. cbn [frames_loop] in E. rewrite C in E.
  apply bind_Ok_inv in E. destruct E as (v & m1 & Ev & E).
  apply lift_Ok_inv in Ev. destruct Ev as [Ev ->].
  exists v. destruct (cf =? v).
  - apply bind_Ok_inv in E. destruct E as (more1 & m2 & Ek & E).
    apply bind_Ok_inv in E. destruct E as (vi1 & m3 & Ea & E).
    apply lift_Ok_inv in Ea. destruct Ea as [Ea ->].
    apply add_i32_Ok_inv in Ea. destruct Ea as [-> _].
    apply bind_Ok_inv in E. destruct E as (cf1 & m3 & Ea & E).
    apply lift_Ok_inv in Ea. destruct Ea as [Ea ->].
    apply add_i32_Ok_inv in Ea. destruct Ea as [-> _].
    apply bind_Ok_inv in E. destruct E as ([] & m4 & Ei & E).
    exists more1, m2, m4, (vi + 1). auto.
  - apply bind_Ok_inv in E. destruct E as (more1 & m2 & Ek & E).
    apply bind_Ok_inv in E. destruct E as (cf1 & m3 & Ea & E).
    apply lift_Ok_inv in Ea. destruct Ea as [Ea ->].
    apply add_i32_Ok_inv in Ea. destruct Ea as [-> _].
    apply bind_Ok_inv in E. destruct E as ([] & m4 & Ei & E).
    exists more1, m2, m4, vi. auto.
Qed.

Lemma frames_loop_exit fuel vf total more cf vi (m : machine) r m' :
  frames_loop (S fuel) vf total more cf vi m = Ok (r, m') ->
  more && (vi <? total) = false ->
  r = (cf, vi) /\ m' = m.
Proof.
  intros E C. cbn [frames_loop] in E. rewrite C in E.
  apply ret_Ok_inv in E. destruct E as [-> ->]. auto.
Qed.

(** One turn of the outer loop. *)
Lemma decode_loop_turn fuel enc vf total off cf vi (m : machine) u m' :
  decode_loop (S fuel) enc vf total off cf vi m = Ok (u, m') ->
  vi < total ->
  exists p n off' nf m2 pos m3 m4,
    next_packet enc off = Ok (p, n, off')
    /\ call_feed p n m = Ok (nf, m2)
    /\ (if nf then frames_loop fuel vf total true cf vi
        else ret (cf, vi)) m2 = Ok (pos, m3)
    /\ write_discontinuity (n =? 0) m3 = Ok (tt, m4)
    /\ decode_loop fuel enc vf total off' (fst pos) (snd pos) m4 = Ok (u, m').
Proof.
  intros E C. cbn [decode_loop] in E.
  replace (vi <? total) with true in E by (symmetry; apply Z.ltb_lt; assumption).
  apply bind_Ok_inv in E. destruct E as (pkt & m1 & Ep & E).
  apply lift_Ok_inv in Ep. destruct Ep as [Ep ->].
  destruct pkt as [[p n] off'].
  apply bind_Ok_inv in E. destruct E as (nf & m2 & Ef & E).
  apply bind_Ok_inv in E. destruct E as (pos & m3 & El & E).
  apply bind_Ok_inv in E. destruct E as ([] & m4 & Ew & E).
  exists p, n, off', nf, m2, pos, m3, m4. auto.
Qed.

Lemma decode_loop_exit fuel enc vf total off cf vi (m : machine) u m' :
  decode_loop (S fuel) enc vf total off cf vi m = Ok (u, m') ->
  total <= vi -> m' = m.
Proof.
  intros E C. cbn [decode_loop] in E.
  replace (vi <? total) with false in E by (symmetry; apply Z.ltb_ge; assumption).
  apply ret_Ok_inv in E. apply E.
Qed.

(** The four stages of the processing of one input. *)
Lemma process_item_stages fuel args enc (m : machine) u m' :
  process_item fuel args enc m = Ok (u, m') ->
  exists vf m1 m2 m3,
    sampling_plan fuel args m = Ok (vf, m1)
    /\ decode_loop fuel enc vf (cast_i32 (Z.of_nat (length vf)))
                   0 (start_keyframe args) 0 m1 = Ok (tt, m2)
    /\ drain fuel m2 = Ok (tt, m3)
    /\ write_needs_warmup false m3 = Ok (tt, m').
Proof.
  unfold process_item. intros E.
  apply bind_Ok_inv in E. destruct E as (vf & m1 & Ep & E).
  apply bind_Ok_inv in E. destruct E as ([] & m2 & El & E).
  apply bind_Ok_inv in E. destruct E as ([] & m3 & Ed & E).
  destruct u. exists vf, m1, m2, m3. auto.
Qed.

Lemma effect_trace (m m' : machine) evs dd :
  effect m m' evs dd -> trace m' = trace m ++ evs.
Proof. intros He. apply He. Qed.

Lemma effect_decoded (m m' : machine) evs dd :
  effect m m' evs dd -> total_frames_decoded m' = total_frames_decoded m + dd.
Proof. intros He. apply He. Qed.

Lemma seen_frames_app evs1 evs2 :
  seen_frames (evs1 ++ evs2) = seen_frames evs1 ++ seen_frames evs2.
Proof. apply flat_map_app. Qed.

Lemma drain_calls_app evs1 evs2 :
  drain_calls (evs1 ++ evs2) = (drain_calls evs1 + drain_calls evs2)%nat.
Proof. unfold drain_calls. rewrite flat_map_app, length_app. reflexivity. Qed.

Lemma arith_seq_app s step a b :
  arith_seq s step (a + b)
  = arith_seq s step a ++ arith_seq (s + Z.of_nat a * step) step b.
Proof.
  revert s. induction a as [|a IH]; intros s.
  - simpl. f_equal. lia.
  - cbn [Nat.add arith_seq app]. rewrite IH. do 3 f_equal. lia.
Qed.

(** The inner loop numbers the frames it asks for consecutively from
    [current_frame], counts each one as decoded, and stops right after the
    frame that completes the plan. *)
Lemma frames_loop_seen fuel : forall vf total more cf vi (m : machine) cf' vi' m',
  frames_loop fuel vf total more cf vi m = Ok ((cf', vi'), m') ->
  exists evs k,
    trace m' = trace m ++ evs
    /\ seen_frames evs = arith_seq cf 1 k
    /\ cf' = cf + Z.of_nat k
    /\ total_frames_decoded m' = total_frames_decoded m + Z.of_nat k
    /\ drain_calls evs = 0%nat
    /\ (vi <= total -> vi' <= total)
    /\ (more && (vi <? total) = false -> evs = [] /\ vi' = vi)
    /\ (vi < total -> vi' = total ->
        nth_error vf (Z.to_nat (total - 1)) = Some (cf' - 1) /\ (0 < k)%nat).
Proof.
  induction fuel as [|fuel IH]; intros vf total more cf vi m cf' vi' m' E;
    [discriminate|].
  destruct (more && (vi <? total)) eqn:C.
  - destruct (frames_loop_turn _ _ _ _ _ _ _ _ _ E C)
      as (v & more1 & m2 & m3 & vi1 & Ev & Hstep & Ei & Er).
    apply andb_true_iff in C. destruct C as [_ C]. apply Z.ltb_lt in C.
    apply valid_frame_at_Ok in Ev. destruct Ev as [Hvi Ev].
    apply incr_decoded_effect in Ei.
    apply IH in Er.
    destruct Er as (evs & k & Ht & Hs & Hcf & Hd & Hdr & Hle & Hexit & Hlast).
    assert (exists ev, (ev = EvGetFrame cf \/ ev = EvDiscardFrame cf)
                       /\ trace m2 = trace m ++ [ev]
                       /\ total_frames_decoded m2 = total_frames_decoded m
                       /\ vi <= vi1 <= vi + 1
                       /\ (vi1 = vi + 1 -> cf = v)) as (ev & Hev & Ht2 & Hd2 & Hvi1 & Hkeep).
    { destruct (cf =? v) eqn:Hcv.
      - destruct Hstep as [Ek ->]. apply keep_frame_effect in Ek.
        apply Z.eqb_eq in Hcv.
        exists (EvGetFrame cf). rewrite (effect_trace _ _ _ _ Ek).
        rewrite (effect_decoded _ _ _ _ Ek).
        repeat split; auto; lia.
      - destruct Hstep as [Ek ->]. apply drop_frame_effect in Ek.
        exists (EvDiscardFrame cf). rewrite (effect_trace _ _ _ _ Ek).
        rewrite (effect_decoded _ _ _ _ Ek).
        repeat split; auto; lia. }
    exists (ev :: evs), (S k).
    rewrite Ht, (effect_trace _ _ _ _ Ei), Ht2, app_nil_r, <- app_assoc.
    rewrite Hd, (effect_decoded _ _ _ _ Ei), Hd2.
    split; [reflexivity|].
    split; [destruct Hev as [-> | ->]; cbn [seen_frames flat_map app arith_seq];
            fold (seen_frames evs); rewrite Hs; reflexivity|].
    split; [lia|]. split; [lia|].
    split; [destruct Hev as [-> | ->]; exact Hdr|].
    split; [intros _; apply Hle; lia|].
    split; [discriminate|].
    intros _ Hend.
    destruct (Z.lt_ge_cases vi1 total) as [Hlt | Hge].
    + destruct (Hlast Hlt Hend) as [Hn Hk]. split; [exact Hn | lia].
    + assert (more1 && (vi1 <? total) = false) as Cf.
      { apply andb_false_iff. right. apply Z.ltb_ge. assumption. }
      destruct (Hexit Cf) as [-> Hv]. simpl in Hs.
      destruct k; [|discriminate].
      assert (vi1 = vi + 1) as Hv1 by lia.
      rewrite <- (Hkeep Hv1) in Ev.
      replace (total - 1) with vi by lia.
      replace (cf' - 1) with cf by lia.
      split; [exact Ev | lia].
  - destruct (frames_loop_exit _ _ _ _ _ _ _ _ _ E C) as [Hr ->].
    inversion Hr; subst.
    exists [], 0%nat. rewrite app_nil_r. simpl.
    repeat split; auto; lia.
Qed.

(** The decode loop numbers the frames it asks for consecutively from
    [current_frame], counts each as decoded, and ends right after the last
    frame of the plan. *)
Lemma decode_loop_seen fuel : forall enc vf total off cf vi (m : machine) u m',
  decode_loop fuel enc vf total off cf vi m = Ok (u, m') ->
  exists evs k,
    trace m' = trace m ++ evs
    /\ seen_frames evs = arith_seq cf 1 k
    /\ total_frames_decoded m' = total_frames_decoded m + Z.of_nat k
    /\ drain_calls evs = 0%nat
    /\ (total <= vi -> evs = [])
    /\ (vi < total ->
        nth_error vf (Z.to_nat (total - 1)) = Some (cf + Z.of_nat k - 1)
        /\ (0 < k)%nat).
Proof.
  induction fuel as [|fuel IH]; intros enc vf total off cf vi m u m' E;
    [discriminate|].
  destruct (Z.lt_ge_cases vi total) as [C | C].
  - destruct (decode_loop_turn _ _ _ _ _ _ _ _ _ _ E C)
      as (p & n & off' & nf & m2 & pos & m3 & m4 & Ep & Ef & El & Ew & Er).
    apply call_feed_effect in Ef. destruct Ef as [Ef _].
    apply write_discontinuity_effect in Ew.
    apply IH in Er. destruct Er as (evs2 & k2 & Ht2 & Hs2 & Hd2 & Hdr2 & Hc2 & Hb2).
    assert (exists evs1 k1,
               trace m3 = trace m2 ++ evs1
               /\ seen_frames evs1 = arith_seq cf 1 k1
               /\ fst pos = cf + Z.of_nat k1
               /\ total_frames_decoded m3 = total_frames_decoded m2 + Z.of_nat k1
               /\ drain_calls evs1 = 0%nat
               /\ snd pos <= total
               /\ (snd pos = total ->
                   nth_error vf (Z.to_nat (total - 1)) = Some (fst pos - 1)
                   /\ (0 < k1)%nat))
      as (evs1 & k1 & Ht1 & Hs1 & Hcf1 & Hd1 & Hdr1 & Hle1 & Hb1).
    { destruct nf.
      - destruct pos as [cf1 vi1].
        apply frames_loop_seen in El.
        destruct El as (evs1 & k1 & Ht & Hs & Hcf & Hd & Hdr & Hle & _ & Hlast).
        exists evs1, k1. cbn [fst snd].
        repeat split; auto; try lia; apply Hlast; auto.
      - apply ret_Ok_inv in El. destruct El as [-> ->].
        exists [], 0%nat. cbn [fst snd]. rewrite app_nil_r.
        repeat split; auto; lia. }
    exists ((([EvFeed n (discontinuity_ (self m))] ++ evs1)
             ++ [EvSetDiscontinuity (n =? 0)]) ++ evs2), (k1 + k2)%nat.
    rewrite Ht2, (effect_trace _ _ _ _ Ew), Ht1, (effect_trace _ _ _ _ Ef).
    rewrite Hd2, (effect_decoded _ _ _ _ Ew), Hd1, (effect_decoded _ _ _ _ Ef).
    rewrite !seen_frames_app, !drain_calls_app, Hs1, Hs2, Hdr1, Hdr2, Hcf1.
    rewrite arith_seq_app, !app_assoc.
    cbn [seen_frames flat_map drain_calls app length Nat.add].
    rewrite app_nil_r, Z.mul_1_r.
    split; [reflexivity|]. split; [reflexivity|]. split; [lia|].
    split; [reflexivity|]. split; [lia|].
    intros _. destruct (Z.lt_ge_cases (snd pos) total) as [Hlt | Hge].
    + destruct (Hb2 Hlt) as [Hn Hk]. rewrite Hcf1 in Hn.
      split; [rewrite Hn; f_equal; lia | lia].
    + assert (snd pos = total) as Heq by lia.
      destruct (Hb1 Heq) as [Hn Hk]. rewrite (Hc2 Hge) in Hs2.
      destruct k2; [|discriminate].
      rewrite Hcf1 in Hn. split; [rewrite Hn; f_equal; lia | lia].
  - rewrite (decode_loop_exit _ _ _ _ _ _ _ _ _ _ E C).
    exists [], 0%nat. rewrite app_nil_r. simpl.
    repeat split; auto; lia.
Qed.

(** The drain calls [discard_frame] until it answers false and counts every
    call but that last one. *)
Lemma drain_loop_calls fuel : forall (m : machine) u m',
  drain_loop fuel m = Ok (u, m') ->
  exists j,
    trace m' = trace m ++ repeat EvDrainFrame (S j)
    /\ total_frames_decoded m' = total_frames_decoded m + Z.of_nat j.
Proof.
  induction fuel as [|fuel IH]; intros m u m' E; [discriminate|].
  cbn [drain_loop] in E.
  apply bind_Ok_inv in E. destruct E as (had & m1 & Ed & E).
  apply drain_frame_effect in Ed.
  destruct had.
  - apply bind_Ok_inv in E. destruct E as (u1 & m2 & Ei & E).
    apply incr_decoded_effect in Ei.
    apply IH in E. destruct E as (j & Ht & Hd).
    exists (S j).
    rewrite Ht, (effect_trace _ _ _ _ Ei), (effect_trace _ _ _ _ Ed).
    rewrite Hd, (effect_decoded _ _ _ _ Ei), (effect_decoded _ _ _ _ Ed).
    rewrite app_nil_r, <- app_assoc. split; [reflexivity | lia].
  - apply ret_Ok_inv in E. destruct E as [_ ->].
    exists 0%nat.
    rewrite (effect_trace _ _ _ _ Ed), (effect_decoded _ _ _ _ Ed).
    split; [reflexivity | lia].
Qed.

Lemma drain_calls_repeat n : drain_calls (repeat EvDrainFrame n) = n.
Proof. induction n; simpl; auto. unfold drain_calls in *. simpl. auto. Qed.

Lemma seen_frames_repeat_drain n : seen_frames (repeat EvDrainFrame n) = [].
Proof. induction n; simpl; auto. Qed.

Lemma kept_frames_repeat_drain n : kept_frames (repeat EvDrainFrame n) = [].
Proof. induction n; simpl; auto. Qed.

Lemma feed_sizes_repeat_drain n : feed_sizes (repeat EvDrainFrame n) = [].
Proof. induction n; simpl; auto. Qed.

Lemma drain_calls_of fuel (m : machine) u m' :
  drain fuel m = Ok (u, m') ->
  exists d,
    trace m' = trace m ++ repeat EvDrainFrame d
    /\ total_frames_decoded m' = total_frames_decoded m + Z.of_nat (Nat.pred d)
    /\ (d = 0%nat <->
        decoded_frames_buffered (wait_until_frames_copied (decoder_ (self m)))
        <= 0).
Proof.
  unfold drain. intros E.
  apply bind_Ok_inv in E. destruct E as (e & m1 & Eg & E).
  unfold get_self in Eg. inversion Eg; subst; clear Eg.
  apply bind_Ok_inv in E. destruct E as (u1 & m2 & Es & E).
  unfold set_self in Es. inversion Es; subst; clear Es.
  destruct (Z.ltb_spec 0 (decoded_frames_buffered
                            (wait_until_frames_copied (decoder_ (self m1)))))
    as [Hpos | Hneg].
  - apply drain_loop_calls in E. destruct E as (j & Ht & Hd).
    exists (S j). simpl in *. rewrite Ht, Hd.
    split; [reflexivity|]. split; [reflexivity|]. split; [discriminate | lia].
  - apply ret_Ok_inv in E. destruct E as [_ ->].
    exists 0%nat. simpl. rewrite app_nil_r.
    split; [reflexivity|]. split; [lia|]. tauto.
Qed.

(** The trace of one processed input: the plan's assignment, the decode
    loop, the drain, and [needs_warmup_ = false]. *)
Lemma process_item_trace fuel args enc (m : machine) u m' :
  process_item fuel args enc m = Ok (u, m') ->
  exists vf m1 m2 evs1 k d,
    sampling_plan fuel args m = Ok (vf, m1)
    /\ decode_loop fuel enc vf (cast_i32 (Z.of_nat (length vf)))
                   0 (start_keyframe args) 0 m1 = Ok (tt, m2)
    /\ trace m2 = trace m1 ++ evs1
    /\ trace m' =
       trace m
       ++ (if forces_discontinuity (sampling args)
           then [EvSetDiscontinuity true] else [])
       ++ evs1 ++ repeat EvDrainFrame d ++ [EvSetNeedsWarmup false]
    /\ seen_frames evs1 = arith_seq (start_keyframe args) 1 k
    /\ drain_calls evs1 = 0%nat
    /\ total_frames_decoded m'
       = total_frames_decoded m + Z.of_nat k + Z.of_nat (Nat.pred d)
    /\ (cast_i32 (Z.of_nat (length vf)) <= 0 -> evs1 = [])
    /\ (0 < cast_i32 (Z.of_nat (length vf)) ->
        nth_error vf (Z.to_nat (cast_i32 (Z.of_nat (length vf)) - 1))
        = Some (start_keyframe args + Z.of_nat k - 1)
        /\ (0 < k)%nat).
Proof.
  intros E.
  destruct (process_item_stages _ _ _ _ _ _ E)
    as (vf & m1 & m2 & m3 & Ep & El & Ed & Ew).
  pose proof (sampling_plan_Ok _ _ _ _ _ Ep) as (He0 & _ & _).
  destruct (decode_loop_seen _ _ _ _ _ _ _ _ _ _ El)
    as (evs1 & k & Ht1 & Hs1 & Hd1 & Hdr1 & Hc1 & Hb1).
  destruct (drain_calls_of _ _ _ _ Ed) as (d & Ht2 & Hd2 & _).
  apply write_needs_warmup_effect in Ew.
  exists vf, m1, m2, evs1, k, d.
  split; [exact Ep|]. split; [exact El|]. split; [exact Ht1|].
  rewrite (effect_trace _ _ _ _ Ew), Ht2, Ht1, (effect_trace _ _ _ _ He0).
  rewrite (effect_decoded _ _ _ _ Ew), Hd2, Hd1, (effect_decoded _ _ _ _ He0).
  rewrite <- !app_assoc.
  split; [reflexivity|]. split; [exact Hs1|]. split; [exact Hdr1|].
  split; [lia|]. split; [exact Hc1 | exact Hb1].
Qed.

Lemma strictly_increasing_cons x l :
  Forall (fun y => x < y) l -> strictly_increasing l = true ->
  strictly_increasing (x :: l) = true.
Proof.
  intros Hall Hl. destruct l as [|y l]; [reflexivity|].
  change (strictly_increasing (x :: y :: l))
    with ((x <? y) && strictly_increasing (y :: l)).
  rewrite Hl. inversion Hall; subst.
  replace (x <? y) with true by (symmetry; apply Z.ltb_lt; assumption).
  reflexivity.
Qed.

(** Frames kept out of consecutively numbered frames are strictly
    increasing. *)
Lemma kept_of_consecutive evs : forall cf k,
  seen_frames evs = arith_seq cf 1 k ->
  strictly_increasing (kept_frames evs) = true
  /\ Forall (fun x => cf <= x < cf + Z.of_nat k) (kept_frames evs).
Proof.
  induction evs as [|ev evs IH]; intros cf k Hs; [split; [reflexivity | constructor]|].
  destruct ev; cbn [seen_frames kept_frames flat_map app] in *;
    fold (seen_frames evs) in *; fold (kept_frames evs) in *;
    try (apply IH; assumption).
  - destruct k as [|k]; [discriminate|]. cbn [arith_seq] in Hs.
    inversion Hs; subst. destruct (IH _ _ H2) as [Hinc Hall].
    split.
    + apply strictly_increasing_cons; [|assumption].
      eapply Forall_impl; [|exact Hall]. simpl. intros; lia.
    + constructor; [lia|].
      eapply Forall_impl; [|exact Hall]. simpl. intros; lia.
  - destruct k as [|k]; [discriminate|]. cbn [arith_seq] in Hs.
    inversion Hs; subst. destruct (IH _ _ H2) as [Hinc Hall].
    split; [assumption|].
    eapply Forall_impl; [|exact Hall]. simpl. intros; lia.
Qed.

Lemma process_item_summary fuel args enc (m : machine) u m' :
  process_item fuel args enc m = Ok (u, m') ->
  exists vf m1 evs k,
    sampling_plan fuel args m = Ok (vf, m1)
    /\ trace m' = trace m ++ evs
    /\ seen_frames evs = arith_seq (start_keyframe args) 1 k
    /\ total_frames_decoded m'
       = total_frames_decoded m + Z.of_nat k
         + Z.of_nat (Nat.pred (drain_calls evs))
    /\ (cast_i32 (Z.of_nat (length vf)) <= 0 ->
        k = 0%nat /\ feed_sizes evs = [] /\ kept_frames evs = [])
    /\ (0 < cast_i32 (Z.of_nat (length vf)) ->
        nth_error vf (Z.to_nat (cast_i32 (Z.of_nat (length vf)) - 1))
        = Some (start_keyframe args + Z.of_nat k - 1)
        /\ (0 < k)%nat).
Proof.
  intros E.
  destruct (process_item_trace _ _ _ _ _ _ E)
    as (vf & m1 & m2 & evs1 & k & d & Ep & _ & _ & Ht & Hs & Hdr & Hd & Hc & Hb).
  exists vf, m1. eexists. exists k.
  split; [exact Ep|]. split; [exact Ht|].
  rewrite !seen_frames_app, !drain_calls_app, !feed_sizes_app, !kept_frames_app.
  rewrite seen_frames_repeat_drain, drain_calls_repeat, Hs, Hdr,
    feed_sizes_repeat_drain, kept_frames_repeat_drain.
  destruct (forces_discontinuity (sampling args));
    cbn [seen_frames drain_calls feed_sizes kept_frames flat_map app length Nat.add];
    rewrite ?app_nil_r, ?Nat.add_0_r.
  all: split; [reflexivity|]; split; [exact Hd|]; split; [|exact Hb].
  all: intros Hz; rewrite (Hc Hz) in *; simpl in Hs;
    destruct k; [auto | discriminate].
Qed.

(** X4: while an input is processed, the frames the decoder is asked for
    (kept or discarded) are numbered consecutively from [start_keyframe],
    and [total_frames_decoded] grows by their number plus the number of
    [discard_frame] calls of the final drain but the last: the call that
    answers false is not counted. *)
Theorem decoded_frames_accounting fuel args enc (m : machine) u m' :
  process_item fuel args enc m = Ok (u, m') ->
  exists evs,
    trace m' = trace m ++ evs
    /\ seen_frames evs
       = arith_seq (start_keyframe args) 1 (length (seen_frames evs))
    /\ total_frames_decoded m'
       = total_frames_decoded m + Z.of_nat (length (seen_frames evs))
         + Z.of_nat (Nat.pred (drain_calls evs)).
Proof.
  intros E.
  destruct (process_item_summary _ _ _ _ _ _ E)
    as (vf & m1 & evs & k & _ & Ht & Hs & Hd & _).
  exists evs. rewrite Hs, arith_seq_length. auto.
Qed.

(** X5: when the processing of an input with a non-empty plan ends, the
    decode loop has asked the decoder for exactly the frames from
    [start_keyframe] to the last frame of the plan, that one included: it
    decodes nothing past the last frame it keeps (plans of at most
    [max_i32] frames). *)
Theorem decodes_up_to_last_planned fuel args enc (m : machine) u m' vf m1 :
  process_item fuel args enc m = Ok (u, m') ->
  sampling_plan fuel args m = Ok (vf, m1) ->
  vf <> [] -> Z.of_nat (length vf) <= max_i32 ->
  exists evs,
    trace m' = trace m ++ evs
    /\ seen_frames evs = index_range (start_keyframe args) (last vf 0 + 1)
    /\ start_keyframe args <= last vf 0.
Proof.
  intros E Ep Hne Hlen.
  destruct (process_item_summary _ _ _ _ _ _ E)
    as (vf' & m1' & evs & k & Ep' & Ht & Hs & _ & _ & Hb).
  rewrite Ep in Ep'. inversion Ep'; subst vf' m1'.
  rewrite cast_i32_small in Hb by lia.
  assert (0 < length vf)%nat as Hpos by (destruct vf; [contradiction | simpl; lia]).
  destruct Hb as [Hn Hk]; [lia|].
  assert (last vf 0 = start_keyframe args + Z.of_nat k - 1) as Hlast.
  { replace (Z.to_nat (Z.of_nat (length vf) - 1)) with (length vf - 1)%nat in Hn by lia.
    destruct vf as [|x vf] using rev_ind; [contradiction|].
    rewrite length_app in Hn. simpl in Hn.
    rewrite nth_error_app2 in Hn by lia.
    replace (length vf + 1 - 1 - length vf)%nat with 0%nat in Hn by lia.
    simpl in Hn. inversion Hn. apply last_last. }
  exists evs. split; [exact Ht|]. split; [|lia].
  rewrite Hs. unfold index_range. f_equal. lia.
Qed.

(** X6: the processing of an input ends only if its plan is strictly
    increasing and asks for no frame before [start_keyframe]: a plan in any
    other order (gather points out of order or repeated, a start behind the
    keyframe) is never completed (plans of at most [max_i32] frames). *)
Theorem completed_plan_increasing fuel args enc (m : machine) u m' vf m1 :
  process_item fuel args enc m = Ok (u, m') ->
  sampling_plan fuel args m = Ok (vf, m1) ->
  Z.of_nat (length vf) <= max_i32 ->
  strictly_increasing vf = true
  /\ Forall (fun x => start_keyframe args <= x) vf.
Proof.
  intros E Ep Hlen.
  destruct (process_item_summary _ _ _ _ _ _ E)
    as (vf' & m1' & evs & k & _ & Ht & Hs & _).
  destruct (process_item_keeps_plan _ _ _ _ _ _ _ _ E Ep Hlen)
    as (evs' & dd & He & Hk & _).
  apply effect_trace in He. rewrite Ht in He. apply app_inv_head in He.
  subst evs'.
  destruct (kept_of_consecutive _ _ _ Hs) as [Hinc Hall].
  rewrite Hk in *. split; [exact Hinc|].
  eapply Forall_impl; [|exact Hall]. simpl. intros; lia.
Qed.

(** *** The packets fed to the decoder *)

Lemma next_packet_at_end buf off :
  Z.of_nat (length buf) <= off -> next_packet buf off = Ok (None, 0, off).
Proof.
  intros Hoff. unfold next_packet.
  replace (off <? _) with false by (symmetry; apply Z.ltb_ge; assumption).
  reflexivity.
Qed.




(** *** What is appended to the output *)

Lemma appended0_trans {A : Type} (v v1 v2 : list (list A)) a b :
  appended0 v v1 a -> appended0 v1 v2 b -> appended0 v v2 (a ++ b).
Proof.
  intros H1 H2. inversion H1; subst; inversion H2; subst; simpl.
  - constructor.
  - constructor.
  - rewrite app_nil_r. constructor.
  - rewrite <- app_assoc. constructor.
Qed.

Lemma appended0_size {A : Type} (v v' : list (list A)) new :
  appended0 v v' new -> column0_size v' = (column0_size v + length new)%nat.
Proof.
  intros H1. inversion H1; subst; simpl; [lia|]. apply length_app.
Qed.

Lemma same_configuration_refl (e : DecoderEvaluator VideoDecoderType D) :
  same_configuration e e.
Proof. repeat split. Qed.

Lemma same_configuration_trans (e e1 e2 : DecoderEvaluator VideoDecoderType D) :
  same_configuration e e1 -> same_configuration e1 e2 -> same_configuration e e2.
Proof.
  unfold same_configuration.
  intros (A1 & A2 & A3 & A4 & A5) (B1 & B2 & B3 & B4 & B5).
  repeat split; congruence.
Qed.

Lemma grown_same (m m' : machine) :
  same_configuration (self m) (self m') ->
  output_buffers m' = output_buffers m -> output_sizes m' = output_sizes m ->
  grown m m' [].
Proof.
  intros Hc Hb Hs. unfold grown. rewrite Hb, Hs.
  split; [exact Hc|]. split; [constructor|].
  destruct (frame_size_ (self m)); simpl; [constructor | auto].
Qed.

Lemma grown_refl (m : machine) : grown m m [].
Proof. apply grown_same; auto using same_configuration_refl. Qed.

Lemma grown_trans (m m1 m2 : machine) a b :
  grown m m1 a -> grown m1 m2 b -> grown m m2 (a ++ b).
Proof.
  unfold grown. intros (Hc1 & Hb1 & Hs1) (Hc2 & Hb2 & Hs2).
  split; [eapply same_configuration_trans; eauto|].
  split; [eapply appended0_trans; eauto|].
  replace (frame_size_ (self m1)) with (frame_size_ (self m)) in Hs2
    by (symmetry; apply Hc1).
  destruct (frame_size_ (self m)) as [fs|].
  - rewrite length_app, repeat_app. eapply appended0_trans; eauto.
  - destruct Hs1 as [-> Hs1], Hs2 as [-> Hs2]. split; [reflexivity|congruence].
Qed.

Lemma write_discontinuity_grown b (m : machine) u m' :
  write_discontinuity b m = Ok (u, m') -> grown m m' [].
Proof.
  unfold write_discontinuity, bind, get_self, set_self, emit. intros E.
  inversion E; subst. apply grown_same; simpl; repeat split.
Qed.

Lemma write_needs_warmup_grown b (m : machine) u m' :
  write_needs_warmup b m = Ok (u, m') -> grown m m' [].
Proof.
  unfold write_needs_warmup, bind, get_self, set_self, emit. intros E.
  inversion E; subst. apply grown_same; simpl; repeat split.
Qed.

Lemma incr_decoded_grown (m : machine) u m' :
  incr_decoded m = Ok (u, m') -> grown m m' [].
Proof.
  unfold incr_decoded, incr_i64. intros E.
  destruct (total_frames_decoded m <? max_i64); simpl in E; inversion E; subst.
  apply grown_same; simpl; repeat split.
Qed.

Lemma call_feed_grown p n (m : machine) b m' :
  call_feed p n m = Ok (b, m') -> grown m m' [].
Proof.
  unfold call_feed, bind, get_self.
  destruct (feed p n (discontinuity_ (self m)) (decoder_ (self m))) as [nf d].
  unfold set_self, emit, ret. intros E.
  inversion E; subst. apply grown_same; simpl; repeat split.
Qed.

Lemma drop_frame_grown cf (m : machine) b m' :
  drop_frame cf m = Ok (b, m') -> grown m m' [].
Proof.
  unfold drop_frame, bind, get_self.
  destruct (discard_frame (decoder_ (self m))) as [more d].
  unfold set_self, emit, ret. intros E.
  inversion E; subst. apply grown_same; simpl; repeat split.
Qed.

Lemma drain_frame_grown (m : machine) b m' :
  drain_frame m = Ok (b, m') -> grown m m' [].
Proof.
  unfold drain_frame, bind, get_self.
  destruct (discard_frame (decoder_ (self m))) as [had d].
  unfold set_self, emit, ret. intros E.
  inversion E; subst. apply grown_same; simpl; repeat split.
Qed.

Lemma push_back0_appended {A : Type} (v : list (list A)) x v' :
  push_back0 v x = Ok v' -> appended0 v v' [x].
Proof.
  destruct v; simpl; intros E; inversion E; subst. constructor.
Qed.

(** A kept frame is the buffer [get_frame] filled, of [frame_size_] bytes
    asked. *)
Lemma keep_frame_grown cf (m : machine) b m' :
  keep_frame cf m = Ok (b, m') ->
  exists fs,
    frame_size_ (self m) = Some fs
    /\ grown m m' [fst (fst (get_frame fs (decoder_ (self m))))].
Proof.
  unfold keep_frame. intros E.
  apply bind_Ok_inv in E. destruct E as (e & m1 & E1 & E).
  unfold get_self in E1. inversion E1; subst; clear E1.
  apply bind_Ok_inv in E. destruct E as (size & m2 & E2 & E).
  apply lift_Ok_inv in E2. destruct E2 as [E2 ->].
  destruct (frame_size_ (self m1)) as [fs|] eqn:Hfs; [|discriminate].
  inversion E2; subst size; clear E2.
  exists fs. split; [reflexivity|].
  destruct (get_frame fs (decoder_ (self m1))) as [[buf more] d].
  unfold bind, set_self, emit, push_output, incr_used, ret in E. simpl in E.
  destruct (push_back0 (output_buffers m1) buf) as [ob| | |] eqn:Eb;
    simpl in E; try discriminate.
  destruct (push_back0 (output_sizes m1) fs) as [os| | |] eqn:Es;
    simpl in E; try discriminate.
  unfold incr_i64 in E. simpl in E.
  destruct (total_frames_used m1 <? max_i64); simpl in E; inversion E; subst.
  apply push_back0_appended in Eb, Es.
  unfold grown. simpl. rewrite Hfs.
  split; [repeat split; simpl; auto|]. split; assumption.
Qed.

Lemma frames_loop_grown fuel : forall vf total more cf vi (m : machine) r m',
  frames_loop fuel vf total more cf vi m = Ok (r, m') ->
  exists frames, grown m m' frames.
Proof.
  induction fuel as [|fuel IH]; intros vf total more cf vi m r m' E;
    [discriminate|].
  destruct (more && (vi <? total)) eqn:C.
  - destruct (frames_loop_turn _ _ _ _ _ _ _ _ _ E C)
      as (v & more1 & m2 & m3 & vi1 & _ & Hk & Hi & Hr).
    apply incr_decoded_grown in Hi.
    apply IH in Hr. destruct Hr as (fr & Hr).
    destruct (cf =? v).
    + destruct Hk as [Hk _]. apply keep_frame_grown in Hk.
      destruct Hk as (fs & _ & Hk).
      eexists. exact (grown_trans _ _ _ _ _ (grown_trans _ _ _ _ _ Hk Hi) Hr).
    + destruct Hk as [Hk _]. apply drop_frame_grown in Hk.
      eexists. exact (grown_trans _ _ _ _ _ (grown_trans _ _ _ _ _ Hk Hi) Hr).
  - apply frames_loop_exit in E; [|exact C]. destruct E as [_ ->].
    exists []. apply grown_refl.
Qed.

Lemma decode_loop_grown fuel : forall enc vf total off cf vi (m : machine) u m',
  decode_loop fuel enc vf total off cf vi m = Ok (u, m') ->
  exists frames, grown m m' frames.
Proof.
  induction fuel as [|fuel IH]; intros enc vf total off cf vi m u m' E;
    [discriminate|].
  destruct (Z_lt_le_dec vi total) as [Hlt|Hge].
  - destruct (decode_loop_turn _ _ _ _ _ _ _ _ _ _ E Hlt)
      as (p & n & off' & nf & m2 & pos & m3 & m4 & _ & Hf & Hi & Hw & Hr).
    apply call_feed_grown in Hf.
    apply write_discontinuity_grown in Hw.
    apply IH in Hr. destruct Hr as (fr & Hr).
    assert (exists fi, grown m2 m3 fi) as (fi & Hfi).
    { destruct nf.
      - eapply frames_loop_grown; eauto.
      - apply ret_Ok_inv in Hi. destruct Hi as [_ ->].
        exists []. apply grown_refl. }
    eexists.
    exact (grown_trans _ _ _ _ _
             (grown_trans _ _ _ _ _ (grown_trans _ _ _ _ _ Hf Hfi) Hw) Hr).
  - apply decode_loop_exit in E; [|exact Hge]. subst m'.
    exists []. apply grown_refl.
Qed.

Lemma drain_loop_grown fuel : forall (m : machine) u m',
  drain_loop fuel m = Ok (u, m') -> grown m m' [].
Proof.
  induction fuel as [|fuel IH]; intros m u m' E; [discriminate|].
  cbn [drain_loop] in E.
  apply bind_Ok_inv in E. destruct E as (had & m1 & Ed & E).
  apply drain_frame_grown in Ed.
  destruct had.
  - apply bind_Ok_inv in E. destruct E as (u1 & m2 & Ei & E).
    apply incr_decoded_grown in Ei. apply IH in E.
    exact (grown_trans _ _ _ _ _ (grown_trans _ _ _ _ _ Ed Ei) E).
  - apply ret_Ok_inv in E. destruct E as [_ ->]. exact Ed.
Qed.

Lemma drain_grown fuel (m : machine) u m' :
  drain fuel m = Ok (u, m') -> grown m m' [].
Proof.
  unfold drain. intros E.
  apply bind_Ok_inv in E. destruct E as (e & m1 & Eg & E).
  unfold get_self in Eg. inversion Eg; subst; clear Eg.
  apply bind_Ok_inv in E. destruct E as (u1 & m2 & Es & E).
  assert (grown m1 m2 []) as H1.
  { unfold set_self in Es. inversion Es; subst.
    apply grown_same; simpl; repeat split. }
  destruct (0 <? decoded_frames_buffered
                   (wait_until_frames_copied (decoder_ (self m1)))).
  - apply drain_loop_grown in E. exact (grown_trans _ _ _ _ _ H1 E).
  - apply ret_Ok_inv in E. destruct E as [_ ->]. exact H1.
Qed.

Lemma sampling_plan_grown fuel args (m : machine) vf m' :
  sampling_plan fuel args m = Ok (vf, m') -> grown m m' [].
Proof.
  intros E.
  destruct (forces_discontinuity (sampling args)) eqn:Hf.
  - unfold sampling_plan in E.
    apply bind_Ok_inv in E. destruct E as (e & m1 & Eg & E).
    unfold get_self in Eg. inversion Eg; subst; clear Eg.
    destruct (sampling args); try discriminate Hf.
    + apply bind_Ok_inv in E. destruct E as (s & m2 & Ea & E).
      apply lift_Ok_inv in Ea. destruct Ea as [Ea ->].
      apply bind_Ok_inv in E. destruct E as (r & m2 & Ep & E).
      apply lift_Ok_inv in Ep. destruct Ep as [Ep ->].
      apply bind_Ok_inv in E. destruct E as (u & m2 & Ew & E).
      apply ret_Ok_inv in E. destruct E as [_ ->].
      eapply write_discontinuity_grown; eauto.
    + destruct (gather_sequences args) as [|iv [|iv' rest]].
      * apply lift_Ok_inv in E. destruct E as [E _]. discriminate.
      * apply bind_Ok_inv in E. destruct E as (s & m2 & Ea & E).
        apply lift_Ok_inv in Ea. destruct Ea as [Ea ->].
        apply bind_Ok_inv in E. destruct E as (r & m2 & Ep & E).
        apply lift_Ok_inv in Ep. destruct Ep as [Ep ->].
        apply bind_Ok_inv in E. destruct E as (u & m2 & Ew & E).
        apply ret_Ok_inv in E. destruct E as [_ ->].
        eapply write_discontinuity_grown; eauto.
      * apply lift_Ok_inv in E. destruct E as [E _]. discriminate.
  - apply sampling_plan_Ok in E. destruct E as (_ & Hsame & _).
    rewrite (Hsame Hf). apply grown_refl.
Qed.

Lemma process_item_grown fuel args enc (m : machine) u m' :
  process_item fuel args enc m = Ok (u, m') ->
  exists frames, grown m m' frames.
Proof.
  intros E.
  destruct (process_item_stages _ _ _ _ _ _ E)
    as (vf & m1 & m2 & m3 & Hp & Hd & Hr & Hw).
  apply sampling_plan_grown in Hp.
  apply decode_loop_grown in Hd. destruct Hd as (fr & Hd).
  apply drain_grown in Hr.
  apply write_needs_warmup_grown in Hw.
  eexists.
  exact (grown_trans _ _ _ _ _
           (grown_trans _ _ _ _ _ (grown_trans _ _ _ _ _ Hp Hd) Hr) Hw).
Qed.

Lemma for_inputs_grown fuel ib count : forall i (m : machine) u m',
  for_inputs (evaluate_item HAVE_CUDA deserialize_decode_args fuel ib) i count m
  = Ok (u, m') ->
  exists frames, grown m m' frames.
Proof.
  induction count as [|count IH]; intros i m u m' E.
  - apply ret_Ok_inv in E. destruct E as [_ ->]. exists []. apply grown_refl.
  - cbn [for_inputs] in E.
    apply bind_Ok_inv in E. destruct E as (u1 & m1 & Ei & E).
    apply evaluate_item_Ok in Ei. destruct Ei as (args & enc & Ei).
    apply process_item_grown in Ei. destruct Ei as (f1 & H1).
    apply IH in E. destruct E as (f2 & H2).
    eexists. exact (grown_trans _ _ _ _ _ H1 H2).
Qed.

Lemma evaluate_grown fuel e ib ob os (m' : machine) :
  evaluate HAVE_CUDA deserialize_decode_args fuel e ib ob os = Ok m' ->
  exists frames,
    grown (enter e ob os) m' frames
    /\ Z.of_nat (length frames) = total_frames_used m'.
Proof.
  intros E.
  destruct (evaluate_Ok _ _ _ _ _ _ _ _ E) as (evs & dd & He & _).
  unfold evaluate in E.
  destruct (for_inputs _ 0 (num_inputs ib) (enter e ob os))
    as [[u m1]| | |] eqn:Ef; try discriminate.
  inversion E; subst m1; clear E.
  apply for_inputs_grown in Ef. destruct Ef as (frames & Hg).
  exists frames. split; [exact Hg|].
  destruct He as (_ & Hu & _ & Hb & _).
  destruct Hg as (_ & Hg & _). apply appended0_size in Hg.
  simpl in *. lia.
Qed.

(** X8: a call of [evaluate] that returns has appended buffers to channel 0
    of the output and nothing else: what was in the output before, on every
    channel, is still there; one size was appended per buffer, each the
    [frame_size_] of the engine; the number of buffers is the
    [total_frames_used] reported; and the members set by the constructor and
    by [configure] are as before.  An engine that was never configured
    appends nothing. *)
Theorem evaluate_appends_frames fuel e ib ob os (m' : machine) :
  evaluate HAVE_CUDA deserialize_decode_args fuel e ib ob os = Ok m' ->
  exists frames,
    appended0 ob (output_buffers m') frames
    /\ Z.of_nat (length frames) = total_frames_used m'
    /\ match frame_size_ e with
       | Some fs => appended0 os (output_sizes m') (repeat fs (length frames))
       | None => frames = [] /\ output_sizes m' = os
       end
    /\ same_configuration e (self m').
Proof.
  intros E. apply evaluate_grown in E.
  destruct E as (frames & (Hc & Hb & Hs) & Hn).
  exists frames. auto.
Qed.

(** X9: on an engine configured for [width] x [height] frames, every size
    [evaluate] appends to the output is [width * height * 3], the product
    taken on [i32] and converted to [size_t]; [configure] itself answers
    only when the product does not overflow [i32], and leaves both flags as
    they were. *)
Theorem configured_frame_size md e0 e fuel ib ob os (m' : machine) :
  configure md e0 = Ok e ->
  evaluate HAVE_CUDA deserialize_decode_args fuel e ib ob os = Ok m' ->
  in_i32 (width md * height md * 3) = true
  /\ needs_warmup_ e = needs_warmup_ e0
  /\ discontinuity_ e = discontinuity_ e0
  /\ metadata_ (self m') = Some md
  /\ exists n,
       Z.of_nat n = total_frames_used m'
       /\ appended0 os (output_sizes m')
                    (repeat (wrap_size_t (width md * height md * 3)) n).
Proof.
  intros Ec E. unfold configure in Ec.
  apply rbind_Ok_inv in Ec. destruct Ec as (wh & Ewh & Ec).
  apply rbind_Ok_inv in Ec. destruct Ec as (fs & Efs & Ec).
  apply mul_i32_Ok_inv in Ewh. destruct Ewh as [-> _].
  apply mul_i32_Ok_inv in Efs. destruct Efs as [-> Hin].
  inversion Ec; subst e; clear Ec.
  apply evaluate_grown in E.
  destruct E as (frames & (Hc & Hb & Hs) & Hn). simpl in *.
  split; [exact Hin|]. split; [reflexivity|]. split; [reflexivity|].
  split; [apply Hc|].
  exists (length frames). auto.
Qed.

(** *** Where the asserts fail *)

Lemma bind_Abort_inv {A B : Type} (c : M A) (k : A -> M B) (m : machine) :
  bind c k m = Abort ->
  c m = Abort \/ exists a m1, c m = Ok (a, m1) /\ k a m1 = Abort.
Proof.
  unfold bind. destruct (c m) as [[a m1]| | |]; intros E; try discriminate;
    eauto.
Qed.

Lemma lift_Abort_inv {A : Type} (r : result A) (m : machine) :
  lift r m = Abort -> r = Abort.
Proof. unfold lift. destruct r; simpl; intros E; congruence. Qed.

Lemma add_i32_no_abort a b : add_i32 a b <> Abort.
Proof. unfold add_i32. destruct (in_i32 (a + b)); discriminate. Qed.

Lemma mul_i32_no_abort a b : mul_i32 a b <> Abort.
Proof. unfold mul_i32. destruct (in_i32 (a * b)); discriminate. Qed.

Lemma push_range_no_abort fuel : forall s e vf, push_range fuel s e vf <> Abort.
Proof.
  induction fuel as [|fuel IH]; intros s e vf; simpl; [discriminate|].
  destruct (s <? e); [|discriminate].
  unfold add_i32. destruct (in_i32 (s + 1)); simpl; [apply IH | discriminate].
Qed.

Lemma push_strided_no_abort fuel : forall s e st vf,
  push_strided fuel s e st vf <> Abort.
Proof.
  induction fuel as [|fuel IH]; intros s e st vf; simpl; [discriminate|].
  destruct (s <? e); [|discriminate].
  unfold add_i32. destruct (in_i32 (s + st)); simpl; [apply IH | discriminate].
Qed.

Lemma push_gather_no_abort fuel : forall points s vf,
  push_gather fuel points s vf <> Abort.
Proof.
  induction fuel as [|fuel IH]; intros points s vf; simpl; [discriminate|].
  destruct (s <? Z.of_nat (length points)); [|discriminate].
  unfold gather_point. destruct (s <? 0); simpl; [discriminate|].
  destruct (nth_error points (Z.to_nat s)); simpl; [|discriminate].
  unfold add_i32. destruct (in_i32 (s + 1)); simpl; [apply IH | discriminate].
Qed.

Lemma warm_start_no_abort (nw : bool) a w :
  (if negb nw then add_i32 a w else Ok a) <> Abort.
Proof. destruct nw; simpl; [discriminate | apply add_i32_no_abort]. Qed.

Lemma write_discontinuity_no_abort b (m : machine) :
  write_discontinuity b m <> Abort.
Proof. unfold write_discontinuity, bind, get_self, set_self, emit. discriminate. Qed.

Lemma incr_decoded_no_abort (m : machine) : incr_decoded m <> Abort.
Proof.
  unfold incr_decoded, incr_i64.
  destruct (total_frames_decoded m <? max_i64); simpl; discriminate.
Qed.

Lemma call_feed_no_abort p n (m : machine) : call_feed p n m <> Abort.
Proof.
  unfold call_feed, bind, get_self.
  destruct (feed p n (discontinuity_ (self m)) (decoder_ (self m))) as [nf d].
  unfold set_self, emit, ret. discriminate.
Qed.

Lemma drop_frame_no_abort cf (m : machine) : drop_frame cf m <> Abort.
Proof.
  unfold drop_frame, bind, get_self.
  destruct (discard_frame (decoder_ (self m))) as [more d].
  unfold set_self, emit, ret. discriminate.
Qed.

Lemma drain_frame_no_abort (m : machine) : drain_frame m <> Abort.
Proof.
  unfold drain_frame, bind, get_self.
  destruct (discard_frame (decoder_ (self m))) as [more d].
  unfold set_self, emit, ret. discriminate.
Qed.

Lemma keep_frame_no_abort cf (m : machine) : keep_frame cf m <> Abort.
Proof.
  unfold keep_frame, bind, get_self, lift.
  destruct (frame_size_ (self m)) as [fs|]; simpl; [|discriminate].
  destruct (get_frame fs (decoder_ (self m))) as [[buf more] d].
  unfold set_self, emit, push_output, incr_used, incr_i64, ret, push_back0.
  simpl.
  destruct (output_buffers m); simpl; [discriminate|].
  destruct (output_sizes m); simpl; [discriminate|].
  destruct (total_frames_used m <? max_i64); simpl; discriminate.
Qed.

Lemma valid_frame_at_no_abort vf vi : valid_frame_at vf vi <> Abort.
Proof.
  unfold valid_frame_at. destruct (vi <? 0); [discriminate|].
  destruct (nth_error vf (Z.to_nat vi)); discriminate.
Qed.

Ltac split_abort E :=
  apply bind_Abort_inv in E; destruct E as [E | (? & ? & _ & E)].

Lemma frames_loop_no_abort fuel : forall vf total more cf vi (m : machine),
  frames_loop fuel vf total more cf vi m <> Abort.
Proof.
  induction fuel as [|fuel IH]; intros vf total more cf vi m E;
    [discriminate|].
  cbn [frames_loop] in E.
  destruct (more && (vi <? total)); [|discriminate].
  split_abort E.
  { apply lift_Abort_inv in E. exact (valid_frame_at_no_abort _ _ E). }
  match type of E with (if ?c then _ else _) _ = _ => destruct c end.
  - split_abort E; [exact (keep_frame_no_abort _ _ E)|].
    split_abort E.
    { apply lift_Abort_inv in E. exact (add_i32_no_abort _ _ E). }
    split_abort E.
    { apply lift_Abort_inv in E. exact (add_i32_no_abort _ _ E). }
    split_abort E; [exact (incr_decoded_no_abort _ E)|].
    exact (IH _ _ _ _ _ _ E).
  - split_abort E; [exact (drop_frame_no_abort _ _ E)|].
    split_abort E.
    { apply lift_Abort_inv in E. exact (add_i32_no_abort _ _ E). }
    split_abort E; [exact (incr_decoded_no_abort _ E)|].
    exact (IH _ _ _ _ _ _ E).
Qed.

Lemma next_packet_no_abort buf off : next_packet buf off <> Abort.
Proof.
  unfold next_packet, read_i32, byte_at.
  destruct (off <? Z.of_nat (length buf)); [|discriminate].
  repeat match goal with
         | |- context [if ?c then _ else _] => destruct c; simpl; [discriminate|]
         | |- context [nth_error ?l ?n] =>
             destruct (nth_error l n); simpl; [|discriminate]
         end.
  discriminate.
Qed.

Lemma decode_loop_no_abort fuel : forall enc vf total off cf vi (m : machine),
  decode_loop fuel enc vf total off cf vi m <> Abort.
Proof.
  induction fuel as [|fuel IH]; intros enc vf total off cf vi m E;
    [discriminate|].
  cbn [decode_loop] in E.
  destruct (vi <? total); [|discriminate].
  apply bind_Abort_inv in E. destruct E as [E | ([[p n] off'] & ? & _ & E)].
  { apply lift_Abort_inv in E. exact (next_packet_no_abort _ _ E). }
  split_abort E; [exact (call_feed_no_abort _ _ _ E)|].
  split_abort E.
  { match type of E with (if ?c then _ else _) _ = _ => destruct c end;
      [exact (frames_loop_no_abort _ _ _ _ _ _ _ E) | discriminate]. }
  split_abort E; [exact (write_discontinuity_no_abort _ _ E)|].
  exact (IH _ _ _ _ _ _ _ E).
Qed.

Lemma drain_loop_no_abort fuel : forall (m : machine), drain_loop fuel m <> Abort.
Proof.
  induction fuel as [|fuel IH]; intros m E; [discriminate|].
  cbn [drain_loop] in E.
  split_abort E; [exact (drain_frame_no_abort _ E)|].
  match type of E with (if ?c then _ else _) _ = _ => destruct c end;
    [|discriminate].
  split_abort E; [exact (incr_decoded_no_abort _ E)|].
  exact (IH _ E).
Qed.

Lemma drain_no_abort fuel (m : machine) : drain fuel m <> Abort.
Proof.
  unfold drain. intros E.
  split_abort E; [discriminate|].
  split_abort E; [discriminate|].
  match type of E with (if ?c then _ else _) _ = _ => destruct c end;
    [exact (drain_loop_no_abort _ _ E) | discriminate].
Qed.

Lemma sampling_plan_Abort fuel args (m : machine) :
  sampling_plan fuel args m = Abort <-> contract_violation args = true.
Proof.
  unfold sampling_plan, contract_violation. split.
  - intros E. split_abort E; [discriminate|].
    destruct (sampling args); [exfalso | exfalso | exfalso | | reflexivity].
    + split_abort E.
      { apply lift_Abort_inv in E. exact (warm_start_no_abort _ _ _ E). }
      apply lift_Abort_inv in E. exact (push_range_no_abort _ _ _ _ E).
    + split_abort E.
      { apply lift_Abort_inv in E.
        match type of E with (if negb ?b then _ else _) = _ => destruct b end;
          simpl in E; [discriminate|].
        unfold mul_i32 in E. destruct (in_i32 _); simpl in E;
          [exact (add_i32_no_abort _ _ E) | discriminate]. }
      apply lift_Abort_inv in E. exact (push_strided_no_abort _ _ _ _ _ E).
    + split_abort E.
      { apply lift_Abort_inv in E. exact (warm_start_no_abort _ _ _ E). }
      split_abort E.
      { apply lift_Abort_inv in E. exact (push_gather_no_abort _ _ _ _ E). }
      split_abort E; [exact (write_discontinuity_no_abort _ _ E) | discriminate].
    + destruct (gather_sequences args) as [|iv [|iv' rest]];
        [reflexivity | | reflexivity].
      exfalso. split_abort E.
      { apply lift_Abort_inv in E. exact (warm_start_no_abort _ _ _ E). }
      split_abort E.
      { apply lift_Abort_inv in E. exact (push_range_no_abort _ _ _ _ E). }
      split_abort E; [exact (write_discontinuity_no_abort _ _ E) | discriminate].
  - unfold bind, get_self.
    destruct (sampling args); try discriminate; [|reflexivity].
    destruct (gather_sequences args) as [|iv [|iv' rest]];
      [reflexivity | discriminate | reflexivity].
Qed.

Lemma process_item_Abort fuel args enc (m : machine) :
  process_item fuel args enc m = Abort <-> contract_violation args = true.
Proof.
  rewrite <- (sampling_plan_Abort fuel args m). unfold process_item. split.
  - intros E. split_abort E; [exact E|]. exfalso.
    split_abort E; [exact (decode_loop_no_abort _ _ _ _ _ _ _ _ E)|].
    split_abort E; [exact (drain_no_abort _ _ E)|].
    unfold write_needs_warmup, bind, get_self, set_self, emit in E.
    discriminate.
  - intros E. unfold bind. rewrite E. reflexivity.
Qed.

Lemma for_inputs_Abort fuel ib count : forall i (m : machine),
  for_inputs (evaluate_item HAVE_CUDA deserialize_decode_args fuel ib) i count m
  = Abort ->
  exists j buf,
    (i <= j < i + count)%nat /\ at2 ib 1 j = Ok buf
    /\ contract_violation (deserialize_decode_args buf) = true.
Proof.
  induction count as [|count IH]; intros i m E; [discriminate|].
  cbn [for_inputs] in E.
  apply bind_Abort_inv in E. destruct E as [E | (? & ? & _ & E)].
  - exists i. unfold evaluate_item in E.
    apply bind_Abort_inv in E. destruct E as [E | (buf & ? & Eb & E)].
    { apply lift_Abort_inv in E. unfold at2 in E.
      destruct (nth_error ib 1) as [col|]; [|discriminate].
      destruct (nth_error col i); discriminate. }
    apply lift_Ok_inv in Eb. destruct Eb as [Eb ->].
    apply bind_Abort_inv in E. destruct E as [E | (enc & ? & _ & E)].
    { apply lift_Abort_inv in E. unfold at2 in E.
      destruct (nth_error ib 0) as [col|]; [|discriminate].
      destruct (nth_error col i); discriminate. }
    apply bind_Abort_inv in E. destruct E as [E | (e & ? & _ & E)];
      [discriminate|].
    apply bind_Abort_inv in E. destruct E as [E | (st & ? & Es & E)].
    { apply lift_Abort_inv in E. unfold stage_inputs in E.
      destruct (device_type_ e); [discriminate|].
      destruct HAVE_CUDA; discriminate. }
    apply lift_Ok_inv in Es. destruct Es as [Es _].
    apply process_item_Abort in E.
    exists buf. split; [lia|]. split; [exact Eb|].
    unfold stage_inputs in Es.
    destruct (device_type_ e); [|destruct HAVE_CUDA; [|discriminate]];
      inversion Es; subst st; exact E.
  - apply IH in E. destruct E as (j & buf & Hj & Hb & Hv).
    exists j, buf. split; [lia | auto].
Qed.

(** X10: the processing of an input raises a failed assert exactly on the
    two contract violations of the plan, an unknown sampling tag and a
    [SequenceGather] whose number of sequences is not 1, whatever the packets
    and the decoder do: the loops raise nothing.  A call of [evaluate] that
    ends on a failed assert has an input with such a descriptor. *)
Theorem asserts_fail_on_plan_only fuel args enc (m : machine) :
  (process_item fuel args enc m = Abort <-> contract_violation args = true)
  /\ (forall e ib ob os,
        evaluate HAVE_CUDA deserialize_decode_args fuel e ib ob os = Abort ->
        exists j buf,
          (j < num_inputs ib)%nat /\ at2 ib 1 j = Ok buf
          /\ contract_violation (deserialize_decode_args buf) = true).
Proof.
  split; [apply process_item_Abort|].
  intros e ib ob os E. unfold evaluate in E.
  destruct (for_inputs _ 0 (num_inputs ib) (enter e ob os))
    as [[u m1]| | |] eqn:Ef; try discriminate.
  apply for_inputs_Abort in Ef. destruct Ef as (j & buf & Hj & Hb).
  exists j, buf. split; [lia | exact Hb].
Qed.

(** *** Strides that are not positive *)

Lemma push_strided_zero fuel : forall s e vf,
  s < e -> in_i32 s = true -> push_strided fuel s e 0 vf = Timeout.
Proof.
  induction fuel as [|fuel IH]; intros s e vf Hlt Hin; [reflexivity|].
  cbn [push_strided].
  replace (s <? e) with true by (symmetry; apply Z.ltb_lt; lia).
  unfold add_i32. rewrite Z.add_0_r, Hin. cbn [rbind].
  apply IH; assumption.
Qed.

Lemma push_strided_negative fuel : forall s e st vf,
  s < e -> st < 0 -> min_i32 <= s -> (Z.to_nat (s - min_i32) < fuel)%nat ->
  push_strided fuel s e st vf = Undef.
Proof.
  induction fuel as [|fuel IH]; intros s e st vf Hlt Hst Hmin Hfuel; [lia|].
  cbn [push_strided].
  replace (s <? e) with true by (symmetry; apply Z.ltb_lt; lia).
  unfold add_i32. destruct (in_i32 (s + st)) eqn:Hin; cbn [rbind];
    [|reflexivity].
  apply in_i32_iff in Hin. apply IH; lia.
Qed.

Lemma sampling_plan_Strided_unfold fuel args (m : machine) :
  sampling args = Strided ->
  sampling_plan fuel args m
  = match (if negb (needs_warmup_ (self m))
           then (w <-- mul_i32 (warmup_count args) (stride args) ;;
                 add_i32 (interval_start (interval args)) w)%result
           else Ok (interval_start (interval args))) with
    | Ok s =>
        match push_strided fuel s (interval_end (interval args))
                           (stride args) [] with
        | Ok vf => Ok (vf, m)
        | Abort => Abort
        | Undef => Undef
        | Timeout => Timeout
        end
    | Abort => Abort
    | Undef => Undef
    | Timeout => Timeout
    end.
Proof.
  intros Hs. unfold sampling_plan, bind, get_self. rewrite Hs.
  unfold lift.
  destruct (if negb (needs_warmup_ (self m)) then _ else _); reflexivity.
Qed.

(** X11: a [Strided] descriptor whose stride is not positive, over a range
    that is not empty, never yields a plan: with stride 0 the sampling loop
    never ends (it appends the same frame for ever), with a negative stride
    it runs down to the overflow of [s += stride], which is undefined.  The
    processing of such an input never ends normally. *)
Theorem nonpositive_stride args (m : machine) :
  sampling args = Strided ->
  in_i32 (interval_start (interval args)) = true ->
  interval_start (interval args)
  + (if needs_warmup_ (self m) then 0 else warmup_count args) * stride args
  < interval_end (interval args) ->
  (stride args = 0 -> never_returns (fun fuel => sampling_plan fuel args m))
  /\ (stride args < 0 ->
      exists fuel0, forall fuel, (fuel0 <= fuel)%nat ->
        sampling_plan fuel args m = Undef)
  /\ (stride args <= 0 ->
      forall fuel enc u m', process_item fuel args enc m <> Ok (u, m')).
Proof.
  intros Hs Hin Hlt. split; [|split].
  - intros Hz fuel. rewrite sampling_plan_Strided_unfold by exact Hs.
    rewrite Hz in *. rewrite Z.mul_0_r, Z.add_0_r in Hlt.
    destruct (needs_warmup_ (self m)); cbn [negb].
    + rewrite push_strided_zero by assumption. reflexivity.
    + unfold mul_i32, add_i32. rewrite Z.mul_0_r. cbn [in_i32 rbind].
      change (in_i32 0) with true. cbn [rbind].
      rewrite Z.add_0_r, Hin.
      rewrite push_strided_zero by assumption. reflexivity.
  - intros Hneg.
    exists (S (Z.to_nat (interval_start (interval args)
                         + (if needs_warmup_ (self m) then 0
                            else warmup_count args) * stride args
                         - min_i32))).
    intros fuel Hfuel. rewrite sampling_plan_Strided_unfold by exact Hs.
    destruct (needs_warmup_ (self m)); cbn [negb].
    + rewrite Z.mul_0_l, Z.add_0_r in *.
      apply in_i32_iff in Hin.
      rewrite push_strided_negative by lia. reflexivity.
    + unfold mul_i32.
      destruct (in_i32 (warmup_count args * stride args)); cbn [rbind];
        [|reflexivity].
      unfold add_i32.
      destruct (in_i32 (interval_start (interval args)
                        + warmup_count args * stride args)) eqn:Hin2;
        [|reflexivity].
      apply in_i32_iff in Hin2.
      rewrite push_strided_negative by lia. reflexivity.
  - intros Hle fuel enc u m' E.
    apply process_item_stages in E.
    destruct E as (vf & m1 & _ & _ & Ep & _).
    apply sampling_plan_Ok in Ep. destruct Ep as (_ & _ & Ep).
    rewrite Hs in Ep. destruct Ep as (n & _ & Hbelow & Hend).
    unfold warmup_skip in *.
    destruct n as [|n]; [lia|].
    specialize (Hbelow 0%nat ltac:(lia)). nia.
Qed.

(** *** Empty plans *)

Lemma appended0_nil {A : Type} (v v' : list (list A)) :
  appended0 v v' [] -> v' = v.
Proof.
  intros H1. inversion H1; subst; [reflexivity|].
  rewrite app_nil_r. reflexivity.
Qed.

(** X12: when the plan of an input is empty (an interval that is empty or
    lies inside the warmup region, no gather point left), the packet buffer
    of the input is not read: the outcome is the same whatever the buffer
    holds.  Nothing is fed to the decoder, no frame is asked for, the
    outputs are left as they are, and the input still counts as the one
    that warms the engine up. *)
Theorem empty_plan_reads_no_packet fuel args enc (m : machine) m1 :
  sampling_plan fuel args m = Ok ([], m1) ->
  (forall enc', process_item fuel args enc' m = process_item fuel args enc m)
  /\ (forall u m',
        process_item fuel args enc m = Ok (u, m') ->
        exists evs,
          trace m' = trace m ++ evs
          /\ feed_sizes evs = [] /\ seen_frames evs = []
          /\ output_buffers m' = output_buffers m
          /\ output_sizes m' = output_sizes m
          /\ total_frames_used m' = total_frames_used m
          /\ needs_warmup_ (self m') = false).
Proof.
  intros Ep. split.
  - intros enc'. unfold process_item, bind. rewrite Ep.
    change (cast_i32 (Z.of_nat (length (@nil Z)))) with 0.
    destruct fuel; reflexivity.
  - intros u m' E.
    destruct (process_item_summary _ _ _ _ _ _ E)
      as (vf & m1' & evs & k & Ep' & Ht & Hs & _ & Hz & _).
    rewrite Ep in Ep'. inversion Ep'; subst vf m1'; clear Ep'.
    destruct Hz as (-> & Hf & Hk); [vm_compute; discriminate|].
    destruct (process_item_Ok _ _ _ _ _ _ E)
      as (vf & m1' & evs' & dd & _ & He & Hw & _).
    pose proof (effect_trace _ _ _ _ He) as Ht'.
    rewrite Ht in Ht'. apply app_inv_head in Ht'. subst evs'.
    destruct He as (_ & Hu & _ & Hb & _ & Hnw & _).
    rewrite Hk in Hu, Hb. rewrite Hw in Hnw. simpl in Hu, Hb, Hnw.
    destruct (process_item_grown _ _ _ _ _ _ E) as (frames & _ & Hgb & Hgs).
    pose proof (appended0_size _ _ _ Hgb) as Hn.
    assert (frames = []) as -> by (destruct frames; [reflexivity | simpl in Hn; lia]).
    exists evs. split; [exact Ht|]. split; [exact Hf|]. split; [exact Hs|].
    split; [apply appended0_nil; exact Hgb|].
    split.
    { destruct (frame_size_ (self m)); [apply appended0_nil; exact Hgs|].
      apply Hgs. }
    split; [lia | exact Hnw].
Qed.

(** *** The input channels *)

Lemma for_inputs_items (body : nat -> M unit) count : forall i (m : machine) u m',
  for_inputs body i count m = Ok (u, m') ->
  forall j, (i <= j < i + count)%nat -> exists mj r, body j mj = Ok r.
Proof.
  induction count as [|count IH]; intros i m u m' E j Hj; [lia|].
  cbn [for_inputs] in E.
  apply bind_Ok_inv in E. destruct E as (u1 & m1 & Eb & E).
  destruct (Nat.eq_dec j i) as [->|Hne]; [eauto|].
  apply (IH _ _ _ _ E). lia.
Qed.

Lemma evaluate_item_reads fuel ib i (m : machine) r :
  evaluate_item HAVE_CUDA deserialize_decode_args fuel ib i m = Ok r ->
  (exists buf, at2 ib 1 i = Ok buf)
  /\ (device_type_ (self m) = GPU -> HAVE_CUDA = true).
Proof.
  destruct r as [u m']. unfold evaluate_item. intros E.
  apply bind_Ok_inv in E. destruct E as (buf & m1 & Eb & E).
  apply lift_Ok_inv in Eb. destruct Eb as [Eb ->].
  apply bind_Ok_inv in E. destruct E as (enc & m1 & Ee & E).
  apply lift_Ok_inv in Ee. destruct Ee as [Ee ->].
  apply bind_Ok_inv in E. destruct E as (e & m1 & Eg & E).
  unfold get_self in Eg. inversion Eg; subst; clear Eg.
  apply bind_Ok_inv in E. destruct E as (st & m2 & Es & E).
  apply lift_Ok_inv in Es. destruct Es as [Es _].
  split; [eauto|]. intros Hg. unfold stage_inputs in Es. rewrite Hg in Es.
  destruct HAVE_CUDA; [reflexivity | discriminate].
Qed.

(** X13: a call of [evaluate] on a non-empty input returns only if
    [input_buffers] has a second channel (the descriptors) with at least as
    many entries as the first (the packet buffers): the loop runs over the
    size of channel 0 and indexes channel 1 unchecked.  On a GPU engine it
    returns only in a build with [HAVE_CUDA]; without it the staging branch
    is empty and the packet buffer pointer is never set. *)
Theorem evaluate_needs_both_channels fuel e ib ob os (m' : machine) :
  evaluate HAVE_CUDA deserialize_decode_args fuel e ib ob os = Ok m' ->
  num_inputs ib <> 0%nat ->
  (exists col0 col1 rest,
     ib = col0 :: col1 :: rest /\ (length col0 <= length col1)%nat)
  /\ (device_type_ e = GPU -> HAVE_CUDA = true).
Proof.
  intros E Hn. unfold evaluate in E.
  destruct (for_inputs _ 0 (num_inputs ib) (enter e ob os))
    as [[u m1]| | |] eqn:Ef; try discriminate.
  clear E. split.
  - destruct (for_inputs_items _ _ _ _ _ _ Ef (num_inputs ib - 1)%nat)
      as (mj & r & Ej); [lia|].
    apply evaluate_item_reads in Ej. destruct Ej as [[buf Eb] _].
    unfold at2 in Eb.
    destruct ib as [|col0 [|col1 rest]]; cbn [nth_error] in Eb;
      try discriminate.
    exists col0, col1, rest. split; [reflexivity|].
    destruct (nth_error col1 (num_inputs (col0 :: col1 :: rest) - 1)) eqn:Hnth;
      [|discriminate].
    assert (num_inputs (col0 :: col1 :: rest) - 1 < length col1)%nat as Hlt
      by (apply nth_error_Some; congruence).
    simpl in *. lia.
  - destruct (num_inputs ib) as [|count]; [contradiction|].
    cbn [for_inputs] in Ef.
    apply bind_Ok_inv in Ef. destruct Ef as (u1 & m2 & Eb & _).
    apply evaluate_item_reads in Eb. apply Eb.
Qed.

(** *** The warmup region *)

Lemma index_range_split s w e :
  0 <= w ->
  exists pre,
    index_range s e = pre ++ index_range (s + w) e
    /\ Z.of_nat (length pre) <= w.
Proof.
  intros Hw. unfold index_range.
  exists (arith_seq s 1 (Z.to_nat (Z.min w (e - s)))).
  rewrite arith_seq_length. split; [|lia].
  replace (Z.to_nat (e - s))
    with (Z.to_nat (Z.min w (e - s)) + Z.to_nat (e - (s + w)))%nat by lia.
  rewrite arith_seq_app. f_equal.
  destruct (Z.to_nat (e - (s + w))) eqn:Hb; [reflexivity|].
  f_equal. lia.
Qed.

Lemma arith_seq_split s st w nc nw e :
  0 <= w ->
  (forall k, (k < nc)%nat -> s + Z.of_nat k * st < e) ->
  e <= s + Z.of_nat nc * st ->
  (forall k, (k < nw)%nat -> s + w * st + Z.of_nat k * st < e) ->
  e <= s + w * st + Z.of_nat nw * st ->
  exists pre,
    arith_seq s st nc = pre ++ arith_seq (s + w * st) st nw
    /\ Z.of_nat (length pre) <= w.
Proof.
  intros Hw Hc1 Hc2 Hw1 Hw2.
  destruct (Z_le_gt_dec st 0) as [Hst|Hst].
  - assert (nc = 0%nat) as ->.
    { destruct nc; [reflexivity|]. specialize (Hc1 0%nat ltac:(lia)). nia. }
    assert (nw = 0%nat) as ->.
    { destruct nw; [reflexivity|]. specialize (Hw1 0%nat ltac:(lia)). nia. }
    exists []. simpl. split; [reflexivity | lia].
  - destruct (Z_le_gt_dec (Z.of_nat nc) w) as [Hge|Hlt].
    + assert (nw = 0%nat) as ->.
      { destruct nw; [reflexivity|]. specialize (Hw1 0%nat ltac:(lia)). nia. }
      exists (arith_seq s st nc). rewrite arith_seq_length.
      simpl. rewrite app_nil_r. split; [reflexivity | lia].
    + assert (nc = (Z.to_nat w + nw)%nat) as ->.
      { destruct (Nat.lt_trichotomy (Z.to_nat w + nw) nc) as [H1|[H1|H1]].
        - specialize (Hc1 (Z.to_nat w + nw)%nat H1). nia.
        - auto.
        - specialize (Hw1 (nc - Z.to_nat w)%nat ltac:(lia)). nia. }
      exists (arith_seq s st (Z.to_nat w)). rewrite arith_seq_length.
      rewrite arith_seq_app. split; [|lia].
      do 2 f_equal. lia.
Qed.

(** X14: for the same descriptor, the plan of a warm engine
    ([needs_warmup_] false) is the plan of a cold one ([needs_warmup_] true,
    as after [reset]) without a prefix of at most [warmup_count] frames: the
    warmup region is cut off at the front and nothing else changes
    ([warmup_count] not negative). *)
Theorem warm_plan_is_suffix fuel fuel' args (mc mw : machine) vfc vfw mc' mw' :
  needs_warmup_ (self mc) = true -> needs_warmup_ (self mw) = false ->
  0 <= warmup_count args ->
  sampling_plan fuel args mc = Ok (vfc, mc') ->
  sampling_plan fuel' args mw = Ok (vfw, mw') ->
  exists pre,
    vfc = pre ++ vfw /\ Z.of_nat (length pre) <= warmup_count args.
Proof.
  intros Hc Hw Hcount Ec Ew.
  apply sampling_plan_Ok in Ec. destruct Ec as (_ & _ & Ec).
  apply sampling_plan_Ok in Ew. destruct Ew as (_ & _ & Ew).
  unfold warmup_skip in *. rewrite Hc in Ec. rewrite Hw in Ew.
  destruct (sampling args).
  - subst vfc vfw. rewrite Z.add_0_r.
    apply index_range_split; assumption.
  - destruct Ec as (nc & -> & Hc1 & Hc2). destruct Ew as (nw & -> & Hw1 & Hw2).
    rewrite Z.mul_0_l, Z.add_0_r in *.
    eapply arith_seq_split; eauto.
  - subst vfc vfw. exists (firstn (Z.to_nat (warmup_count args)) (gather_points args)).
    change (Z.to_nat 0) with 0%nat. cbn [skipn].
    rewrite firstn_skipn. split; [reflexivity|].
    pose proof (firstn_le_length (Z.to_nat (warmup_count args)) (gather_points args)).
    rewrite length_firstn. lia.
  - destruct Ec as (iv & Hiv & ->). destruct Ew as (iv' & Hiv' & ->).
    rewrite Hiv in Hiv'. inversion Hiv'; subst iv'.
    rewrite Z.add_0_r. apply index_range_split; assumption.
  - contradiction.
Qed.

(** *** The factory and the constructor *)

(** X15: [new_evaluator] builds the engine on [config.device_ids[0]] and on
    the device type the factory's capabilities report, ignoring any further
    device id.  It is undefined exactly when [device_ids] is empty and fails
    its assert exactly when [make_from_config] yields no decoder.  The
    engine it answers has both flags false and no frame size yet: whatever
    [evaluate] is asked before [configure], if it returns it has appended
    nothing. *)
Theorem new_evaluator_outcomes (f : @DecoderEvaluatorFactory.t VideoDecoderType) cfg :
  (DecoderEvaluatorFactory.new_evaluator (D := D) f cfg = Undef
   <-> device_ids cfg = [])
  /\ (DecoderEvaluatorFactory.new_evaluator (D := D) f cfg = Abort
      <-> exists id rest,
            device_ids cfg = id :: rest
            /\ make_from_config (D := D)
                 (DecoderEvaluatorFactory.device_type_ f) id
                 (DecoderEvaluatorFactory.decoder_type_ f)
                 (DecoderEvaluatorFactory.device_type_ f) = None)
  /\ DecoderEvaluatorFactory.new_evaluator (D := D) f cfg <> Timeout
  /\ (forall id rest,
        device_ids cfg = id :: rest ->
        DecoderEvaluatorFactory.new_evaluator (D := D) f cfg
        = DecoderEvaluatorFactory.new_evaluator f {| device_ids := [id] |})
  /\ (forall e : DecoderEvaluator VideoDecoderType D,
        DecoderEvaluatorFactory.new_evaluator f cfg = Ok e ->
        device_type_ e
        = device_type (DecoderEvaluatorFactory.get_capabilities f)
        /\ (exists rest, device_ids cfg = device_id_ e :: rest)
        /\ needs_warmup_ e = false /\ discontinuity_ e = false
        /\ forall fuel ib ob os (m' : machine),
             evaluate HAVE_CUDA deserialize_decode_args fuel e ib ob os = Ok m' ->
             output_buffers m' = ob /\ output_sizes m' = os
             /\ total_frames_used m' = 0).
Proof.
  unfold DecoderEvaluatorFactory.new_evaluator, new_DecoderEvaluator.
  destruct cfg as [ids]. cbn [device_ids].
  destruct ids as [|id rest].
  - split; [split; reflexivity|].
    split; [split; [discriminate | intros (? & ? & ? & _); discriminate]|].
    split; [discriminate|].
    split; [discriminate | discriminate].
  - destruct (make_from_config (DecoderEvaluatorFactory.device_type_ f) id
                (DecoderEvaluatorFactory.decoder_type_ f)
                (DecoderEvaluatorFactory.device_type_ f)) as [d|] eqn:Hd.
    + split; [split; discriminate|].
      split.
      { split; [discriminate|].
        intros (id' & rest' & Hid & Hn). inversion Hid; subst. congruence. }
      split; [discriminate|].
      split.
      { intros id' rest' Hid. inversion Hid; subst. rewrite Hd. reflexivity. }
      intros e E. inversion E; subst e; clear E. cbn.
      split; [reflexivity|]. split; [eauto|].
      split; [reflexivity|]. split; [reflexivity|].
      intros fuel ib ob os m' E.
      apply evaluate_grown in E.
      destruct E as (frames & (_ & Hb & Hs) & Hn). cbn in Hb, Hs.
      destruct Hs as [-> Hs]. apply appended0_nil in Hb.
      simpl in Hn. auto.
    + split; [split; discriminate|].
      split; [split; [eauto | reflexivity]|].
      split; [discriminate|].
      split.
      { intros id' rest' Hid. inversion Hid; subst. rewrite Hd. reflexivity. }
      discriminate.
Qed.

(** *** A decoder that gives one frame per packet *)

Lemma ready_grown (m m' : machine) frames :
  grown m m' frames -> ready m -> ready m'.
Proof.
  intros (Hc & Hb & Hs) (Rf & Rb & Rs).
  destruct Hc as (_ & _ & _ & _ & Hfs).
  split; [rewrite Hfs; exact Rf|].
  split.
  - inversion Hb; subst; [congruence | discriminate].
  - destruct (frame_size_ (self m)); [|contradiction].
    inversion Hs; subst; [congruence | discriminate].
Qed.

Lemma call_feed_returns p n (m : machine) :
  frame_per_feed (D := D) -> exists m2, call_feed p n m = Ok (true, m2).
Proof.
  intros (C & _). unfold call_feed, bind, get_self.
  specialize (C p n (discontinuity_ (self m)) (decoder_ (self m))).
  destruct (feed p n (discontinuity_ (self m)) (decoder_ (self m))) as [nf d].
  simpl in C. subst nf. eexists. reflexivity.
Qed.

Lemma drop_frame_returns cf (m : machine) :
  frame_per_feed (D := D) -> exists m2, drop_frame cf m = Ok (false, m2).
Proof.
  intros (_ & _ & C & _). unfold drop_frame, bind, get_self.
  specialize (C (decoder_ (self m))).
  destruct (discard_frame (decoder_ (self m))) as [more d].
  simpl in C. subst more. eexists. reflexivity.
Qed.

Lemma keep_frame_returns cf (m : machine) :
  frame_per_feed (D := D) -> ready m -> total_frames_used m < max_i64 ->
  exists m2, keep_frame cf m = Ok (false, m2).
Proof.
  intros (_ & C & _) (Rf & Rb & Rs) Hu. unfold keep_frame, bind, get_self, lift.
  destruct (frame_size_ (self m)) as [fs|]; [|contradiction]. simpl.
  specialize (C fs (decoder_ (self m))).
  destruct (get_frame fs (decoder_ (self m))) as [[buf more] d].
  simpl in C. subst more.
  unfold set_self, emit, push_output, incr_used, incr_i64, ret, push_back0.
  simpl.
  destruct (output_buffers m); [contradiction|].
  destruct (output_sizes m); [contradiction|]. simpl.
  replace (total_frames_used m <? max_i64) with true
    by (symmetry; apply Z.ltb_lt; assumption).
  simpl. eexists. reflexivity.
Qed.

Lemma incr_decoded_returns (m : machine) :
  total_frames_decoded m < max_i64 -> exists m2, incr_decoded m = Ok (tt, m2).
Proof.
  intros Hd. unfold incr_decoded, incr_i64.
  replace (total_frames_decoded m <? max_i64) with true
    by (symmetry; apply Z.ltb_lt; assumption).
  simpl. eexists. reflexivity.
Qed.

Lemma bind_Ok {A B : Type} (c : M A) (k : A -> M B) (m : machine) a m1 :
  c m = Ok (a, m1) -> bind c k m = k a m1.
Proof. intros E. unfold bind. rewrite E. reflexivity. Qed.

Lemma add_i32_in a b : in_i32 (a + b) = true -> add_i32 a b = Ok (a + b).
Proof. intros Hin. unfold add_i32. rewrite Hin. reflexivity. Qed.

(** One frame is available: the inner loop takes it and stops. *)
Lemma frames_loop_one f vf total cf vi v (m : machine) :
  frame_per_feed (D := D) ->
  0 <= vi < total -> nth_error vf (Z.to_nat vi) = Some v ->
  ready m -> total_frames_used m < max_i64 -> total_frames_decoded m < max_i64 ->
  in_i32 (vi + 1) = true -> in_i32 (cf + 1) = true ->
  exists m',
    frames_loop (S (S f)) vf total true cf vi m
    = Ok ((cf + 1, if cf =? v then vi + 1 else vi), m').
Proof.
  intros C Hvi Hv R Hu Hd Hi1 Hi2.
  cbn [frames_loop].
  replace (vi <? total) with true by (symmetry; apply Z.ltb_lt; lia).
  cbn [andb].
  assert (valid_frame_at vf vi = Ok v) as Ev.
  { unfold valid_frame_at.
    replace (vi <? 0) with false by (symmetry; apply Z.ltb_ge; lia).
    rewrite Hv. reflexivity. }
  rewrite (bind_Ok _ _ m v m) by (unfold lift; rewrite Ev; reflexivity).
  destruct (cf =? v).
  - destruct (keep_frame_returns cf m C R Hu) as (m2 & Ek).
    rewrite (bind_Ok _ _ _ _ _ Ek).
    rewrite (bind_Ok _ _ m2 (vi + 1) m2)
      by (unfold lift; rewrite add_i32_in by assumption; reflexivity).
    rewrite (bind_Ok _ _ m2 (cf + 1) m2)
      by (unfold lift; rewrite add_i32_in by assumption; reflexivity).
    apply keep_frame_effect in Ek. destruct Ek as (_ & _ & Hdd & _).
    destruct (incr_decoded_returns m2) as (m3 & Ei); [lia|].
    rewrite (bind_Ok _ _ _ _ _ Ei).
    exists m3. reflexivity.
  - destruct (drop_frame_returns cf m C) as (m2 & Ek).
    rewrite (bind_Ok _ _ _ _ _ Ek).
    rewrite (bind_Ok _ _ m2 (cf + 1) m2)
      by (unfold lift; rewrite add_i32_in by assumption; reflexivity).
    apply drop_frame_effect in Ek. destruct Ek as (_ & _ & Hdd & _).
    destruct (incr_decoded_returns m2) as (m3 & Ei); [lia|].
    rewrite (bind_Ok _ _ _ _ _ Ei).
    exists m3. reflexivity.
Qed.

Lemma strictly_increasing_inv a l :
  strictly_increasing (a :: l) = true ->
  strictly_increasing l = true /\ Forall (fun y => a < y) l.
Proof.
  revert a. induction l as [|b l IH]; intros a Hs; [split; [reflexivity | constructor]|].
  change (strictly_increasing (a :: b :: l))
    with ((a <? b) && strictly_increasing (b :: l)) in Hs.
  apply andb_true_iff in Hs. destruct Hs as [Hab Hs].
  apply Z.ltb_lt in Hab. split; [exact Hs|].
  constructor; [exact Hab|].
  destruct (IH b Hs) as [_ Hall].
  eapply Forall_impl; [|exact Hall]. simpl. intros; lia.
Qed.

Lemma strictly_increasing_nth vf :
  strictly_increasing vf = true ->
  forall i j x y, (i < j)%nat ->
    nth_error vf i = Some x -> nth_error vf j = Some y -> x < y.
Proof.
  induction vf as [|a vf IH]; intros Hs i j x y Hij Hx Hy.
  - destruct i; discriminate.
  - apply strictly_increasing_inv in Hs. destruct Hs as [Hs Hall].
    destruct j as [|j]; [lia|]. cbn [nth_error] in Hy.
    destruct i as [|i].
    + inversion Hx; subst a.
      rewrite Forall_forall in Hall. apply Hall.
      eapply nth_error_In; eauto.
    + cbn [nth_error] in Hx. apply (IH Hs i j); [lia | assumption..].
Qed.

Lemma nth_error_last (vf : list Z) d :
  vf <> [] -> nth_error vf (length vf - 1) = Some (last vf d).
Proof.
  intros Hne. destruct vf as [|x vf] using rev_ind; [contradiction|].
  rewrite length_app. simpl.
  rewrite nth_error_app2 by lia.
  replace (length vf + 1 - 1 - length vf)%nat with 0%nat by lia.
  rewrite last_last. reflexivity.
Qed.

(** The packet at the offset of a buffer of records, and the records that
    are left after it. *)
Lemma next_packet_records pre ps :
  Forall (fun p => Z.of_nat (length p) <= max_i32) ps ->
  Z.of_nat (length (pre ++ encode_packets ps)) < 2 ^ 64 ->
  exists p n pre' ps',
    next_packet (pre ++ encode_packets ps) (Z.of_nat (length pre))
    = Ok (p, n, Z.of_nat (length pre'))
    /\ pre ++ encode_packets ps = pre' ++ encode_packets ps'
    /\ Forall (fun p => Z.of_nat (length p) <= max_i32) ps'.
Proof.
  intros Hps Hlen. destruct ps as [|q ps].
  - exists None, 0, pre, []. split; [|auto].
    apply next_packet_at_end.
    cbn [encode_packets map concat]. rewrite app_nil_r. lia.
  - inversion Hps as [|? ? Hq Hps']; subst.
    exists (Some (q ++ encode_packets ps)), (Z.of_nat (length q)),
      (pre ++ packet_record q), ps.
    cbn [encode_packets map concat] in *. fold (encode_packets ps) in *.
    split; [apply next_packet_at_record; assumption|].
    split; [apply app_assoc | exact Hps'].
Qed.

Lemma write_discontinuity_returns b (m : machine) :
  exists m', write_discontinuity b m = Ok (tt, m').
Proof. eexists. reflexivity. Qed.

(** One turn of the outer loop, forwards. *)
Lemma decode_loop_step fuel enc vf total off cf vi (m : machine)
  p n off' m2 pos m3 m4 :
  vi < total ->
  next_packet enc off = Ok (p, n, off') ->
  call_feed p n m = Ok (true, m2) ->
  frames_loop fuel vf total true cf vi m2 = Ok (pos, m3) ->
  write_discontinuity (n =? 0) m3 = Ok (tt, m4) ->
  decode_loop (S fuel) enc vf total off cf vi m
  = decode_loop fuel enc vf total off' (fst pos) (snd pos) m4.
Proof.
  intros Hlt Hn Hf Hi Hw. cbn [decode_loop].
  replace (vi <? total) with true by (symmetry; apply Z.ltb_lt; lia).
  rewrite (bind_Ok _ _ m (p, n, off') m)
    by (unfold lift; rewrite Hn; reflexivity).
  rewrite (bind_Ok _ _ _ _ _ Hf).
  rewrite (bind_Ok _ _ _ _ _ Hi).
  rewrite (bind_Ok _ _ _ _ _ Hw).
  reflexivity.
Qed.

Lemma decode_loop_returns vf total :
  frame_per_feed (D := D) ->
  strictly_increasing vf = true ->
  total = Z.of_nat (length vf) -> total <= max_i32 ->
  forall fuel n pre ps cf vi v (m : machine),
    Forall (fun p => Z.of_nat (length p) <= max_i32) ps ->
    Z.of_nat (length (pre ++ encode_packets ps)) < 2 ^ 64 ->
    0 <= vi < total -> nth_error vf (Z.to_nat vi) = Some v -> cf <= v ->
    last vf 0 = cf + Z.of_nat n -> min_i32 <= cf -> last vf 0 < max_i32 ->
    ready m ->
    total_frames_used m + (total - vi) <= max_i64 ->
    total_frames_decoded m + Z.of_nat n + 1 <= max_i64 ->
    (n + 3 <= fuel)%nat ->
    exists m',
      decode_loop fuel (pre ++ encode_packets ps) vf total
                  (Z.of_nat (length pre)) cf vi m = Ok (tt, m').
Proof.
  intros C Hinc Htot Hmax.
  induction fuel as [|fuel IH];
    intros n pre ps cf vi v m Hps Hlen Hvi Hv Hcf Hlast Hmin Hlmax R Hu Hd Hfuel;
    [lia|].
  destruct fuel as [|[|f]]; try lia.
  assert (vf <> []) as Hne by (intros ->; simpl in Htot; lia).
  pose proof (nth_error_last vf 0 Hne) as Hl.
  assert (v <= last vf 0) as Hvl.
  { destruct (Nat.eq_dec (Z.to_nat vi) (length vf - 1)) as [Heq|Hneq].
    - rewrite Heq in Hv. rewrite Hl in Hv. inversion Hv. lia.
    - pose proof (strictly_increasing_nth vf Hinc (Z.to_nat vi) (length vf - 1)
                    v (last vf 0) ltac:(lia) Hv Hl). lia. }
  destruct (next_packet_records pre ps Hps Hlen)
    as (p & sz & pre' & ps' & Hn & Henc & Hps').
  destruct (call_feed_returns p sz m C) as (m2 & Ef).
  pose proof (call_feed_effect _ _ _ _ _ Ef) as [(_ & Hu2 & Hd2 & _) _].
  pose proof (ready_grown _ _ _ (call_feed_grown _ _ _ _ _ Ef) R) as R2.
  simpl in Hu2, Hd2.
  assert (in_i32 (vi + 1) = true) as Hi1
    by (apply in_i32_iff; unfold min_i32, max_i32 in *; lia).
  assert (in_i32 (cf + 1) = true) as Hi2
    by (apply in_i32_iff; unfold min_i32, max_i32 in *; lia).
  destruct (frames_loop_one f vf total cf vi v m2 C Hvi Hv R2
              ltac:(lia) ltac:(lia) Hi1 Hi2) as (m3 & Ei).
  destruct (frames_loop_Ok _ _ _ _ _ _ _ _ _ _ Ei ltac:(lia))
    as (evs & dd & (_ & Hu3 & _) & _ & _ & _ & _ & Hkept).
  destruct (frames_loop_seen _ _ _ _ _ _ _ _ _ _ Ei)
    as (evs' & k & _ & _ & Hk & Hd3 & _).
  destruct (frames_loop_grown _ _ _ _ _ _ _ _ _ Ei) as (fr & G3).
  pose proof (ready_grown _ _ _ G3 R2) as R3.
  destruct (write_discontinuity_returns (sz =? 0) m3) as (m4 & Ew).
  pose proof (write_discontinuity_effect _ _ _ _ Ew) as (_ & Hu4 & Hd4 & _).
  pose proof (ready_grown _ _ _ (write_discontinuity_grown _ _ _ _ Ew) R3) as R4.
  simpl in Hu4, Hd4.
  rewrite (decode_loop_step _ _ _ _ _ _ _ _ _ _ _ _ _ _ _ (proj2 Hvi) Hn Ef Ei Ew).
  cbn [fst snd].
  assert (Z.of_nat (length (kept_frames evs))
          = (if cf =? v then vi + 1 else vi) - vi) as Hkn.
  { apply (f_equal (@length Z)) in Hkept.
    rewrite length_app, !length_firstn in Hkept.
    destruct (cf =? v); lia. }
  rewrite Henc in *.
  destruct (Z.eqb_spec cf v) as [Heq|Hneq].
  - destruct (Z.eq_dec (vi + 1) total) as [Hend|Hmore].
    + exists m4. cbn [decode_loop].
      replace (vi + 1 <? total) with false by (symmetry; apply Z.ltb_ge; lia).
      reflexivity.
    + destruct (nth_error vf (Z.to_nat (vi + 1))) as [v'|] eqn:Hv'.
      2:{ apply nth_error_None in Hv'. lia. }
      pose proof (strictly_increasing_nth vf Hinc (Z.to_nat vi)
                    (Z.to_nat (vi + 1)) v v' ltac:(lia) Hv Hv') as Hvv'.
      assert (v' <= last vf 0) as Hv'l.
      { destruct (Nat.eq_dec (Z.to_nat (vi + 1)) (length vf - 1)) as [Heq'|Hneq'].
        - rewrite Heq' in Hv'. rewrite Hl in Hv'. inversion Hv'. lia.
        - pose proof (strictly_increasing_nth vf Hinc (Z.to_nat (vi + 1))
                        (length vf - 1) v' (last vf 0) ltac:(lia) Hv' Hl). lia. }
      destruct n as [|n]; [lia|].
      apply (IH n pre' ps' (cf + 1) (vi + 1) v' m4); try assumption; lia.
  - destruct n as [|n]; [lia|].
    apply (IH n pre' ps' (cf + 1) vi v m4); try assumption; lia.
Qed.

Lemma drain_returns fuel (m : machine) :
  frame_per_feed (D := D) -> exists m', drain fuel m = Ok (tt, m').
Proof.
  intros (_ & _ & _ & C). unfold drain, bind, get_self, set_self.
  cbn [self decoder_ with_decoder].
  replace (0 <? decoded_frames_buffered
                  (wait_until_frames_copied (decoder_ (self m))))
    with false by (symmetry; apply Z.ltb_ge; apply C).
  eexists. reflexivity.
Qed.

(** X18: with a decoder that gives one frame per packet fed, the processing
    of an input returns, with every frame of the plan kept, when: the plan
    is strictly increasing, has at most [max_i32] frames, and each of its
    frames is at least [start_keyframe] and below [max_i32] (so that
    [current_frame++] does not overflow); [start_keyframe] is at least
    [min_i32]; the packet buffer is made of records, each payload of at
    most [max_i32] bytes, and is shorter than [2^64] bytes; the engine was
    configured and both output vectors have a channel 0; the two counters
    are at most [2^62]; and the fuel covers one turn of the decode loop per
    frame from [start_keyframe] to the last frame of the plan, and three
    more. *)
Theorem process_item_returns fuel args ps (m : machine) vf m1 :
  frame_per_feed (D := D) -> ready m ->
  sampling_plan fuel args m = Ok (vf, m1) ->
  strictly_increasing vf = true ->
  Forall (fun x => start_keyframe args <= x < max_i32) vf ->
  min_i32 <= start_keyframe args ->
  Z.of_nat (length vf) <= max_i32 ->
  Forall (fun p => Z.of_nat (length p) <= max_i32) ps ->
  Z.of_nat (length (encode_packets ps)) < 2 ^ 64 ->
  total_frames_used m <= 2 ^ 62 -> total_frames_decoded m <= 2 ^ 62 ->
  (Z.to_nat (last vf (start_keyframe args) - start_keyframe args) + 3
   <= fuel)%nat ->
  exists m' evs,
    process_item fuel args (encode_packets ps) m = Ok (tt, m')
    /\ trace m' = trace m ++ evs
    /\ kept_frames evs = vf.
Proof.
  intros C R Ep Hinc Hall Hmin Hlen Hps Henc Hu Hd Hfuel.
  assert (exists m', process_item fuel args (encode_packets ps) m = Ok (tt, m'))
    as (m' & E).
  { unfold process_item. rewrite (bind_Ok _ _ _ _ _ Ep).
    pose proof (ready_grown _ _ _ (sampling_plan_grown _ _ _ _ _ Ep) R) as R1.
    pose proof (sampling_plan_Ok _ _ _ _ _ Ep) as ((_ & Hu1 & Hd1 & _) & _).
    assert (total_frames_used m1 = total_frames_used m) as Hu1'
      by (destruct (forces_discontinuity (sampling args)); simpl in Hu1; lia).
    rewrite cast_i32_small by lia.
    assert (exists m2,
              decode_loop fuel (encode_packets ps) vf (Z.of_nat (length vf))
                          0 (start_keyframe args) 0 m1 = Ok (tt, m2))
      as (m2 & El).
    { destruct vf as [|v0 vf'] eqn:Hvf.
      - destruct fuel; [lia|]. exists m1. reflexivity.
      - rewrite <- Hvf in *.
        assert (vf <> []) as Hne by (rewrite Hvf; discriminate).
        assert (last vf (start_keyframe args) = last vf 0) as Hl.
        { pose proof (nth_error_last vf 0 Hne) as H1.
          pose proof (nth_error_last vf (start_keyframe args) Hne) as H2.
          congruence. }
        assert (In (last vf 0) vf) as Hin.
        { eapply nth_error_In. apply (nth_error_last vf 0 Hne). }
        rewrite Forall_forall in Hall.
        pose proof (Hall _ Hin) as Hlast.
        assert (In v0 vf) as Hin0 by (rewrite Hvf; left; reflexivity).
        pose proof (Hall _ Hin0) as Hv0.
        rewrite Hl in Hfuel.
        apply (decode_loop_returns vf (Z.of_nat (length vf)) C Hinc eq_refl Hlen
                 fuel (Z.to_nat (last vf 0 - start_keyframe args))
                 [] ps (start_keyframe args) 0 v0 m1);
          try assumption; try lia.
        + rewrite Hvf. simpl. lia.
        + rewrite Hvf. reflexivity.
        + unfold max_i64, max_i32 in *. lia.
        + unfold max_i64, max_i32, min_i32 in *. lia. }
    rewrite (bind_Ok _ _ _ _ _ El).
    destruct (drain_returns fuel m2 C) as (m3 & Er).
    rewrite (bind_Ok _ _ _ _ _ Er).
    eexists. reflexivity. }
  destruct (process_item_keeps_plan _ _ _ _ _ _ _ _ E Ep Hlen)
    as (evs & dd & He & Hk & _).
  exists m', evs. split; [exact E|]. split; [|exact Hk].
  eapply effect_trace; eauto.
Qed.

(** *** Conservation *)




End Anatomy.

Lemma decoded_frames_accounting_witness :
  match process_item 10 (mk_all 1 3 0 0) three_packets
                     (machine_of ([] : QueueDecoder) true true) with
  | Ok (_, m') =>
      seen_frames (trace m') = [0; 1; 2] /\ total_frames_decoded m' = 3
  | _ => False
  end.
Proof.
  destruct (process_item 10 (mk_all 1 3 0 0) three_packets
              (machine_of ([] : QueueDecoder) true true))
    as [[u m']| | |] eqn:E; try (vm_compute in E; discriminate).
  destruct (decoded_frames_accounting _ _ _ _ _ _ E)
    as (evs & Ht & Hs & Hd).
  simpl in Ht. subst evs.
  vm_compute in E. inversion E; subst. split; reflexivity.
Defined.

Lemma decodes_up_to_last_planned_witness :
  match process_item 10 (mk_all 1 2 0 0) three_packets
                     (machine_of ([] : QueueDecoder) true true) with
  | Ok (_, m') => seen_frames (trace m') = [0; 1]
  | _ => False
  end.
Proof.
  assert (sampling_plan 10 (mk_all 1 2 0 0)
            (machine_of ([] : QueueDecoder) true true)
          = Ok ([1], machine_of [] true true)) as Ep
    by (vm_compute; reflexivity).
  destruct (process_item 10 (mk_all 1 2 0 0) three_packets
              (machine_of ([] : QueueDecoder) true true))
    as [[u m']| | |] eqn:E; try (vm_compute in E; discriminate).
  destruct (decodes_up_to_last_planned
              _ _ _ _ _ _ _ _ E Ep)
    as (evs & Ht & Hs & _); [discriminate | vm_compute; discriminate |].
  simpl in Ht. rewrite Ht, Hs. reflexivity.
Defined.

Lemma completed_plan_increasing_witness :
  match process_item 10 (mk_gather [0; 2] 0 0) three_packets
                     (machine_of ([] : QueueDecoder) true true) with
  | Ok _ =>
      strictly_increasing [0; 2] = true /\ Forall (fun x => 0 <= x) [0; 2]
  | _ => False
  end.
Proof.
  assert (exists m1, sampling_plan 10 (mk_gather [0; 2] 0 0)
            (machine_of ([] : QueueDecoder) true true)
          = Ok ([0; 2], m1)) as [m1 Ep]
    by (eexists; vm_compute; reflexivity).
  destruct (process_item 10 (mk_gather [0; 2] 0 0) three_packets
              (machine_of ([] : QueueDecoder) true true))
    as [[u m']| | |] eqn:E; try (vm_compute in E; discriminate).
  apply (completed_plan_increasing
           _ _ _ _ _ _ _ _ E Ep).
  vm_compute. discriminate.
Defined.


Lemma evaluate_appends_frames_witness :
  match evaluate false (table_deserialize [mk_all 0 3 0 0]) 10
          (engine_of ([] : QueueDecoder) true true)
          [[three_packets]; [[x00]]] [[[x01]]; []] [[1]; []] with
  | Ok m' =>
      exists frames,
        appended0 [[[x01]]; []] (output_buffers m') frames
        /\ appended0 [[1]; []] (output_sizes m') (repeat 3 (length frames))
  | _ => False
  end.
Proof.
  destruct (evaluate false (table_deserialize [mk_all 0 3 0 0]) 10
              (engine_of ([] : QueueDecoder) true true)
              [[three_packets]; [[x00]]] [[[x01]]; []] [[1]; []])
    as [m'| | |] eqn:E; try (vm_compute in E; discriminate).
  destruct (evaluate_appends_frames _ _ _ _ _ _ _ _ E)
    as (frames & Hb & _ & Hs & _).
  exists frames. split; [exact Hb | exact Hs].
Defined.

Lemma configured_frame_size_witness :
  match evaluate false (table_deserialize [mk_all 0 3 0 0]) 10
          (engine_of ([] : QueueDecoder) false false)
          [[three_packets]; [[x00]]] [[]] [[]] with
  | Ok m' =>
      exists n,
        Z.of_nat n = total_frames_used m'
        /\ appended0 [[]] (output_sizes m') (repeat 3 n)
  | _ => False
  end.
Proof.
  assert (configure {| width := 1; height := 1 |} constructed_engine
          = Ok (engine_of [] false false)) as Ec by (vm_compute; reflexivity).
  destruct (evaluate false (table_deserialize [mk_all 0 3 0 0]) 10
              (engine_of ([] : QueueDecoder) false false)
              [[three_packets]; [[x00]]] [[]] [[]])
    as [m'| | |] eqn:E; try (vm_compute in E; discriminate).
  destruct (configured_frame_size _ _ _ _ _ _ _ _ _ _ Ec E)
    as (_ & _ & _ & _ & n & Hn & Hs).
  exists n. split; [exact Hn | exact Hs].
Defined.

Lemma nonpositive_stride_witness :
  never_returns (fun fuel =>
    sampling_plan fuel (mk_strided 0 3 0 0 0)
                  (machine_of ([] : QueueDecoder) true true))
  /\ exists fuel0, forall fuel, (fuel0 <= fuel)%nat ->
       sampling_plan fuel (mk_strided 0 3 (-1) 0 0)
                     (machine_of ([] : QueueDecoder) true true) = Undef.
Proof.
  split.
  - apply (nonpositive_stride (mk_strided 0 3 0 0 0)
             (machine_of ([] : QueueDecoder) true true));
      [reflexivity | reflexivity | vm_compute; reflexivity | reflexivity].
  - apply (nonpositive_stride (mk_strided 0 3 (-1) 0 0)
             (machine_of ([] : QueueDecoder) true true));
      [reflexivity | reflexivity | vm_compute; reflexivity
      | vm_compute; reflexivity].
Defined.

Lemma empty_plan_reads_no_packet_witness :
  process_item 5 (mk_all 3 3 0 0) [x01]
               (machine_of ([] : QueueDecoder) true false)
  = process_item 5 (mk_all 3 3 0 0) three_packets
                 (machine_of ([] : QueueDecoder) true false).
Proof.
  apply (empty_plan_reads_no_packet 5 (mk_all 3 3 0 0) three_packets
           (machine_of ([] : QueueDecoder) true false)
           (machine_of ([] : QueueDecoder) true false)).
  reflexivity.
Defined.

Lemma evaluate_needs_both_channels_witness :
  match evaluate false (table_deserialize [mk_all 0 3 0 0]) 10
          (engine_of ([] : QueueDecoder) true true)
          [[three_packets]; [[x00]; [x00]]] [[]] [[]] with
  | Ok _ =>
      exists col0 col1 rest,
        [[three_packets]; [[x00]; [x00]]] = col0 :: col1 :: rest
        /\ (length col0 <= length col1)%nat
  | _ => False
  end.
Proof.
  destruct (evaluate false (table_deserialize [mk_all 0 3 0 0]) 10
              (engine_of ([] : QueueDecoder) true true)
              [[three_packets]; [[x00]; [x00]]] [[]] [[]])
    as [m'| | |] eqn:E; try (vm_compute in E; discriminate).
  apply (evaluate_needs_both_channels _ _ _ _ _ _ _ _ E).
  simpl. discriminate.
Defined.

Lemma warm_plan_is_suffix_witness :
  exists pre, [0; 4; 8; 12; 16] = pre ++ [4; 8; 12; 16] /\ Z.of_nat (length pre) <= 1.
Proof.
  apply (warm_plan_is_suffix 10 10 (mk_strided 0 20 4 1 0)
           (machine_of ([] : QueueDecoder) true false)
           (machine_of ([] : QueueDecoder) false false)
           [0; 4; 8; 12; 16] [4; 8; 12; 16]
           (machine_of ([] : QueueDecoder) true false)
           (machine_of ([] : QueueDecoder) false false));
    try reflexivity.
  vm_compute. discriminate.
Defined.

(** ** [SpinLock] *)

Lemma spinlock_upd_same i p ts : SpinLock.upd i p ts i = p.
Proof. unfold SpinLock.upd. rewrite Nat.eqb_refl. reflexivity. Qed.

Lemma spinlock_upd_other i j p ts : j <> i -> SpinLock.upd i p ts j = ts j.
Proof.
  intros Hne. unfold SpinLock.upd.
  destruct (Nat.eqb_spec j i); [contradiction | reflexivity].
Qed.

Lemma spinlock_upd_holding i j p ts :
  p <> SpinLock.Holding -> SpinLock.upd i p ts j = SpinLock.Holding ->
  j <> i /\ ts j = SpinLock.Holding.
Proof.
  intros Hp. unfold SpinLock.upd.
  destruct (Nat.eqb_spec j i); [congruence | auto].
Qed.

(** The flag is set exactly while some thread holds the lock, and at most
    one thread does. *)
Lemma spinlock_invariant s :
  SpinLock.reachable s ->
  (SpinLock.locked (SpinLock.flag s) = true
   <-> exists i, SpinLock.threads s i = SpinLock.Holding)
  /\ (forall i j,
        SpinLock.threads s i = SpinLock.Holding ->
        SpinLock.threads s j = SpinLock.Holding -> i = j).
Proof.
  induction 1 as [|s s' Hr [IHf IHu] Hs].
  - simpl. split; [|discriminate].
    split; [discriminate | intros [i Hi]; discriminate].
  - destruct Hs as [s i Hi | s i Hi | s i Hi]; cbn [SpinLock.flag SpinLock.threads].
    + split; [split|].
      * intros Hl. apply IHf in Hl. destruct Hl as [k Hk].
        exists k. rewrite spinlock_upd_other; [exact Hk | congruence].
      * intros [k Hk]. apply spinlock_upd_holding in Hk; [|discriminate].
        apply IHf. exists k. apply Hk.
      * intros a b Ha Hb.
        apply spinlock_upd_holding in Ha; [|discriminate].
        apply spinlock_upd_holding in Hb; [|discriminate].
        apply IHu; [apply Ha | apply Hb].
    + unfold SpinLock.test_and_set. cbn [fst snd SpinLock.locked].
      destruct (SpinLock.locked (SpinLock.flag s)) eqn:Hl.
      * split; [split|].
        -- intros _. destruct (proj1 IHf eq_refl) as [k Hk].
           exists k. rewrite spinlock_upd_other; [exact Hk | congruence].
        -- reflexivity.
        -- intros a b Ha Hb.
           apply spinlock_upd_holding in Ha; [|discriminate].
           apply spinlock_upd_holding in Hb; [|discriminate].
           apply IHu; [apply Ha | apply Hb].
      * assert (forall k, SpinLock.threads s k <> SpinLock.Holding) as Hnone.
        { intros k Hk. assert (false = true) by (apply IHf; eauto).
          discriminate. }
        split; [split|].
        -- intros _. exists i. apply spinlock_upd_same.
        -- reflexivity.
        -- intros a b Ha Hb. unfold SpinLock.upd in Ha, Hb.
           destruct (Nat.eqb_spec a i), (Nat.eqb_spec b i);
             try congruence; exfalso; eapply Hnone; eauto.
    + split; [split|].
      * discriminate.
      * intros [k Hk]. apply spinlock_upd_holding in Hk; [|discriminate].
        destruct Hk as [Hne Hk]. elim Hne. apply IHu; assumption.
      * intros a b Ha Hb.
        apply spinlock_upd_holding in Ha; [|discriminate].
        apply spinlock_upd_holding in Hb; [|discriminate].
        apply IHu; [apply Ha | apply Hb].
Qed.

(** X16: [SpinLock] gives mutual exclusion: however the threads that call
    [lock()] and then [unlock()] interleave, at most one of them is between
    the return of its [lock()] and its [unlock()]; the flag is set exactly
    while one is; and a thread that spins in [lock()] can always get the
    lock, at once when it is free and else as soon as the holder has called
    [unlock()]. *)
Theorem spinlock_mutual_exclusion s :
  SpinLock.reachable s ->
  (forall i j,
     SpinLock.threads s i = SpinLock.Holding ->
     SpinLock.threads s j = SpinLock.Holding -> i = j)
  /\ (SpinLock.locked (SpinLock.flag s) = true
      <-> exists i, SpinLock.threads s i = SpinLock.Holding)
  /\ (forall i,
        SpinLock.threads s i = SpinLock.Spinning ->
        exists s',
          SpinLock.steps s s' /\ SpinLock.threads s' i = SpinLock.Holding).
Proof.
  intros Hr. destruct (spinlock_invariant s Hr) as [Hf Hu].
  split; [exact Hu|]. split; [exact Hf|].
  intros i Hi.
  assert (forall s0, SpinLock.locked (SpinLock.flag s0) = false ->
            SpinLock.threads s0 i = SpinLock.Spinning ->
            exists s', SpinLock.steps s0 s'
                       /\ SpinLock.threads s' i = SpinLock.Holding) as Hfree.
  { intros s0 Hl0 Hi0. eexists. split.
    - eapply SpinLock.steps_cons;
        [apply (SpinLock.step_test_and_set s0 i Hi0) | apply SpinLock.steps_refl].
    - cbn [SpinLock.threads]. unfold SpinLock.test_and_set. cbn [fst].
      rewrite Hl0. apply spinlock_upd_same. }
  destruct (SpinLock.locked (SpinLock.flag s)) eqn:Hl.
  - destruct (proj1 Hf eq_refl) as [k Hk].
    assert (i <> k) as Hne by congruence.
    destruct (Hfree {| SpinLock.flag := SpinLock.unlock (SpinLock.flag s);
                       SpinLock.threads :=
                         SpinLock.upd k SpinLock.Outside (SpinLock.threads s) |})
      as (s' & Hs' & Hh).
    + reflexivity.
    + cbn [SpinLock.threads]. rewrite spinlock_upd_other; assumption.
    + exists s'. split; [|exact Hh].
      eapply SpinLock.steps_cons; [apply (SpinLock.step_unlock s k Hk) | exact Hs'].
  - apply Hfree; assumption.
Qed.

Lemma spinlock_mutual_exclusion_witness :
  SpinLock.locked
    (SpinLock.flag
       {| SpinLock.flag := snd (SpinLock.test_and_set SpinLock.init);
          SpinLock.threads :=
            SpinLock.upd 0 SpinLock.Holding
              (SpinLock.upd 0 SpinLock.Spinning (fun _ => SpinLock.Outside)) |})
  = true
  <-> exists i,
        SpinLock.threads
          {| SpinLock.flag := snd (SpinLock.test_and_set SpinLock.init);
             SpinLock.threads :=
               SpinLock.upd 0 SpinLock.Holding
                 (SpinLock.upd 0 SpinLock.Spinning (fun _ => SpinLock.Outside)) |}
          i = SpinLock.Holding.
Proof.
  apply spinlock_mutual_exclusion.
  eapply SpinLock.reachable_step.
  - eapply SpinLock.reachable_step;
      [apply SpinLock.reachable_start
      | apply (SpinLock.step_call_lock SpinLock.start 0); reflexivity].
  - apply (SpinLock.step_test_and_set
             {| SpinLock.flag := SpinLock.init;
                SpinLock.threads :=
                  SpinLock.upd 0 SpinLock.Spinning (fun _ => SpinLock.Outside) |}
             0).
    reflexivity.
Defined.

(** X17: run alone, [lock()] on a free lock returns at its first
    [test_and_set] and leaves the flag set; [lock()] on a lock that is held
    never returns, also when the caller is the holder: the lock is not
    reentrant.  [unlock()] frees the lock whoever calls it and whatever its
    state, so [lock()] after [unlock()] always returns. *)
Theorem spinlock_lock_alone l :
  (SpinLock.locked l = false ->
   forall fuel, SpinLock.lock (S fuel) l = Ok {| SpinLock.locked := true |})
  /\ (SpinLock.locked l = true ->
      never_returns (fun fuel => SpinLock.lock fuel l))
  /\ (forall fuel,
        SpinLock.lock (S fuel) (SpinLock.unlock l)
        = Ok {| SpinLock.locked := true |})
  /\ SpinLock.unlock (SpinLock.unlock l) = SpinLock.unlock l.
Proof.
  split; [|split; [|split]].
  - intros Hl fuel. cbn [SpinLock.lock SpinLock.test_and_set].
    rewrite Hl. reflexivity.
  - intros Hl fuel. revert l Hl.
    induction fuel as [|fuel IH]; intros l Hl; [reflexivity|].
    cbn [SpinLock.lock SpinLock.test_and_set]. rewrite Hl.
    apply IH. reflexivity.
  - intros fuel. reflexivity.
  - reflexivity.
Qed.

Lemma process_item_returns_witness :
  exists m' evs,
    @process_item unit EchoDecoder echo_decoder 6 (mk_all 0 3 0 0)
      (encode_packets [[x0a]; [x0b]]) (machine_of Echo true false)
    = Ok (tt, m')
    /\ trace m' = trace (machine_of Echo true false) ++ evs
    /\ kept_frames evs = [0; 1; 2].
Proof.
  apply (@process_item_returns unit EchoDecoder echo_decoder 6
           (mk_all 0 3 0 0) [[x0a]; [x0b]] (machine_of Echo true false)
           [0; 1; 2] (machine_of Echo true false)).
  - repeat split; intros; simpl; reflexivity || lia.
  - repeat split; discriminate.
  - reflexivity.
  - reflexivity.
  - repeat constructor; vm_compute; discriminate.
  - vm_compute; discriminate.
  - vm_compute; discriminate.
  - repeat constructor; vm_compute; discriminate.
  - vm_compute; reflexivity.
  - vm_compute; discriminate.
  - vm_compute; discriminate.
  - vm_compute. lia.
Defined.

(** What the factory reports, and the engine it makes for a [QueueDecoder]
    on the devices 0 and 5. *)
Example factory_on_queue_decoder :
  DecoderEvaluatorFactory.get_capabilities
    (DecoderEvaluatorFactory.make CPU tt)
  = {| device_type := CPU; max_devices := 1; warmup_size := 0;
       can_overlap := true |}
  /\ DecoderEvaluatorFactory.get_output_names
       (DecoderEvaluatorFactory.make CPU tt) = ["frame"%string]%list
  /\ DecoderEvaluatorFactory.new_evaluator (D := QueueDecoder)
       (DecoderEvaluatorFactory.make CPU tt) {| device_ids := [0; 5] |}
     = Ok constructed_engine.
Proof. repeat split. Qed.


